(** * ml-sharp-animator: the PLY metadata codec, the depth estimator and the
      offset model, embedded from the TypeScript sources

    - [web/src/utils/plyMetadata.ts]            (module [PlyMetadata])
    - [trajectory/CameraMatrixUtils.ts]         (module [CameraMatrixUtils])
    - [GaussianViewer.setupCameraForScene]      (module [GaussianViewer])

    JavaScript numbers are IEEE 754 binary64 values.  They are modelled by
    [spec_float] with the operations of [SpecFloat] at precision 53 and
    maximal exponent 1024, so every definition below evaluates to the very
    value the program computes. *)

From Stdlib Require Import ZArith NArith PArith List Bool Lia String Ascii.
From Stdlib Require Import Floats.SpecFloat.
From Stdlib Require Import Sorting.Permutation Sorting.Sorted.
From Stdlib Require Init.Byte.
Import ListNotations.

Local Open Scope Z_scope.

(* ================================================================== *)
(** * JavaScript numbers *)
(* ================================================================== *)

Module JsNumber.

Definition number := spec_float.

Definition prec : Z := 53.
Definition emax : Z := 1024.

Definition NaN : number := S754_nan.
Definition Infinity : number := S754_infinity false.
Definition pzero : number := S754_zero false.
Definition nzero : number := S754_zero true.

(** The number nearest to the integer [z] (round to nearest, ties to even;
    exact whenever [|z| < 2^53]). *)
Definition ofZ (z : Z) : number := binary_normalize prec emax z 0 false.

Definition add : number -> number -> number := SFadd prec emax.
Definition sub : number -> number -> number := SFsub prec emax.
Definition mul : number -> number -> number := SFmul prec emax.
Definition div : number -> number -> number := SFdiv prec emax.
Definition sqrt : number -> number := SFsqrt prec emax.

(** A decimal literal [n/d] of the source text, e.g. [0.1] is [dec 1 10]:
    the correctly rounded quotient of two exactly represented integers. *)
Definition dec (n d : Z) : number := div (ofZ n) (ofZ d).

(** [a < b], [a <= b], [a === b] on numbers (all false on NaN). *)
Definition ltb : number -> number -> bool := SFltb.
Definition leb : number -> number -> bool := SFleb.
Definition eqb : number -> number -> bool := SFeqb.

(** [Number.isFinite]. *)
Definition isFinite (x : number) : bool :=
  match x with
  | S754_zero _ | S754_finite _ _ _ => true
  | S754_infinity _ | S754_nan => false
  end.

Definition isNaN (x : number) : bool :=
  match x with S754_nan => true | _ => false end.

(** [Math.max(a, b)]: NaN if either is NaN; [+0] counts as larger than
    [-0]. *)
Definition max (a b : number) : number :=
  match SFcompare a b with
  | None => NaN
  | Some Lt => b
  | Some Gt => a
  | Some Eq =>
      match a with
      | S754_zero true => b
      | _ => a
      end
  end.

(** The integer [floor x] of a finite number. *)
Definition floorZ (x : number) : Z :=
  match x with
  | S754_finite s m e =>
      let n := if s then Z.neg m else Z.pos m in
      if 0 <=? e then n * 2 ^ e else n / 2 ^ (- e)
  | _ => 0
  end.

(** [Math.floor]. *)
Definition floor (x : number) : number :=
  match x with
  | S754_finite s m e =>
      if 0 <=? e then x
      else let q := floorZ x in
           if q =? 0 then S754_zero s else ofZ q
  | _ => x
  end.

(** [Math.round]: [floor (x + 1/2)], keeping the sign of a zero result. *)
Definition round (x : number) : number :=
  match x with
  | S754_finite s m e =>
      if 0 <=? e then x
      else let n := if s then Z.neg m else Z.pos m in
           let q := (2 * n + 2 ^ (- e)) / 2 ^ (- e + 1) in
           if q =? 0 then S754_zero s else ofZ q
  | _ => x
  end.

(** [ToIntegerOrInfinity] followed by the range test of [ToIndex]:
    [None] stands for the RangeError. NaN converts to index 0. *)
Definition toIndex (x : number) : option Z :=
  match x with
  | S754_nan => Some 0
  | S754_zero _ => Some 0
  | S754_infinity _ => None
  | S754_finite s m e =>
      let t := if 0 <=? e then Z.pos m * 2 ^ e else Z.pos m / 2 ^ (- e) in
      if s then (if t =? 0 then Some 0 else None)
      else if t <=? 2 ^ 53 - 1 then Some t else None
  end.

(** The value of an IEEE 754 binary32 bit pattern ([DataView.getFloat32]),
    widened exactly to binary64. *)
Definition ofFloat32Bits (w : Z) : number :=
  let s := Z.testbit w 31 in
  let ex := Z.land (Z.shiftr w 23) 255 in
  let fr := Z.land w (2 ^ 23 - 1) in
  let sg (m : Z) := if s then - m else m in
  if ex =? 255 then (if fr =? 0 then S754_infinity s else NaN)
  else if ex =? 0 then binary_normalize prec emax (sg fr) (-149) s
  else binary_normalize prec emax (sg (fr + 2 ^ 23)) (ex - 150) s.

(** ** Normal forms

    A value of [spec_float] is a number when its mantissa and exponent are
    in the normal form of binary64 ([valid_binary]). *)

Definition validNumbers (l : list number) : bool :=
  forallb (valid_binary prec emax) l.

(** A positive finite number in normal form. *)
Definition positiveFinite (v : number) : Prop :=
  exists m e, v = S754_finite false m e /\ SpecFloat.bounded prec emax m e = true.

(** [a <= b] as a relation. *)
Definition numLe (a b : number) : Prop := leb a b = true.

(** The number of binary digits dropped when a mantissa is brought down to
    53 digits. *)
Definition excess (m : Z) : Z := Z.max 0 (Zdigits2 m - 53).

(** The mantissas of two finite numbers at their common exponent. *)
Definition aligned (ma : positive) (ea : Z) (mb : positive) (eb : Z)
  : Z * Z :=
  (Z.pos ma * 2 ^ (ea - Z.min ea eb), Z.pos mb * 2 ^ (eb - Z.min ea eb)).

End JsNumber.

(* ================================================================== *)
(** * JavaScript strings: sequences of UTF-16 code units *)
(* ================================================================== *)

Module JsString.

Definition codeunit := N.
Definition jsstring := list codeunit.

(** A string literal of the source text. *)
Definition lit (s : string) : jsstring :=
  List.map N_of_ascii (list_ascii_of_string s).

Fixpoint eqb (a b : jsstring) : bool :=
  match a, b with
  | [], [] => true
  | x :: a', y :: b' => N.eqb x y && eqb a' b'
  | _, _ => false
  end.

(** [s.startsWith(p)]. *)
Fixpoint startsWith (s p : jsstring) : bool :=
  match p, s with
  | [], _ => true
  | y :: p', x :: s' => N.eqb x y && startsWith s' p'
  | _ :: _, [] => false
  end.

(** WhiteSpace and LineTerminator code units: what [trim] strips and what
    the regular expression class [\s] matches. *)
Definition isWhite (c : codeunit) : bool :=
  ((9 <=? c) && (c <=? 13) ||
   (c =? 32) || (c =? 160) || (c =? 5760) ||
   ((8192 <=? c) && (c <=? 8202)) ||
   (c =? 8232) || (c =? 8233) || (c =? 8239) || (c =? 8287) ||
   (c =? 12288) || (c =? 65279))%N.

Fixpoint trimStart (s : jsstring) : jsstring :=
  match s with
  | c :: s' => if isWhite c then trimStart s' else s
  | [] => []
  end.

Definition trim (s : jsstring) : jsstring :=
  rev (trimStart (rev (trimStart s))).

(** [s.split(sep)] for a one-unit separator: the result is never empty. *)
Fixpoint splitOn (sep : codeunit) (s : jsstring) (cur : jsstring)
  : list jsstring :=
  match s with
  | [] => [rev cur]
  | c :: s' =>
      if N.eqb c sep then rev cur :: splitOn sep s' []
      else splitOn sep s' (c :: cur)
  end.

Definition split (s : jsstring) (sep : codeunit) : list jsstring :=
  splitOn sep s [].

(** [s.split(/\s+/)]: a maximal run of white space separates two fields. *)
Fixpoint splitWhite (s : jsstring) (cur : jsstring) (inRun : bool)
  : list jsstring :=
  match s with
  | [] => [rev cur]
  | c :: s' =>
      if isWhite c then
        if inRun then splitWhite s' cur true
        else rev cur :: splitWhite s' [] true
      else splitWhite s' (c :: cur) false
  end.

Definition splitSpaces (s : jsstring) : list jsstring :=
  splitWhite s [] false.

Definition isDigit (c : codeunit) : bool := ((48 <=? c) && (c <=? 57))%N.

(** The value of the longest prefix of decimal digits, and whether there was
    at least one digit. *)
Fixpoint digitsPrefix (s : jsstring) (acc : Z) (seen : bool) : Z * bool :=
  match s with
  | c :: s' =>
      if isDigit c then digitsPrefix s' (10 * acc + (Z.of_N c - 48)) true
      else (acc, seen)
  | [] => (acc, seen)
  end.

(** [Number.parseInt(s, 10)]. *)
Definition parseInt (s : jsstring) : JsNumber.number :=
  let s1 := trimStart s in
  let '(neg, s2) :=
    match s1 with
    | c :: r => if (c =? 45)%N then (true, r)
                else if (c =? 43)%N then (false, r) else (false, s1)
    | [] => (false, s1)
    end in
  let '(v, seen) := digitsPrefix s2 0 false in
  if negb seen then JsNumber.NaN
  else if v =? 0 then S754_zero neg
  else JsNumber.ofZ (if neg then - v else v).

(** ** [TextDecoder("utf-8").decode]

    The decoder of the Encoding standard in replacement mode: every
    ill-formed sequence becomes U+FFFD, a leading byte order mark is
    dropped, and a code point above U+FFFF becomes a surrogate pair. *)

Record utf8State := {
  codePoint : N;
  bytesNeeded : nat;
  lowerBoundary : N;
  upperBoundary : N
}.

Definition utf8Init : utf8State :=
  {| codePoint := 0; bytesNeeded := 0;
     lowerBoundary := 128; upperBoundary := 191 |}.

Definition between (lo x hi : N) : bool := ((lo <=? x) && (x <=? hi))%N.

(** A byte read while no sequence is open. *)
Definition utf8Lead (b : N) : list N * utf8State :=
  if (b <=? 127)%N then ([b], utf8Init)
  else if between 194 b 223 then
    ([], {| codePoint := N.land b 31; bytesNeeded := 1;
            lowerBoundary := 128; upperBoundary := 191 |})
  else if between 224 b 239 then
    ([], {| codePoint := N.land b 15; bytesNeeded := 2;
            lowerBoundary := if (b =? 224)%N then 160%N else 128%N;
            upperBoundary := if (b =? 237)%N then 159%N else 191%N |})
  else if between 240 b 244 then
    ([], {| codePoint := N.land b 7; bytesNeeded := 3;
            lowerBoundary := if (b =? 240)%N then 144%N else 128%N;
            upperBoundary := if (b =? 244)%N then 143%N else 191%N |})
  else ([65533%N], utf8Init).

Definition utf8Step (st : utf8State) (b : N) : list N * utf8State :=
  match bytesNeeded st with
  | O => utf8Lead b
  | S r =>
      if between (lowerBoundary st) b (upperBoundary st) then
        let cp := N.lor (N.shiftl (codePoint st) 6) (N.land b 63) in
        match r with
        | O => ([cp], utf8Init)
        | S _ => ([], {| codePoint := cp; bytesNeeded := r;
                         lowerBoundary := 128; upperBoundary := 191 |})
        end
      else
        (* the byte is put back and read again with no sequence open *)
        let '(out, st') := utf8Lead b in (65533%N :: out, st')
  end.

Fixpoint utf8Run (st : utf8State) (bytes : list Byte.byte) : list N :=
  match bytes with
  | [] => match bytesNeeded st with O => [] | S _ => [65533%N] end
  | b :: rest =>
      let '(out, st') := utf8Step st (Byte.to_N b) in
      out ++ utf8Run st' rest
  end.

Definition utf16 (cp : N) : jsstring :=
  if (cp <=? 65535)%N then [cp]
  else let c := (cp - 65536)%N in
       [(55296 + N.shiftr c 10)%N; (56320 + N.land c 1023)%N].

Definition utf8Decode (bytes : list Byte.byte) : jsstring :=
  let cps := utf8Run utf8Init bytes in
  let cps' := match cps with
              | c :: r => if (c =? 65279)%N then r else cps
              | [] => []
              end in
  flat_map utf16 cps'.

End JsString.

(* ================================================================== *)
(** * The part of three.js the codec uses *)
(* ================================================================== *)

Module Three.
Import JsNumber.

(** A matrix object is its [elements] array, which three.js keeps in
    column-major order. *)
Definition Matrix := list number.

Definition n0 : number := pzero.
Definition n1 : number := ofZ 1.

(** [new Matrix4()] and [new Matrix3()]: the identity. *)
Definition Matrix4_new : Matrix :=
  [n1; n0; n0; n0;  n0; n1; n0; n0;  n0; n0; n1; n0;  n0; n0; n0; n1].

Definition Matrix3_new : Matrix :=
  [n1; n0; n0;  n0; n1; n0;  n0; n0; n1].

(** [Matrix4.set(n11, n12, ..., n44)]: the arguments come row by row and
    [nRC] is stored at index [4 * (C - 1) + (R - 1)]. *)
Definition Matrix4_set
  (n11 n12 n13 n14 n21 n22 n23 n24 n31 n32 n33 n34 n41 n42 n43 n44 : number)
  : Matrix :=
  [n11; n21; n31; n41;  n12; n22; n32; n42;
   n13; n23; n33; n43;  n14; n24; n34; n44].

(** [Matrix3.set(n11, n12, ..., n33)], likewise. *)
Definition Matrix3_set (n11 n12 n13 n21 n22 n23 n31 n32 n33 : number)
  : Matrix :=
  [n11; n21; n31;  n12; n22; n32;  n13; n23; n33].

(** The entry at row [r], column [c] (both from 0) of a 4x4 matrix. *)
Definition entry4 (te : Matrix) (r c : nat) : option number :=
  nth_error te (4 * c + r).

End Three.

(* ================================================================== *)
(** * web/src/utils/plyMetadata.ts *)
(* ================================================================== *)

Module PlyMetadata.
Import JsNumber JsString.

(** Calls to [console.log] and [console.error] are left out: they return
    normally and change nothing the module reads.  So is the last block of
    [parsePlyMetadata], which only logs when a [supplement] element is
    declared.

    ** The store and the effects of the module

    [DEFAULT_METADATA] holds two matrix objects, created once when the
    module is loaded.  A spread copy [{ ...DEFAULT_METADATA }] copies the two
    references, not the objects, so the store of matrix objects is part of
    the state every call runs in.  The store also records each access made
    through the [DataView], as (byte index, width), the latest first. *)

Definition loc := nat.

Record World := {
  heap : list Three.Matrix;
  reads : list (Z * Z)
}.

Definition deref (w : World) (l : loc) : option Three.Matrix :=
  nth_error (heap w) l.

Fixpoint updateAt {A : Type} (l : list A) (i : nat) (f : A -> A) : list A :=
  match l, i with
  | [], _ => []
  | x :: r, O => f x :: r
  | x :: r, S j => x :: updateAt r j f
  end.

Definition store (l : loc) (m : Three.Matrix) (w : World) : World :=
  {| heap := updateAt (heap w) l (fun _ => m); reads := reads w |}.

Inductive Error := RangeError.

Inductive Completion (A : Type) :=
| Normal (a : A)
| Throw (e : Error).
Arguments Normal {A} a.
Arguments Throw {A} e.

Definition M (A : Type) := World -> Completion A * World.

Definition ret {A} (a : A) : M A := fun w => (Normal a, w).

Definition throw {A} (e : Error) : M A := fun w => (Throw e, w).

Definition bind {A B} (c : M A) (k : A -> M B) : M B :=
  fun w => match c w with
           | (Normal a, w') => k a w'
           | (Throw e, w') => (Throw e, w')
           end.

Notation "x <- c ;; k" := (bind c (fun x => k))
  (at level 61, c at next level, right associativity).

(** [a ?? b]. *)
Definition nullish {A} (a : option A) (b : A) : A :=
  match a with Some x => x | None => b end.

(** ** Types of the module *)

Inductive ColorSpace := sRGB | linearRGB.

Record PlyMetadata := {
  extrinsics : loc;
  intrinsics : loc;
  imageSize : number * number;
  focalLength : number;
  colorSpace : ColorSpace;
  hasMetadata : bool
}.

(** The module is loaded: the two matrices of [DEFAULT_METADATA] are
    allocated. *)
Definition initialWorld : World :=
  {| heap := [Three.Matrix4_new; Three.Matrix3_new]; reads := [] |}.

Definition DEFAULT_METADATA : PlyMetadata :=
  {| extrinsics := 0%nat;
     intrinsics := 1%nat;
     imageSize := (ofZ 640, ofZ 480);
     focalLength := pzero;
     colorSpace := sRGB;
     hasMetadata := false |}.

Definition estimateFocalLength (imageSize : number * number) : number :=
  let height := snd imageSize in
  mul height (dec 107 100).

Record PropertyInfo := {
  propName : jsstring;
  propType : jsstring;
  byteSize : Z
}.

Record ElementInfo := {
  name : jsstring;
  count : number;
  properties : list PropertyInfo;
  bytesPerElement : Z
}.

Inductive Format := binary_little_endian | binary_big_endian | ascii.

Definition isLittleEndian (f : Format) : bool :=
  match f with binary_little_endian => true | _ => false end.

Definition oneOf (s : jsstring) (names : list string) : bool :=
  existsb (fun n => JsString.eqb s (lit n)) names.

Definition getPropertyByteSize (type : jsstring) : Z :=
  if oneOf type ["char"; "uchar"; "int8"; "uint8"]%string then 1
  else if oneOf type ["short"; "ushort"; "int16"; "uint16"]%string then 2
  else if oneOf type
            ["int"; "uint"; "int32"; "uint32"; "float"; "float32"]%string
       then 4
  else if oneOf type ["double"; "float64"]%string then 8
  else 4.

(** ** [parsePlyHeader]

    [currentElement] is a reference: the object it names may already sit in
    [elements] when a later [property] line appends to it (an [element] line
    with fewer than three fields pushes the current object and keeps it
    current).  The element objects therefore live in a store [objects] and
    [elements] holds references. *)

Record HeaderState := {
  objects : list ElementInfo;
  elements : list nat;
  currentElement : option nat;
  headerEndIndex : Z;
  byteOffset : Z;
  format : Format
}.

Definition headerStart : HeaderState :=
  {| objects := []; elements := []; currentElement := None;
     headerEndIndex := 0; byteOffset := 0; format := ascii |}.

Definition sumByteSizes (ps : list PropertyInfo) : Z :=
  fold_left (fun sum p => sum + byteSize p) ps 0.

(** [if (currentElement) { currentElement.bytesPerElement = ...;
    elements.push(currentElement); }] *)
Definition saveElement (st : HeaderState) : HeaderState :=
  match currentElement st with
  | Some r =>
      {| objects := updateAt (objects st) r
           (fun el => {| name := name el; count := count el;
                         properties := properties el;
                         bytesPerElement := sumByteSizes (properties el) |});
         elements := elements st ++ [r];
         currentElement := currentElement st;
         headerEndIndex := headerEndIndex st;
         byteOffset := byteOffset st;
         format := format st |}
  | None => st
  end.

Definition lengthGe3 {A} (l : list A) : bool :=
  match l with _ :: _ :: _ :: _ => true | _ => false end.

Definition truthy (s : option jsstring) : bool :=
  match s with Some (_ :: _) => true | _ => false end.

Definition formatLine (parts : list jsstring) (st : HeaderState)
  : HeaderState :=
  let p1 := nth_error parts 1 in
  let f :=
    match p1 with
    | Some s =>
        if JsString.eqb s (lit "binary_little_endian")
        then binary_little_endian
        else if JsString.eqb s (lit "binary_big_endian")
        then binary_big_endian
        else format st
    | None => format st
    end in
  {| objects := objects st; elements := elements st;
     currentElement := currentElement st;
     headerEndIndex := headerEndIndex st;
     byteOffset := byteOffset st; format := f |}.

Definition elementLine (parts : list jsstring) (st0 : HeaderState)
  : HeaderState :=
  let st := saveElement st0 in
  if lengthGe3 parts && truthy (nth_error parts 1) then
    let el := {| name := nullish (nth_error parts 1) [];
                 count := parseInt (nullish (nth_error parts 2) (lit "0"));
                 properties := [];
                 bytesPerElement := 0 |} in
    {| objects := objects st ++ [el];
       elements := elements st;
       currentElement := Some (List.length (objects st));
       headerEndIndex := headerEndIndex st;
       byteOffset := byteOffset st; format := format st |}
  else st.

Definition propertyLine (parts : list jsstring) (r : nat) (st : HeaderState)
  : HeaderState :=
  if lengthGe3 parts && truthy (nth_error parts 1)
     && truthy (nth_error parts 2) then
    let type := nullish (nth_error parts 1) [] in
    let nm := nullish (nth_error parts (List.length parts - 1)) [] in
    let p := {| propName := nm; propType := type;
                byteSize := getPropertyByteSize type |} in
    {| objects := updateAt (objects st) r
         (fun el => {| name := name el; count := count el;
                       properties := properties el ++ [p];
                       bytesPerElement := bytesPerElement el |});
       elements := elements st;
       currentElement := currentElement st;
       headerEndIndex := headerEndIndex st;
       byteOffset := byteOffset st; format := format st |}
  else st.

Definition withOffset (st : HeaderState) (off : Z) : HeaderState :=
  {| objects := objects st; elements := elements st;
     currentElement := currentElement st;
     headerEndIndex := headerEndIndex st;
     byteOffset := off; format := format st |}.

Definition withEnd (st : HeaderState) : HeaderState :=
  {| objects := objects st; elements := elements st;
     currentElement := currentElement st;
     headerEndIndex := byteOffset st;
     byteOffset := byteOffset st; format := format st |}.

(** The body of the [for] loop after the test for [end_header]. *)
Definition headerLine (trimmed : jsstring) (st : HeaderState) : HeaderState :=
  if startsWith trimmed (lit "format ") then
    formatLine (splitSpaces trimmed) st
  else if startsWith trimmed (lit "element ") then
    elementLine (splitSpaces trimmed) st
  else
    match currentElement st with
    | Some r =>
        if startsWith trimmed (lit "property ") then
          propertyLine (splitSpaces trimmed) r st
        else st
    | None => st
    end.

Fixpoint headerLoop (lines : list jsstring) (st : HeaderState)
  : HeaderState :=
  match lines with
  | [] => st
  | line :: rest =>
      let st1 := withOffset st (byteOffset st + (Z.of_nat (List.length line) + 1)) in
      let trimmed := trim line in
      if JsString.eqb trimmed (lit "end_header") then withEnd st1
      else headerLoop rest (headerLine trimmed st1)
  end.

Record Header := {
  hd_headerEndIndex : Z;
  hd_elements : list ElementInfo;
  hd_format : Format
}.

Definition noElement : ElementInfo :=
  {| name := []; count := NaN; properties := []; bytesPerElement := 0 |}.

Definition parsePlyHeader (text : jsstring) : Header :=
  let lines := split text 10%N in
  let st := saveElement (headerLoop lines headerStart) in
  {| hd_headerEndIndex := headerEndIndex st;
     hd_elements := List.map (fun r => nth r (objects st) noElement)
                             (elements st);
     hd_format := format st |}.

(** ** [DataView] over the whole buffer *)

Definition Buffer := list Byte.byte.

(** [GetViewValue]: the request index goes through [ToIndex], then the range
    is checked against the size of the view. *)
Definition getViewValue (buffer : Buffer) (requestIndex : number) (size : nat)
  : M (list Z) :=
  match toIndex requestIndex with
  | None => throw RangeError
  | Some i =>
      if Z.of_nat (List.length buffer) <? i + Z.of_nat size
      then throw RangeError
      else fun w =>
        (Normal (List.map (fun b => Z.of_N (Byte.to_N b))
                          (firstn size (skipn (Z.to_nat i) buffer))),
         {| heap := heap w; reads := (i, Z.of_nat size) :: reads w |})
  end.

Definition littleEndian (bytes : list Z) : Z :=
  fold_right (fun b acc => b + 256 * acc) 0 bytes.

Definition getUint8 (buffer : Buffer) (offset : number) : M number :=
  bs <- getViewValue buffer offset 1 ;; ret (ofZ (littleEndian bs)).

Definition getUint32 (buffer : Buffer) (offset : number) : M number :=
  bs <- getViewValue buffer offset 4 ;; ret (ofZ (littleEndian bs)).

Definition getFloat32 (buffer : Buffer) (offset : number) : M number :=
  bs <- getViewValue buffer offset 4 ;; ret (ofFloat32Bits (littleEndian bs)).

(** [for (let i = 0; i < count; i++) result.push(get(offset + i * 4))] *)
Fixpoint readLoop (get : number -> M number) (offset : number)
                  (i : Z) (n : nat) : M (list number) :=
  match n with
  | O => ret []
  | S n' =>
      v <- get (add offset (mul (ofZ i) (ofZ 4))) ;;
      rest <- readLoop get offset (i + 1) n' ;;
      ret (v :: rest)
  end.

Definition readFloats (view : Buffer) (offset : number) (count : nat)
  : M (list number) :=
  readLoop (getFloat32 view) offset 0 count.

Definition readUints (view : Buffer) (offset : number) (count : nat)
  : M (list number) :=
  readLoop (getUint32 view) offset 0 count.

Definition decodeColorSpace (value : number) : ColorSpace :=
  if JsNumber.eqb value pzero then linearRGB else sRGB.

(** ** [Map] with string keys: a later [set] of a key replaces its value *)

Definition JsMap (V : Type) := list (jsstring * V).

Fixpoint Map_set {V} (m : JsMap V) (k : jsstring) (v : V) : JsMap V :=
  match m with
  | [] => [(k, v)]
  | (k', v') :: r =>
      if JsString.eqb k' k then (k, v) :: r else (k', v') :: Map_set r k v
  end.

Fixpoint Map_get {V} (m : JsMap V) (k : jsstring) : option V :=
  match m with
  | [] => None
  | (k', v') :: r => if JsString.eqb k' k then Some v' else Map_get r k
  end.

Definition Map_has {V} (m : JsMap V) (k : jsstring) : bool :=
  match Map_get m k with Some _ => true | None => false end.

(** ** [parsePlyMetadata] *)

Definition withImageSize (m : PlyMetadata) (s : number * number)
  : PlyMetadata :=
  {| extrinsics := extrinsics m; intrinsics := intrinsics m;
     imageSize := s; focalLength := focalLength m;
     colorSpace := colorSpace m; hasMetadata := hasMetadata m |}.

Definition withFocalLength (m : PlyMetadata) (f : number) : PlyMetadata :=
  {| extrinsics := extrinsics m; intrinsics := intrinsics m;
     imageSize := imageSize m; focalLength := f;
     colorSpace := colorSpace m; hasMetadata := hasMetadata m |}.

Definition withColorSpace (m : PlyMetadata) (c : ColorSpace) : PlyMetadata :=
  {| extrinsics := extrinsics m; intrinsics := intrinsics m;
     imageSize := imageSize m; focalLength := focalLength m;
     colorSpace := c; hasMetadata := hasMetadata m |}.

Definition withHasMetadata (m : PlyMetadata) (b : bool) : PlyMetadata :=
  {| extrinsics := extrinsics m; intrinsics := intrinsics m;
     imageSize := imageSize m; focalLength := focalLength m;
     colorSpace := colorSpace m; hasMetadata := b |}.

(** [metadata.intrinsics.set(...)], [metadata.extrinsics.set(...)]: the
    object the reference names is overwritten in the store. *)
Definition setMatrix (l : loc) (m : Three.Matrix) : M unit :=
  fun w => (Normal tt, store l m w).

Definition elementMapOf (els : list ElementInfo) : JsMap ElementInfo :=
  fold_left (fun m el => Map_set m (name el) el) els [].

(** [for (const el of elements) { elementOffsets.set(el.name, offset);
    offset += el.count * el.bytesPerElement; }] *)
Definition elementOffsetsOf (els : list ElementInfo) (start : number)
  : JsMap number :=
  fst (fold_left
         (fun '(m, offset) el =>
            (Map_set m (name el) offset,
             add offset (mul (count el) (ofZ (bytesPerElement el)))))
         els ([], start)).

Definition v_ (values : list number) (i : nat) : option number :=
  nth_error values i.

(** Read image_size if present. *)
Definition readImageSize (view : Buffer) (elementMap : JsMap ElementInfo)
    (elementOffsets : JsMap number) (metadata : PlyMetadata)
  : M PlyMetadata :=
  match Map_get elementMap (lit "image_size") with
  | Some imageSizeEl =>
      if leb (ofZ 1) (count imageSizeEl) then
        match Map_get elementOffsets (lit "image_size") with
        | Some imageSizeOffset =>
            values <- readUints view imageSizeOffset 2 ;;
            match v_ values 0, v_ values 1 with
            | Some v0, Some v1 => ret (withImageSize metadata (v0, v1))
            | _, _ => ret metadata
            end
        | None => ret metadata
        end
      else ret metadata
  | None => ret metadata
  end.

(** Read intrinsic if present. *)
Definition readIntrinsic (view : Buffer) (elementMap : JsMap ElementInfo)
    (elementOffsets : JsMap number) (metadata : PlyMetadata)
  : M PlyMetadata :=
  match Map_get elementMap (lit "intrinsic") with
  | Some intrinsicEl =>
      if leb (ofZ 1) (count intrinsicEl) then
        match Map_get elementOffsets (lit "intrinsic") with
        | Some intrinsicOffset =>
            let propCount := List.length (properties intrinsicEl) in
            if Nat.eqb propCount 9 then
              values <- readFloats view intrinsicOffset 9 ;;
              let fx := nullish (v_ values 0) (ofZ 512) in
              let fy := nullish (v_ values 4) (ofZ 512) in
              let metadata1 :=
                withFocalLength metadata (div (add fx fy) (ofZ 2)) in
              _ <- setMatrix (intrinsics metadata1)
                     (Three.Matrix3_set
                        (nullish (v_ values 0) (ofZ 1))
                        (nullish (v_ values 1) (ofZ 0))
                        (nullish (v_ values 2) (ofZ 0))
                        (nullish (v_ values 3) (ofZ 0))
                        (nullish (v_ values 4) (ofZ 1))
                        (nullish (v_ values 5) (ofZ 0))
                        (nullish (v_ values 6) (ofZ 0))
                        (nullish (v_ values 7) (ofZ 0))
                        (nullish (v_ values 8) (ofZ 1))) ;;
              ret metadata1
            else if Nat.eqb propCount 4 then
              values <- readFloats view intrinsicOffset 4 ;;
              let fx := nullish (v_ values 0) (ofZ 512) in
              let fy := nullish (v_ values 1) (ofZ 512) in
              let metadata1 :=
                withFocalLength metadata (div (add fx fy) (ofZ 2)) in
              match Map_get elementMap (lit "image_size"),
                    v_ values 2, v_ values 3 with
              | None, Some v2, Some v3 =>
                  ret (withImageSize metadata1 (round v2, round v3))
              | _, _, _ => ret metadata1
              end
            else ret metadata
        | None => ret metadata
        end
      else ret metadata
  | None => ret metadata
  end.

(** Read extrinsic if present. *)
Definition readExtrinsic (view : Buffer) (elementMap : JsMap ElementInfo)
    (elementOffsets : JsMap number) (metadata : PlyMetadata)
  : M PlyMetadata :=
  match Map_get elementMap (lit "extrinsic") with
  | Some extrinsicEl =>
      if leb (ofZ 1) (count extrinsicEl) then
        match Map_get elementOffsets (lit "extrinsic") with
        | Some extrinsicOffset =>
            let propCount := List.length (properties extrinsicEl) in
            if Nat.eqb propCount 16 then
              values <- readFloats view extrinsicOffset 16 ;;
              _ <- setMatrix (extrinsics metadata)
                     (Three.Matrix4_set
                        (nullish (v_ values 0) (ofZ 1))
                        (nullish (v_ values 4) (ofZ 0))
                        (nullish (v_ values 8) (ofZ 0))
                        (nullish (v_ values 12) (ofZ 0))
                        (nullish (v_ values 1) (ofZ 0))
                        (nullish (v_ values 5) (ofZ 1))
                        (nullish (v_ values 9) (ofZ 0))
                        (nullish (v_ values 13) (ofZ 0))
                        (nullish (v_ values 2) (ofZ 0))
                        (nullish (v_ values 6) (ofZ 0))
                        (nullish (v_ values 10) (ofZ 1))
                        (nullish (v_ values 14) (ofZ 0))
                        (nullish (v_ values 3) (ofZ 0))
                        (nullish (v_ values 7) (ofZ 0))
                        (nullish (v_ values 11) (ofZ 0))
                        (nullish (v_ values 15) (ofZ 1))) ;;
              ret metadata
            else if Nat.eqb propCount 12 then
              values <- readFloats view extrinsicOffset 12 ;;
              _ <- setMatrix (extrinsics metadata)
                     (Three.Matrix4_set
                        (nullish (v_ values 0) (ofZ 1))
                        (nullish (v_ values 4) (ofZ 0))
                        (nullish (v_ values 8) (ofZ 0))
                        (ofZ 0)
                        (nullish (v_ values 1) (ofZ 0))
                        (nullish (v_ values 5) (ofZ 1))
                        (nullish (v_ values 9) (ofZ 0))
                        (ofZ 0)
                        (nullish (v_ values 2) (ofZ 0))
                        (nullish (v_ values 6) (ofZ 0))
                        (nullish (v_ values 10) (ofZ 1))
                        (ofZ 0)
                        (nullish (v_ values 3) (ofZ 0))
                        (nullish (v_ values 7) (ofZ 0))
                        (nullish (v_ values 11) (ofZ 0))
                        (ofZ 1)) ;;
              ret metadata
            else ret metadata
        | None => ret metadata
        end
      else ret metadata
  | None => ret metadata
  end.

(** Read color_space if present. *)
Definition readColorSpace (view : Buffer) (elementMap : JsMap ElementInfo)
    (elementOffsets : JsMap number) (metadata : PlyMetadata)
  : M PlyMetadata :=
  match Map_get elementMap (lit "color_space") with
  | Some colorSpaceEl =>
      if leb (ofZ 1) (count colorSpaceEl) then
        match Map_get elementOffsets (lit "color_space") with
        | Some colorSpaceOffset =>
            value <- getUint8 view colorSpaceOffset ;;
            ret (withColorSpace metadata (decodeColorSpace value))
        | None => ret metadata
        end
      else ret metadata
  | None => ret metadata
  end.

(** What [parsePlyMetadata] reads of the buffer as header text. *)
Definition headerOf (buffer : Buffer) : Header :=
  let headerBytes := firstn (Z.to_nat 10000) buffer in
  let headerText := utf8Decode headerBytes in
  parsePlyHeader headerText.

(** The block guarded by [try]. *)
Definition parsePlyMetadata_try (buffer : Buffer) : M PlyMetadata :=
  let hd := headerOf buffer in
  if negb (isLittleEndian (hd_format hd)) then ret DEFAULT_METADATA
  else
    let elementMap := elementMapOf (hd_elements hd) in
    let hasIntrinsic :=
      Map_has elementMap (lit "intrinsic")
      || Map_has elementMap (lit "supplement") in
    let hasImageSize := Map_has elementMap (lit "image_size") in
    if negb hasIntrinsic && negb hasImageSize then ret DEFAULT_METADATA
    else
      let view := buffer in
      let elementOffsets :=
        elementOffsetsOf (hd_elements hd) (ofZ (hd_headerEndIndex hd)) in
      let metadata := withHasMetadata DEFAULT_METADATA true in
      metadata <- readImageSize view elementMap elementOffsets metadata ;;
      metadata <- readIntrinsic view elementMap elementOffsets metadata ;;
      metadata <- readExtrinsic view elementMap elementOffsets metadata ;;
      metadata <- readColorSpace view elementMap elementOffsets metadata ;;
      ret metadata.

(** [try { ... } catch (error) { return { ...DEFAULT_METADATA }; }]: what was
    written to the store before the exception stays written. *)
Definition parsePlyMetadata (buffer : Buffer) (w : World)
  : PlyMetadata * World :=
  match parsePlyMetadata_try buffer w with
  | (Normal metadata, w') => (metadata, w')
  | (Throw _, w') => (DEFAULT_METADATA, w')
  end.

End PlyMetadata.

(* ================================================================== *)
(** * trajectory/CameraMatrixUtils.ts *)
(* ================================================================== *)

(** The arithmetic [computeMaxOffset] is made of: the operations of the
    program on binary64 numbers. *)
Class Arith (T : Type) := {
  numAdd : T -> T -> T;
  numMul : T -> T -> T;
  numDiv : T -> T -> T;
  numSqrt : T -> T
}.

#[export] Instance Arith_number : Arith JsNumber.number := {
  numAdd := JsNumber.add;
  numMul := JsNumber.mul;
  numDiv := JsNumber.div;
  numSqrt := JsNumber.sqrt
}.

Module CameraMatrixUtils.

Section OffsetModel.
Context {T : Type} `{Arith T}.

(** The two fields of [TrajectoryParams] the offset model reads. *)
Record TrajectoryParams := {
  maxDisparity : T;
  maxZoom : T
}.

Record MaxOffset := { x : T; y : T; z : T }.

(** [a ** 2]. *)
Definition square (a : T) : T := numMul a a.

Definition computeMaxOffset (minDepth : T) (resolutionPx : T * T)
    (focalLengthPx : T) (params : TrajectoryParams) : MaxOffset :=
  let '(width, height) := resolutionPx in
  let diagonal :=
    numSqrt (numAdd (square (numDiv width focalLengthPx))
                     (square (numDiv height focalLengthPx))) in
  let maxLateralOffset :=
    numMul (numMul (maxDisparity params) diagonal) minDepth in
  let maxMedialOffset := numMul (maxZoom params) minDepth in
  {| x := maxLateralOffset; y := maxLateralOffset; z := maxMedialOffset |}.

End OffsetModel.

Arguments TrajectoryParams T : clear implicits.
Arguments MaxOffset T : clear implicits.

Import JsNumber.

(** The offset model in the spec's words (4.3): the same formula on the
    depth clamped to a small positive floor [eps] when it is zero or
    negative. *)
Definition clampDepth (eps minDepth : number) : number :=
  if leb minDepth pzero then eps else minDepth.

Definition specComputeOffset (eps minDepth : number)
    (imageSize : number * number) (focalLengthPx : number)
    (params : TrajectoryParams number) : MaxOffset number :=
  let d := clampDepth eps minDepth in
  let diagonal :=
    sqrt (add (mul (div (fst imageSize) focalLengthPx)
                   (div (fst imageSize) focalLengthPx))
              (mul (div (snd imageSize) focalLengthPx)
                   (div (snd imageSize) focalLengthPx))) in
  {| x := mul (mul (maxDisparity params) diagonal) d;
     y := mul (mul (maxDisparity params) diagonal) d;
     z := mul (maxZoom params) d |}.

(** ** [computeDepthQuantiles] *)

Record DepthQuantiles := { min : number; focus : number; max : number }.

(** [for (let i = 2; i < positions.length; i += 3)]: the elements at
    indices 2, 5, 8, ... *)
Fixpoint zValues (positions : list number) : list number :=
  match positions with
  | _ :: _ :: zv :: rest => zv :: zValues rest
  | _ => []
  end.

Definition validDepth (zv : number) : bool :=
  isFinite zv && ltb pzero zv.

(** [depths.sort((a, b) => a - b)].  With a comparator that is a consistent
    order on the elements the result is the one ascending arrangement,
    whatever algorithm the engine runs; insertion sort computes it. *)
Fixpoint insertBy (cmp : number -> number -> number) (a : number)
                  (l : list number) : list number :=
  match l with
  | [] => [a]
  | b :: r => if ltb pzero (cmp a b) then b :: insertBy cmp a r
              else a :: l
  end.

Fixpoint sortBy (cmp : number -> number -> number) (l : list number)
  : list number :=
  match l with
  | [] => []
  | a :: r => insertBy cmp a (sortBy cmp r)
  end.

(** [arr[i]] for a number [i]: an element when [i] is an integer within the
    array, [undefined] otherwise. *)
Definition arrayIndex (i : number) : option nat :=
  match i with
  | S754_zero _ => Some O
  | S754_finite false m e =>
      if 0 <=? e then Some (Z.to_nat (Z.pos m * 2 ^ e))
      else if Z.pos m mod 2 ^ (- e) =? 0
           then Some (Z.to_nat (Z.pos m / 2 ^ (- e)))
           else None
  | _ => None
  end.

Definition at_ (arr : list number) (i : number) : option number :=
  match arrayIndex i with
  | Some k => nth_error arr k
  | None => None
  end.

Definition orElse {A} (a b : option A) : option A :=
  match a with Some _ => a | None => b end.

Definition lengthOf (arr : list number) : number :=
  ofZ (Z.of_nat (List.length arr)).

Definition computeDepthQuantiles (positions : list number) (quantile : number)
  : DepthQuantiles :=
  let depths := filter validDepth (zValues positions) in
  match depths with
  | [] => {| min := ofZ 1; focus := ofZ 2; max := ofZ 10 |}
  | _ :: _ =>
      let depths := sortBy sub depths in
      let minIndex := floor (mul (lengthOf depths) quantile) in
      let maxIndex := floor (mul (lengthOf depths) (sub (ofZ 1) quantile)) in
      let focusIndex := floor (mul (lengthOf depths) (dec 5 10)) in
      {| min := PlyMetadata.nullish
                  (orElse (at_ depths minIndex) (at_ depths pzero)) (ofZ 1);
         focus := PlyMetadata.nullish
                  (orElse (at_ depths focusIndex) (at_ depths pzero)) (ofZ 2);
         max := PlyMetadata.nullish
                  (orElse (at_ depths maxIndex)
                          (at_ depths (sub (lengthOf depths) (ofZ 1))))
                  (ofZ 10) |}
  end.

(** The default value of the parameter [quantile]. *)
Definition defaultQuantile : number := dec 1 10.

End CameraMatrixUtils.

(* ================================================================== *)
(** * GaussianViewer.setupCameraForScene: depths from the bounding box *)
(* ================================================================== *)

Module GaussianViewer.
Import JsNumber.

Record SceneDepths := { minDepth : number; depthFocus : number }.

(** [const minZ = box.min.z; const maxZ = box.max.z;
     this.minDepth = Math.max(0.1, minZ);
     this.depthFocus = Math.max(2.0, minZ + 0.1 * (maxZ - minZ));] *)
Definition setupCameraForScene (minZ maxZ : number) : SceneDepths :=
  {| minDepth := JsNumber.max (dec 1 10) minZ;
     depthFocus :=
       JsNumber.max (ofZ 2) (add minZ (mul (dec 1 10) (sub maxZ minZ))) |}.

(** The bounding-volume statistics in the spec's words (4.2): the focus is
    computed from the clamped near depth. *)
Definition specBoundingVolume (minZ maxZ : number) : SceneDepths :=
  let near := JsNumber.max (dec 1 10) minZ in
  {| minDepth := near;
     depthFocus :=
       JsNumber.max (ofZ 2) (add near (mul (dec 1 10) (sub maxZ minZ))) |}.

End GaussianViewer.

(* ================================================================== *)
(** * Sample buffers *)
(* ================================================================== *)

Module Samples.
Import JsNumber PlyMetadata.

Definition byteOfZ (v : Z) : Byte.byte :=
  match Byte.of_N (Z.to_N (v mod 256)) with
  | Some b => b
  | None => Byte.x00
  end.

(** The four bytes of a 32-bit word, least significant first. *)
Definition word32 (v : Z) : list Byte.byte :=
  [byteOfZ v; byteOfZ (v / 256); byteOfZ (v / 65536); byteOfZ (v / 16777216)].

(** Header lines, each ended by a line feed. *)
Definition textLines (ls : list string) : list Byte.byte :=
  flat_map (fun l => list_byte_of_string l ++ [Byte.x0a]) ls.

(** binary32 bit patterns: 500.0, 640.0, 480.0. *)
Definition f500 : Z := 0x43FA0000.
Definition f640 : Z := 0x44200000.
Definition f480 : Z := 0x43F00000.

(** The bit pattern of the binary32 value [k] for [1 <= k <= 16], and the
    sixteen stored values 1.0, 2.0, ..., 16.0 of an extrinsic element. *)
Definition smallFloats : list Z :=
  [0x3F800000; 0x40000000; 0x40400000; 0x40800000;
   0x40A00000; 0x40C00000; 0x40E00000; 0x41000000;
   0x41100000; 0x41200000; 0x41300000; 0x41400000;
   0x41500000; 0x41600000; 0x41700000; 0x41800000].

(** A legacy four-float intrinsic element (fx = fy = 500, 640 x 480) and a
    colour space byte 1. *)
Definition legacyPly : Buffer :=
  textLines ["ply"; "format binary_little_endian 1.0";
             "element intrinsic 1";
             "property float fx"; "property float fy";
             "property float width"; "property float height";
             "element color_space 1"; "property uchar value";
             "end_header"]%string
  ++ word32 f500 ++ word32 f500 ++ word32 f640 ++ word32 f480
  ++ [Byte.x01].

(** A well-formed header of a text body. *)
Definition asciiPly : Buffer :=
  textLines ["ply"; "format ascii 1.0";
             "element image_size 1";
             "property uint width"; "property uint height";
             "end_header"; "800 600"]%string.

(** A big-endian body. *)
Definition bigEndianPly : Buffer :=
  textLines ["ply"; "format binary_big_endian 1.0";
             "element image_size 1";
             "property uint width"; "property uint height";
             "end_header"]%string
  ++ rev (word32 800) ++ rev (word32 600).

(** The header is cut before [end_header]. *)
Definition noTerminatorPly : Buffer :=
  textLines ["ply"; "format binary_little_endian 1.0";
             "element image_size 1";
             "property uint width"; "property uint height"]%string.


(** The body is cut inside the image_size element. *)
Definition truncatedPly : Buffer :=
  textLines ["ply"; "format binary_little_endian 1.0";
             "element image_size 1";
             "property uint width"; "property uint height";
             "end_header"]%string
  ++ word32 640 ++ [Byte.xe0; Byte.x01].

(** Two format lines, the text format last. *)
Definition twoFormatsPly : Buffer :=
  textLines ["ply"; "format binary_little_endian 1.0"; "format ascii 1.0";
             "element image_size 1";
             "property uint width"; "property uint height";
             "end_header"]%string
  ++ word32 640 ++ word32 480.

(** Nothing follows the header. *)
Definition headerOnlyPly : Buffer :=
  textLines ["ply"; "format binary_little_endian 1.0";
             "element image_size 1";
             "property uint width"; "property uint height";
             "end_header"]%string.

(** A sixteen-float extrinsic element storing 1.0 ... 16.0 row by row, after
    an image_size element. *)
Definition extrinsicPly : Buffer :=
  textLines ["ply"; "format binary_little_endian 1.0";
             "element image_size 1";
             "property uint width"; "property uint height";
             "element extrinsic 1"]%string
  ++ textLines (repeat "property float m"%string 16)
  ++ textLines ["end_header"%string]
  ++ word32 640 ++ word32 480
  ++ flat_map word32 smallFloats.

(** A nine-float intrinsic element storing 1.0 ... 9.0 row by row. *)
Definition intrinsicPly : Buffer :=
  textLines ["ply"; "format binary_little_endian 1.0";
             "element intrinsic 1"]%string
  ++ textLines (repeat "property float k"%string 9)
  ++ textLines ["end_header"%string]
  ++ flat_map word32 (firstn 9 smallFloats).

(** Ten thousand bytes of comment lines: 200 lines of 50 bytes. *)
Definition padding : Buffer :=
  textLines (repeat "comment 0123456789012345678901234567890123456789A"%string
                    200).

(** A complete header that starts after the padding. *)
Definition lateHeader : Buffer :=
  textLines ["format binary_little_endian 1.0";
             "element image_size 1";
             "property uint width"; "property uint height";
             "end_header"]%string
  ++ word32 640 ++ word32 480.

Definition stored (k : Z) : number := ofZ k.

(** ** Header anomalies *)

(** Some line of the header text is the terminator. *)
Definition hasTerminator (buffer : Buffer) : bool :=
  existsb (fun line => JsString.eqb (JsString.trim line)
                                    (JsString.lit "end_header"))
          (JsString.split
             (JsString.utf8Decode (firstn (Z.to_nat 10000) buffer)) 10%N).


(** ** Sample point arrays *)

Definition point (px py pz : Z) : list number :=
  [dec px 10; dec py 10; dec pz 10].

(** Twelve points and a dangling coordinate.  The depths are 3, 1, -0.5, 2,
    0, 7, 6, 5, 4, 9, 8, 10: ten of them are positive. *)
Definition samplePositions : list number :=
  point 0 0 30 ++ point 1 1 10 ++ point 2 2 (-5) ++ point 3 3 20
  ++ point 4 4 0 ++ point 5 5 70 ++ point 6 6 60 ++ point 7 7 50
  ++ point 8 8 40 ++ point 9 9 90 ++ point 1 2 80 ++ point 3 4 100
  ++ [ofZ 1].

(** No point has a usable depth: NaN, zero, negative, infinite. *)
Definition degeneratePositions : list number :=
  [ofZ 1; ofZ 1; NaN; ofZ 1; ofZ 1; pzero; ofZ 1; ofZ 1; ofZ (-3);
   ofZ 1; ofZ 1; Infinity; ofZ 1; ofZ 1; nzero].

(** ** Sample arguments of the offset model *)

Definition sampleParams : CameraMatrixUtils.TrajectoryParams number :=
  {| CameraMatrixUtils.maxDisparity := dec 8 100;
     CameraMatrixUtils.maxZoom := dec 3 10 |}.

Definition sampleResolution : number * number := (ofZ 640, ofZ 480).

(** The next number after 0.1. *)
Definition after_0_1 : number := S754_finite false 7205759403792795 (-56).

End Samples.

(* ================================================================== *)
(** * Order on numbers *)
(* ================================================================== *)

Module NumberOrder.
Import JsNumber.

(** [v < 0] is false: [v] is NaN, a zero, or positive. *)
Definition notNegative (v : number) : bool := negb (ltb v pzero).

(** A positive finite number as a multiple of the least positive number,
    [2^-1074]. *)
Definition keyOf (v : number) : Z :=
  match v with
  | S754_finite false m e => Z.pos m * 2 ^ (e + 1074)
  | _ => 0
  end.

Definition keyLe (a b : number) : Prop := keyOf a <= keyOf b.

End NumberOrder.

(* ================================================================== *)
(** * trajectory/CameraMatrixUtils.ts: the camera conventions *)
(* ================================================================== *)

Module Vector3.
Import JsNumber.

(** [new Vector3(x, y, z)]. *)
Record t := { x : number; y : number; z : number }.

End Vector3.

Module CameraConventions.
Import JsNumber.

(** [return new Vector3(position.x, -position.y, -position.z)]. *)
Definition opencvToThreejs (position : Vector3.t) : Vector3.t :=
  {| Vector3.x := Vector3.x position;
     Vector3.y := SFopp (Vector3.y position);
     Vector3.z := SFopp (Vector3.z position) |}.

End CameraConventions.

(* ================================================================== *)
(** * The viewer of a single mesh *)
(* ================================================================== *)

Module SingleMeshViewer.
Import JsNumber CameraMatrixUtils GaussianViewer.

(** [setupCameraForScene], the depths: they come from the vertex positions
    when there are any ([this.positions && this.positions.length > 0]),
    from the bounding box otherwise. *)
Definition setupCameraForScene (positions : option (list number))
    (minZ maxZ : number) : SceneDepths :=
  match positions with
  | Some ((_ :: _) as ps) =>
      let depthQuantiles := computeDepthQuantiles ps defaultQuantile in
      {| minDepth := JsNumber.max (dec 1 10) (min depthQuantiles);
         depthFocus := JsNumber.max (ofZ 2) (focus depthQuantiles) |}
  | _ => GaussianViewer.setupCameraForScene minZ maxZ
  end.

(** [setupCameraForScene], the focal length:
    [this.metadata.focalLength > 0 ? this.metadata.focalLength
     : estimateFocalLength(this.metadata.imageSize)]. *)
Definition sceneFocalLength (metadata : PlyMetadata.PlyMetadata) : number :=
  if ltb pzero (PlyMetadata.focalLength metadata)
  then PlyMetadata.focalLength metadata
  else PlyMetadata.estimateFocalLength (PlyMetadata.imageSize metadata).

(** [generateTrajectory], up to the call of [createEyeTrajectory]:
    [computeMaxOffset(this.minDepth, this.metadata?.imageSize ?? [640, 480],
     this.focalLength, this.trajectoryParams)]. *)
Definition generateTrajectory (minDepth : number)
    (metadata : option PlyMetadata.PlyMetadata) (focalLength : number)
    (trajectoryParams : TrajectoryParams number) : MaxOffset number :=
  computeMaxOffset minDepth
    (PlyMetadata.nullish (option_map PlyMetadata.imageSize metadata)
                         (ofZ 640, ofZ 480))
    focalLength trajectoryParams.

(** The end of [loadPly]: [setupCameraForScene] sets the depths, and the
    focal length when there is metadata (the field keeps its value
    otherwise); then [generateTrajectory] runs. *)
Definition loadPlyOffsets (positions : option (list number))
    (minZ maxZ : number) (metadata : option PlyMetadata.PlyMetadata)
    (focalLength : number) (trajectoryParams : TrajectoryParams number)
  : MaxOffset number :=
  let depths := setupCameraForScene positions minZ maxZ in
  let focalLength :=
    match metadata with
    | Some md => sceneFocalLength md
    | None => focalLength
    end in
  generateTrajectory (minDepth depths) metadata focalLength trajectoryParams.

End SingleMeshViewer.

(* ================================================================== *)
(** * The viewer of a sequence of meshes: stepping the frames *)
(* ================================================================== *)

Module SequenceViewer.
Import JsNumber PlyMetadata.

(** The state the render loop steps: the [visible] flag of each mesh of
    [splatMeshes], in order, and the counters.  [currentFrame] and
    [frameCount] only ever hold small non-negative integers (they start at
    0 and are changed by [+ 1], [% length] and [= 0]), for which the
    arithmetic of numbers is exact; they are integers here, and [%] is the
    remainder that takes the sign of the dividend.  The times are
    numbers. *)
Record AnimationState := {
  visible : list bool;
  currentFrame : Z;
  lastFrameTime : number;
  lastFpsTime : number;
  frameCount : Z
}.

Definition frameRate : number := ofZ 12.

(** [const mesh = this.splatMeshes[i]; if (mesh) mesh.visible = b;] *)
Definition setVisible (i : Z) (b : bool) (vis : list bool) : list bool :=
  if (0 <=? i) && (i <? Z.of_nat (List.length vis))
  then updateAt vis (Z.to_nat i) (fun _ => b)
  else vis.

(** [animate], between the test of [isDisposed] and the update of the
    trajectory: the frame counter of the rate report, then the step of the
    sequence. *)
Definition animate (now : number) (st : AnimationState) : AnimationState :=
  let st1 :=
    if leb (ofZ 1000) (sub now (lastFpsTime st)) then
      {| visible := visible st; currentFrame := currentFrame st;
         lastFrameTime := lastFrameTime st;
         lastFpsTime := now; frameCount := 0 |}
    else st in
  if 1 <? Z.of_nat (List.length (visible st1)) then
    let interval := div (ofZ 1000) frameRate in
    if ltb interval (sub now (lastFrameTime st1)) then
      let hidden := setVisible (currentFrame st1) false (visible st1) in
      let next := Z.rem (currentFrame st1 + 1)
                        (Z.of_nat (List.length (visible st1))) in
      {| visible := setVisible next true hidden;
         currentFrame := next;
         lastFrameTime := now;
         lastFpsTime := lastFpsTime st1;
         frameCount := frameCount st1 + 1 |}
    else st1
  else st1.

(** The end of [loadPlySequence] and of [loadPlyUrls], once every mesh is
    pushed: [this.currentFrame = 0; this.lastFrameTime =
    performance.now();].  The flags of the meshes are not touched. *)
Definition finishLoad (now : number) (st : AnimationState) : AnimationState :=
  {| visible := visible st; currentFrame := 0; lastFrameTime := now;
     lastFpsTime := lastFpsTime st; frameCount := frameCount st |}.

(** Exactly the mesh at index [i] is visible. *)
Definition showsOnly (i : Z) (vis : list bool) : Prop :=
  vis = List.map (fun k => Z.of_nat k =? i) (seq 0 (List.length vis)).

(** Four meshes, the one at index [k] visible and current. *)
Definition sampleState (k : Z) : AnimationState :=
  {| visible := List.map (fun i => i =? k) [0; 1; 2; 3];
     currentFrame := k; lastFrameTime := ofZ 0; lastFpsTime := ofZ 0;
     frameCount := 0 |}.

End SequenceViewer.

(* ================================================================== *)
(** * Header texts and the invariant of the header loop *)
(* ================================================================== *)

Module HeaderText.
Import JsNumber JsString PlyMetadata.

(** The lines of a text, each followed by a line feed. *)
Definition joinLines (ls : list jsstring) : jsstring :=
  flat_map (fun l => l ++ [10%N]) ls.

Definition oneLine (l : jsstring) : bool := negb (existsb (N.eqb 10) l).

Definition isTerminator (l : jsstring) : bool :=
  JsString.eqb (trim l) (lit "end_header").

Definition isAscii (bytes : Buffer) : bool :=
  forallb (fun b => (Byte.to_N b <? 128)%N) bytes.

(** The code units of a text of ASCII bytes. *)
Definition asciiText (bytes : Buffer) : jsstring := List.map Byte.to_N bytes.

(** A header of at most 10000 ASCII bytes: the lines [pre], none of them
    the terminator, then the terminator line [endl] and its line feed. *)
Definition terminatedHeader (header : Buffer) (pre : list jsstring)
    (endl : jsstring) : Prop :=
  Z.of_nat (List.length header) <= 10000 /\
  isAscii header = true /\
  asciiText header = joinLines pre ++ endl ++ [10%N] /\
  forallb oneLine pre = true /\
  forallb (fun l => negb (isTerminator l)) pre = true /\
  oneLine endl = true /\ isTerminator endl = true.

(** A [format] line whose second field is one of the two binary formats. *)
Definition namesBinaryFormat (l : jsstring) : bool :=
  startsWith (trim l) (lit "format ")
  && match nth_error (splitSpaces (trim l)) 1 with
     | Some s => JsString.eqb s (lit "binary_little_endian")
                 || JsString.eqb s (lit "binary_big_endian")
     | None => false
     end.

(** Every property carries the size of its type. *)
Definition typedProperties (el : ElementInfo) : Prop :=
  Forall (fun p => byteSize p = getPropertyByteSize (propType p))
         (properties el).

(** The record size is the sum of the sizes of the properties. *)
Definition summed (el : ElementInfo) : Prop :=
  bytesPerElement el = sumByteSizes (properties el).

(** The invariant of the loop: every reference names an object; every
    object has typed properties and a name, and every object but the current
    one has its size summed up. *)
Definition headerInv (st : HeaderState) : Prop :=
  (forall r, In r (elements st) -> (r < List.length (objects st))%nat) /\
  (forall r, currentElement st = Some r ->
             (r < List.length (objects st))%nat) /\
  (forall r el, nth_error (objects st) r = Some el ->
     typedProperties el /\ name el <> [] /\
     (currentElement st <> Some r -> summed el)).

(** After the current element is saved every object has its size summed
    up. *)
Definition headerDone (st : HeaderState) : Prop :=
  (forall r, In r (elements st) -> (r < List.length (objects st))%nat) /\
  (forall r, currentElement st = Some r ->
             (r < List.length (objects st))%nat) /\
  (forall r el, nth_error (objects st) r = Some el ->
     typedProperties el /\ name el <> [] /\ summed el).

End HeaderText.

(* ================================================================== *)
(** * The words of a buffer and the layout of the elements *)
(* ================================================================== *)

Module BufferWords.
Import JsNumber PlyMetadata.

(** The [size] bytes of the buffer from the byte index [i]. *)
Definition bytesAt (buffer : Buffer) (i : Z) (size : nat) : list Z :=
  List.map (fun b => Z.of_N (Byte.to_N b))
           (firstn size (skipn (Z.to_nat i) buffer)).

(** The [n] little-endian 32-bit words stored from the byte index [o]. *)
Definition wordsAt (buffer : Buffer) (o : Z) (n : nat) : list Z :=
  List.map (fun j => littleEndian (bytesAt buffer (o + 4 * Z.of_nat j) 4))
           (seq 0 n).

(** The accesses that read these words, the latest first. *)
Definition wordReads (o : Z) (n : nat) : list (Z * Z) :=
  rev (List.map (fun j => (o + 4 * Z.of_nat j, 4)) (seq 0 n)).

End BufferWords.

Module ElementLayout.
Import JsNumber JsString PlyMetadata.

(** The count of an element as an integer. *)
Definition countOf (el : ElementInfo) : Z := floorZ (count el).

(** An element whose count is a non-negative integer and whose record size
    is not negative, both below [2^53]. *)
Definition sized (el : ElementInfo) : Prop :=
  count el = ofZ (countOf el) /\ 0 <= countOf el < 2 ^ 53 /\
  0 <= bytesPerElement el < 2 ^ 53.

(** The bytes the records of these elements take. *)
Definition bodyBytes (els : list ElementInfo) : Z :=
  fold_right (fun el acc => countOf el * bytesPerElement el + acc) 0 els.

(** No element of the list has this name. *)
Definition unnamed (k : jsstring) (els : list ElementInfo) : bool :=
  forallb (fun el => negb (JsString.eqb (name el) k)) els.

End ElementLayout.

(* ================================================================== *)
(** * What a computation of the codec keeps *)
(* ================================================================== *)

Module Effects.
Import JsNumber JsString PlyMetadata.

(** A computation keeps the relation [R] between the store before and
    after, whether it returns or throws, and returns only values in [Q]. *)
Definition holds {A} (R : World -> World -> Prop) (Q : A -> Prop) (c : M A)
  : Prop :=
  forall w, R w (snd (c w)) /\
            match fst (c w) with Normal a => Q a | Throw _ => True end.

(** The header declares an element of this name. *)
Definition declares (hd : Header) (k : string) : bool :=
  existsb (fun el => JsString.eqb (name el) (lit k)) (hd_elements hd).

(** The store has as many objects after as before. *)
Definition sameSize (w w' : World) : Prop :=
  List.length (heap w') = List.length (heap w).

(** The object at [l] is the same after as before. *)
Definition keeps (l : loc) (w w' : World) : Prop := deref w' l = deref w l.

(** The record names the two matrices of [DEFAULT_METADATA]. *)
Definition sharesMatrices (m : PlyMetadata) : Prop :=
  extrinsics m = extrinsics DEFAULT_METADATA /\
  intrinsics m = intrinsics DEFAULT_METADATA.

End Effects.

(* ================================================================== *)
(** * More samples *)
(* ================================================================== *)

Module MoreSamples.
Import JsNumber PlyMetadata.

(** Two points whose depths are 3 and 2, and the same points in the other
    order. *)
Definition twoPoints : list number :=
  [ofZ 1; ofZ 1; ofZ 3; ofZ 1; ofZ 1; ofZ 2].

Definition twoPointsSwapped : list number :=
  [ofZ 1; ofZ 1; ofZ 2; ofZ 1; ofZ 1; ofZ 3].

(** A supplement element and a colour space byte 0, no camera element. *)
Definition supplementPly : Buffer :=
  Samples.textLines ["ply"; "format binary_little_endian 1.0";
                     "element supplement 1"; "property uchar flag";
                     "element color_space 1"; "property uchar value";
                     "end_header"]%string
  ++ [Byte.x05; Byte.x00].

(** A binary format line, then a text format line. *)
Definition binaryThenAscii : JsString.jsstring :=
  JsString.lit "format binary_little_endian 1.0" ++ [10%N]
  ++ JsString.lit "format ascii 1.0" ++ [10%N]
  ++ JsString.lit "end_header" ++ [10%N].

(** Twelve bytes: the words 640, 480 and 7. *)
Definition threeWords : Buffer :=
  Samples.word32 640 ++ Samples.word32 480 ++ Samples.word32 7.


End MoreSamples.

(* ================================================================== *)
(** * Rounding to the nearest number *)
(* ================================================================== *)

Module Rounding.
Import JsNumber.

(** The exponent of the numbers among which a mantissa [p] at exponent [e]
    is rounded: 53 digits are kept, and no exponent is below -1074. *)
Definition gridOf (p : positive) (e : Z) : Z :=
  fexp prec emax (Z.pos (digits2_pos p) + e).

(** [P / 2^n] rounded to the nearest integer, ties to the even one. *)
Definition nearestEven (P n : Z) : Z :=
  let q := P / 2 ^ n in
  match 2 * (P mod 2 ^ n) ?= 2 ^ n with
  | Lt => q
  | Gt => q + 1
  | Eq => if Z.even q then q else q + 1
  end.

(** The number [M * 2^g] for a mantissa [M] of at most 53 digits, or
    [2^53]. *)
Definition onGrid (s : bool) (M g : Z) : number :=
  match M with
  | Z.pos m =>
      if Z.pos m <? 2 ^ 53
      then (if g <=? emax - prec then S754_finite s m g
            else S754_infinity s)
      else (if g + 1 <=? emax - prec then S754_finite s (Pos.div2 m) (g + 1)
            else S754_infinity s)
  | _ => S754_zero s
  end.

(** [2^1024] in units of [2^-1074], the least positive number: the first
    power of two above every finite number. *)
Definition top : Z := 2 ^ 2098.

(** The size of a number in these units; an infinity counts as [top]. *)
Definition magnitude (v : number) : Z :=
  match v with
  | S754_finite _ m e => Z.pos m * 2 ^ (e + 1074)
  | S754_infinity _ => top
  | _ => 0
  end.

(** The same with the sign of the number. *)
Definition signedMagnitude (v : number) : Z :=
  match v with
  | S754_finite true _ _ | S754_infinity true => - magnitude v
  | _ => magnitude v
  end.

(** What is left of [P] after [k] steps to the right, and the two bits
    that remember it. *)
Definition shifted (P k : Z) (mrs : shr_record) : Prop :=
  exists t, P = shr_m mrs * 2 ^ k + t /\ 0 <= t < 2 ^ k /\
            shr_r mrs = (2 ^ k <=? 2 * t) /\
            shr_s mrs = negb (2 * t mod 2 ^ k =? 0).

End Rounding.



(* ================================================================== *)
(** * Properties of the metadata codec *)
(* ================================================================== *)

Section MetadataCodec.
Import JsNumber JsString PlyMetadata Samples.

(** ** The monad *)

Lemma bind_throw {A B} (c : M A) (k : A -> M B) (w w' : World) (e : Error) :
  c w = (Throw e, w') -> bind c k w = (Throw e, w').
Proof. intros Hc. unfold bind. now rewrite Hc. Qed.

Lemma bind_normal {A B} (c : M A) (k : A -> M B) (w w' : World) (a : A) :
  c w = (Normal a, w') -> bind c k w = k a w'.
Proof. intros Hc. unfold bind. now rewrite Hc. Qed.

(** The stored binary32 patterns of the samples are the numbers meant. *)
Lemma sample_floats :
  ofFloat32Bits f500 = ofZ 500 /\ ofFloat32Bits f640 = ofZ 640 /\
  ofFloat32Bits f480 = ofZ 480 /\
  List.map ofFloat32Bits smallFloats =
  List.map stored [1; 2; 3; 4; 5; 6; 7; 8; 9; 10; 11; 12; 13; 14; 15; 16].
Proof. vm_compute. repeat split. Qed.

(** The sample with the legacy intrinsic element is well formed: the header
    ends at byte 189, the format is little-endian and the two elements are
    declared with one record each. *)
Lemma legacyPly_header :
  hd_headerEndIndex (headerOf legacyPly) = 189 /\
  hd_format (headerOf legacyPly) = binary_little_endian /\
  List.map (fun el => (name el, count el, List.length (properties el),
                       bytesPerElement el))
           (hd_elements (headerOf legacyPly)) =
  [(lit "intrinsic", ofZ 1, 4%nat, 16); (lit "color_space", ofZ 1, 1%nat, 1)].
Proof. vm_compute. repeat split. Qed.

Lemma Map_get_has {V} (m : JsMap V) k v :
  Map_get m k = Some v -> Map_has m k = true.
Proof. unfold Map_has. now intros ->. Qed.



(** In whatever state the module is, the synthetic buffer decodes to these
    values, and the focal length is the mean of the two stored ones. *)
Lemma legacyPly_decodes :
  forall w : World,
    let m := fst (parsePlyMetadata legacyPly w) in
    focalLength m = ofZ 500 /\
    focalLength m = div (add (ofZ 500) (ofZ 500)) (ofZ 2) /\
    imageSize m = (ofZ 640, ofZ 480) /\
    colorSpace m = sRGB /\
    hasMetadata m = true /\
    reads (snd (parsePlyMetadata legacyPly w)) =
      [(205, 1); (201, 4); (197, 4); (193, 4); (189, 4)] ++ reads w.
Proof.
  intros [h r]. vm_compute. repeat split.
Qed.

(** The first test of [parsePlyMetadata]. *)
Lemma unsupported_format_default (buffer : Buffer) (w : World) :
  hd_format (headerOf buffer) <> binary_little_endian ->
  parsePlyMetadata buffer w = (DEFAULT_METADATA, w).
Proof.
  intros Hfmt. unfold parsePlyMetadata, parsePlyMetadata_try.
  destruct (hd_format (headerOf buffer)); try contradiction; reflexivity.
Qed.

(** C7. When the format the header declares is not binary_little_endian
    (ascii, binary_big_endian, or none recognised), [parsePlyMetadata]
    returns the default record and leaves the state as it was: no access to
    the body is made and no matrix is written.  The default record has
    [hasMetadata = false] and image size (640, 480). *)
Theorem C7_unsupported_format_gives_default :
  forall (buffer : Buffer) (w : World),
    hd_format (headerOf buffer) <> binary_little_endian ->
    parsePlyMetadata buffer w = (DEFAULT_METADATA, w) /\
    hasMetadata DEFAULT_METADATA = false /\
    imageSize DEFAULT_METADATA = (ofZ 640, ofZ 480).
Proof.
  intros buffer w Hfmt.
  split; [now apply unsupported_format_default|]. split; reflexivity.
Qed.

Lemma C7_unsupported_format_gives_default_witness :
  hd_format (headerOf asciiPly) <> binary_little_endian /\
  parsePlyMetadata asciiPly initialWorld = (DEFAULT_METADATA, initialWorld) /\
  hasMetadata DEFAULT_METADATA = false /\
  imageSize DEFAULT_METADATA = (ofZ 640, ofZ 480).
Proof.
  split.
  - vm_compute. discriminate.
  - apply (C7_unsupported_format_gives_default asciiPly initialWorld).
    vm_compute. discriminate.
Defined.

(** The big-endian sample is declared as such and decodes to the default
    record as well. *)
Lemma bigEndianPly_default :
  hd_format (headerOf bigEndianPly) = binary_big_endian /\
  parsePlyMetadata bigEndianPly initialWorld = (DEFAULT_METADATA, initialWorld).
Proof. vm_compute. split; reflexivity. Qed.

Lemma headerOf_prefix (prefix rest : Buffer) :
  Z.of_nat (List.length prefix) = 10000 ->
  headerOf (prefix ++ rest) = headerOf prefix.
Proof.
  intros Hlen. unfold headerOf.
  assert (Hn : Z.to_nat 10000 = List.length prefix) by lia.
  rewrite Hn, firstn_app, Nat.sub_diag, firstn_all.
  now rewrite firstn_O, app_nil_r.
Qed.

(** The format is the last little- or big-endian one declared: a line
    [format ascii] does not set it back. *)
Lemma twoFormatsPly_little_endian :
  hd_format (headerOf twoFormatsPly) = binary_little_endian /\
  hasMetadata (fst (parsePlyMetadata twoFormatsPly initialWorld)) = true.
Proof. vm_compute. split; reflexivity. Qed.

(** C10. Only the first 10000 bytes are decoded as header text: whatever
    follows a prefix of 10000 bytes, the header that is parsed is the header
    of the prefix alone, so declarations and the terminator beyond that
    offset are not seen; and when the prefix alone declares no
    little-endian format, the result is the default record, as for a header
    cut at that offset. *)
Theorem C10_header_is_first_10000_bytes :
  forall (prefix rest : Buffer) (w : World),
    Z.of_nat (List.length prefix) = 10000 ->
    headerOf (prefix ++ rest) = headerOf prefix /\
    (hd_format (headerOf prefix) <> binary_little_endian ->
     parsePlyMetadata (prefix ++ rest) w = (DEFAULT_METADATA, w) /\
     parsePlyMetadata prefix w = (DEFAULT_METADATA, w)).
Proof.
  intros prefix rest w Hlen.
  pose proof (headerOf_prefix prefix rest Hlen) as Hhd.
  split; [assumption|]. intros Hfmt.
  split; apply unsupported_format_default; [now rewrite Hhd|assumption].
Qed.

Lemma C10_header_is_first_10000_bytes_witness :
  Z.of_nat (List.length padding) = 10000 /\
  hd_format (headerOf padding) <> binary_little_endian /\
  headerOf (padding ++ lateHeader) = headerOf padding /\
  parsePlyMetadata (padding ++ lateHeader) initialWorld
    = (DEFAULT_METADATA, initialWorld).
Proof.
  assert (Hlen : Z.of_nat (List.length padding) = 10000)
    by (vm_compute; reflexivity).
  assert (Hfmt : hd_format (headerOf padding) <> binary_little_endian)
    by (vm_compute; discriminate).
  destruct (C10_header_is_first_10000_bytes padding lateHeader initialWorld
              Hlen) as [Hhd Hres].
  destruct (Hres Hfmt) as [Hfull _].
  exact (conj Hlen (conj Hfmt (conj Hhd Hfull))).
Defined.

(** The header that starts after 10000 bytes of comments is complete, but
    nothing of it is recognised: the result is that of a header cut at byte
    10000, with no terminator (body offset 0), no element and no format.
    The same header at the start of a buffer is decoded. *)
Lemma late_header_not_recognised :
  headerOf (padding ++ lateHeader) =
    {| hd_headerEndIndex := 0; hd_elements := []; hd_format := ascii |} /\
  hasTerminator (padding ++ lateHeader) = false /\
  hasTerminator lateHeader = true /\
  fst (parsePlyMetadata (padding ++ lateHeader) initialWorld)
    = DEFAULT_METADATA /\
  hasMetadata (fst (parsePlyMetadata lateHeader initialWorld)) = true.
Proof. vm_compute. repeat split. Qed.

(** Every buffer is read as its first 10000 bytes. *)
Lemma headerOf_firstn (buffer : Buffer) :
  headerOf (firstn (Z.to_nat 10000) buffer) = headerOf buffer.
Proof.
  unfold headerOf. now rewrite firstn_firstn, Nat.min_id.
Qed.

(** ** Matrices *)

(** [Matrix4.set] stores its row-major arguments column by column: the entry
    at row [r], column [c] is the argument number [4 r + c]. *)
Lemma Matrix4_set_entry
  (a0 a1 a2 a3 a4 a5 a6 a7 a8 a9 a10 a11 a12 a13 a14 a15 : number)
  (r c : nat) :
  (r < 4)%nat -> (c < 4)%nat ->
  Three.entry4
    (Three.Matrix4_set a0 a1 a2 a3 a4 a5 a6 a7 a8 a9 a10 a11 a12 a13 a14 a15)
    r c
  = nth_error [a0; a1; a2; a3; a4; a5; a6; a7; a8; a9; a10; a11; a12; a13;
               a14; a15] (4 * r + c).
Proof.
  intros Hr Hc.
  destruct r as [|[|[|[|r]]]]; try lia;
    destruct c as [|[|[|[|c]]]]; try lia; reflexivity.
Qed.

(** The order in which [parsePlyMetadata] passes the sixteen stored values
    to [Matrix4.set] makes the elements array the stored sequence itself, so
    that the entry at row [r], column [c] is the stored value [4 c + r]. *)
Lemma extrinsics_set_copies_stored_order
  (v0 v1 v2 v3 v4 v5 v6 v7 v8 v9 v10 v11 v12 v13 v14 v15 : number) :
  let te := Three.Matrix4_set v0 v4 v8 v12 v1 v5 v9 v13
                              v2 v6 v10 v14 v3 v7 v11 v15 in
  te = [v0; v1; v2; v3; v4; v5; v6; v7; v8; v9; v10; v11; v12; v13; v14; v15]
  /\ forall r c, (r < 4)%nat -> (c < 4)%nat ->
       Three.entry4 te r c =
       nth_error [v0; v1; v2; v3; v4; v5; v6; v7; v8; v9; v10; v11; v12; v13;
                  v14; v15] (4 * c + r).
Proof.
  split; [reflexivity|].
  intros r c Hr Hc.
  destruct r as [|[|[|[|r]]]]; try lia;
    destruct c as [|[|[|[|c]]]]; try lia; reflexivity.
Qed.

(** The intrinsic path passes its nine values in stored order, which is the
    row-major order [Matrix3.set] expects. *)
Lemma intrinsics_set_row_major :
  let w := snd (parsePlyMetadata intrinsicPly initialWorld) in
  deref w (intrinsics DEFAULT_METADATA) =
    Some (Three.Matrix3_set (stored 1) (stored 2) (stored 3)
                            (stored 4) (stored 5) (stored 6)
                            (stored 7) (stored 8) (stored 9)).
Proof. vm_compute. reflexivity. Qed.

(** C5. The sample stores the 4x4 matrix with entries 1.0 ... 16.0 row by
    row, so its entry at row [r], column [c] is [4 r + c + 1].  After
    decoding, the elements array of the extrinsics matrix is the stored
    sequence 1 ... 16 unchanged, and since that array is column-major the
    decoded entry at row 0, column 1 is 5 (stored index 4), not 2 (stored
    index [4 * 0 + 1]): the decoded matrix is the transpose of the stored
    one. *)
Theorem C5_extrinsics_transposed :
  let storedValues :=
    List.map stored [1; 2; 3; 4; 5; 6; 7; 8; 9; 10; 11; 12; 13; 14; 15; 16] in
  let m := fst (parsePlyMetadata extrinsicPly initialWorld) in
  let w := snd (parsePlyMetadata extrinsicPly initialWorld) in
  hasMetadata m = true /\
  deref w (extrinsics m) = Some storedValues /\
  (forall r c, (r < 4)%nat -> (c < 4)%nat ->
     match deref w (extrinsics m) with
     | Some te => Three.entry4 te r c = nth_error storedValues (4 * c + r)
     | None => False
     end) /\
  match deref w (extrinsics m) with
  | Some te => Three.entry4 te 0 1 = Some (stored 5)
  | None => False
  end /\
  nth_error storedValues (4 * 0 + 1) = Some (stored 2) /\
  stored 5 <> stored 2.
Proof.
  assert (Hte : deref (snd (parsePlyMetadata extrinsicPly initialWorld))
                  (extrinsics (fst (parsePlyMetadata extrinsicPly initialWorld)))
                = Some (List.map stored
                    [1; 2; 3; 4; 5; 6; 7; 8; 9; 10; 11; 12; 13; 14; 15; 16]))
    by (vm_compute; reflexivity).
  cbv zeta. rewrite Hte.
  split; [vm_compute; reflexivity|].
  split; [reflexivity|].
  split.
  { intros r c Hr Hc.
    destruct r as [|[|[|[|r]]]]; try lia;
      destruct c as [|[|[|[|c]]]]; try lia; reflexivity. }
  split; [reflexivity|].
  split; [reflexivity|].
  vm_compute. discriminate.
Qed.

(** C6. A record returned by one call is changed by a later call.  The
    first call (a text-format buffer) returns the default record, whose
    extrinsics are the identity; a second call on a buffer with an extrinsic
    element overwrites the matrix object both records refer to, and a third
    call on a buffer with a nine-float intrinsic element overwrites the
    shared intrinsics matrix. *)
Theorem C6_returned_record_mutated_by_later_call :
  let first := fst (parsePlyMetadata asciiPly initialWorld) in
  let w1 := snd (parsePlyMetadata asciiPly initialWorld) in
  let second := fst (parsePlyMetadata extrinsicPly w1) in
  let w2 := snd (parsePlyMetadata extrinsicPly w1) in
  let third := fst (parsePlyMetadata intrinsicPly w2) in
  let w3 := snd (parsePlyMetadata intrinsicPly w2) in
  first = DEFAULT_METADATA /\
  extrinsics second = extrinsics first /\
  intrinsics third = intrinsics first /\
  deref w1 (extrinsics first) = Some Three.Matrix4_new /\
  deref w1 (intrinsics first) = Some Three.Matrix3_new /\
  deref w2 (extrinsics first) =
    Some (List.map stored
            [1; 2; 3; 4; 5; 6; 7; 8; 9; 10; 11; 12; 13; 14; 15; 16]) /\
  deref w3 (intrinsics first) =
    Some (List.map stored [1; 4; 7; 2; 5; 8; 3; 6; 9]) /\
  deref w2 (extrinsics first) <> deref w1 (extrinsics first) /\
  deref w3 (intrinsics first) <> deref w1 (intrinsics first).
Proof.
  vm_compute. repeat split; discriminate.
Qed.

(** ** Exceptions and the default record *)






(** An access that does not fit in the buffer raises RangeError and records
    nothing. *)
Lemma getViewValue_out_of_range buffer off size w :
  (forall i, toIndex off = Some i ->
             Z.of_nat (List.length buffer) < i + Z.of_nat size) ->
  getViewValue buffer off size w = (Throw RangeError, w).
Proof.
  intros Hout. unfold getViewValue.
  destruct (toIndex off) as [i|]; [|reflexivity].
  specialize (Hout i eq_refl).
  destruct (Z.ltb_spec (Z.of_nat (List.length buffer)) (i + Z.of_nat size));
    [reflexivity|lia].
Qed.

(** [offset + 0 * 4] converts to the same index as [offset]. *)
Lemma toIndex_first off :
  toIndex (add off (mul (ofZ 0) (ofZ 4))) = toIndex off.
Proof. destruct off as [[|]|[|]| |s m e]; reflexivity. Qed.

Lemma readUints_out_of_range buffer off n w :
  (forall i, toIndex off = Some i -> Z.of_nat (List.length buffer) < i + 4) ->
  readUints buffer off (S n) w = (Throw RangeError, w).
Proof.
  intros Hout. unfold readUints. cbn [readLoop].
  apply bind_throw. unfold getUint32. apply bind_throw.
  apply getViewValue_out_of_range.
  intros i Hi. rewrite toIndex_first in Hi. now apply Hout.
Qed.

(** A buffer too short for the first field of a declared image_size record
    decodes to the default record. *)
Lemma short_image_size_gives_default buffer w el off :
  hd_format (headerOf buffer) = binary_little_endian ->
  Map_get (elementMapOf (hd_elements (headerOf buffer))) (lit "image_size")
    = Some el ->
  leb (ofZ 1) (count el) = true ->
  Map_get (elementOffsetsOf (hd_elements (headerOf buffer))
                            (ofZ (hd_headerEndIndex (headerOf buffer))))
          (lit "image_size") = Some off ->
  (forall i, toIndex off = Some i -> Z.of_nat (List.length buffer) < i + 4) ->
  parsePlyMetadata buffer w = (DEFAULT_METADATA, w).
Proof.
  intros Hfmt Hel Hcount Hoff Hout.
  unfold parsePlyMetadata, parsePlyMetadata_try.
  rewrite Hfmt. cbn [isLittleEndian negb].
  rewrite (Map_get_has _ _ _ Hel). rewrite andb_false_r.
  erewrite bind_throw; [reflexivity|].
  unfold readImageSize. rewrite Hel, Hcount, Hoff.
  apply bind_throw. now apply readUints_out_of_range.
Qed.

(** When nothing follows the header, the first field of the image_size
    record, declared at offset 109, lies outside the 109 bytes of the
    buffer. *)
Lemma headerOnlyPly_default :
  Z.of_nat (List.length headerOnlyPly) = 109 /\
  parsePlyMetadata headerOnlyPly initialWorld
    = (DEFAULT_METADATA, initialWorld).
Proof.
  split; [vm_compute; reflexivity|].
  eapply short_image_size_gives_default.
  - vm_compute. reflexivity.
  - vm_compute. reflexivity.
  - vm_compute. reflexivity.
  - vm_compute. reflexivity.
  - intros i Hi. vm_compute in Hi. injection Hi as <-.
    vm_compute. reflexivity.
Qed.

End MetadataCodec.

(* ================================================================== *)
(** * Properties of the offset model *)
(* ================================================================== *)

Section OffsetModelProperties.
Import JsNumber CameraMatrixUtils Samples.

(** C3 (counterexample). [computeMaxOffset] uses the depth it is given.
    At depth 0 the envelope is all zero, and at depth -1 it is negative,
    where the clamped formula of the spec (floor 0.1) gives the positive
    offsets of depth 0.1. *)
Lemma C3_counterexample :
  leb (ofZ 0) pzero = true /\
  computeMaxOffset (ofZ 0) sampleResolution (ofZ 500) sampleParams
    = {| x := pzero; y := pzero; z := pzero |} /\
  specComputeOffset (dec 1 10) (ofZ 0) sampleResolution (ofZ 500) sampleParams
    = computeMaxOffset (dec 1 10) sampleResolution (ofZ 500) sampleParams /\
  ltb pzero (x (specComputeOffset (dec 1 10) (ofZ 0) sampleResolution
                                  (ofZ 500) sampleParams)) = true /\
  ltb (x (computeMaxOffset (ofZ (-1)) sampleResolution (ofZ 500)
                           sampleParams)) pzero = true.
Proof. vm_compute. repeat split. Qed.

(** C3 (as amended). The result is exactly
    [{x: maxDisparity * diagonal * minDepth, y: the same, z: maxZoom *
    minDepth}] with the depth as passed; the two lateral bounds are the same
    value; and when the depth is not zero or negative this is the clamped
    formula of the spec, whatever the floor. *)
Theorem C3_offset_formula :
  forall (eps minDepth width height focalLengthPx : number)
         (params : TrajectoryParams number),
    let o := computeMaxOffset minDepth (width, height) focalLengthPx params in
    let diagonal :=
      sqrt (add (mul (div width focalLengthPx) (div width focalLengthPx))
                (mul (div height focalLengthPx) (div height focalLengthPx))) in
    x o = mul (mul (maxDisparity params) diagonal) minDepth /\
    y o = x o /\
    z o = mul (maxZoom params) minDepth /\
    (leb minDepth pzero = false ->
     o = specComputeOffset eps minDepth (width, height) focalLengthPx params).
Proof.
  intros eps minDepth width height f params. cbv zeta.
  repeat split.
  intros Hpos. unfold specComputeOffset, clampDepth. now rewrite Hpos.
Qed.

Lemma C3_offset_formula_witness :
  leb (ofZ 1) pzero = false /\
  computeMaxOffset (ofZ 1) sampleResolution (ofZ 500) sampleParams
  = specComputeOffset (dec 1 10) (ofZ 1) sampleResolution (ofZ 500)
                      sampleParams.
Proof.
  split.
  - vm_compute. reflexivity.
  - apply (C3_offset_formula (dec 1 10) (ofZ 1) (ofZ 640) (ofZ 480) (ofZ 500)
                             sampleParams).
    vm_compute. reflexivity.
Defined.

(** C4 (counterexample). Two calls that differ only in [maxDisparity],
    0.08 against 0.16, at depth 0: both lateral bounds are 0.  Two calls at
    depth 1 with [maxDisparity] 0.1 and the next number after it: the
    lateral bounds round to the same number.  At depth -1 the call with the
    larger [maxDisparity] has the smaller lateral bound.  With a focal
    length of 0 the diagonal is infinite, and a [maxDisparity] of 0 makes
    the lateral bound NaN, which is not below or equal to any number. *)
Lemma C4_counterexample :
  let p := {| maxDisparity := dec 8 100; maxZoom := dec 3 10 |} in
  let q := {| maxDisparity := dec 16 100; maxZoom := dec 3 10 |} in
  let p' := {| maxDisparity := dec 1 10; maxZoom := dec 3 10 |} in
  let q' := {| maxDisparity := after_0_1; maxZoom := dec 3 10 |} in
  let o := {| maxDisparity := pzero; maxZoom := dec 3 10 |} in
  (ltb (maxDisparity p) (maxDisparity q) = true /\
   ltb (x (computeMaxOffset (ofZ 0) sampleResolution (ofZ 500) p))
       (x (computeMaxOffset (ofZ 0) sampleResolution (ofZ 500) q)) = false) /\
  (ltb (maxDisparity p') (maxDisparity q') = true /\
   ltb (x (computeMaxOffset (ofZ 1) sampleResolution (ofZ 500) p'))
       (x (computeMaxOffset (ofZ 1) sampleResolution (ofZ 500) q')) = false) /\
  (ltb (x (computeMaxOffset (ofZ (-1)) sampleResolution (ofZ 500) q))
       (x (computeMaxOffset (ofZ (-1)) sampleResolution (ofZ 500) p)) = true) /\
  (ltb (maxDisparity o) (maxDisparity p) = true /\
   isNaN (x (computeMaxOffset (ofZ 1) sampleResolution (ofZ 0) o)) = true /\
   leb (x (computeMaxOffset (ofZ 1) sampleResolution (ofZ 0) o))
       (x (computeMaxOffset (ofZ 1) sampleResolution (ofZ 0) p)) = false).
Proof. vm_compute. repeat split. Qed.

(** In the arithmetic of the program the medial bound does not depend on
    [maxDisparity] and the lateral bounds do not depend on [maxZoom]. *)
Lemma offset_frame (minDepth : number) (res : number * number)
    (focalLengthPx : number) (p q : TrajectoryParams number) :
  (maxZoom p = maxZoom q ->
   z (computeMaxOffset minDepth res focalLengthPx p)
   = z (computeMaxOffset minDepth res focalLengthPx q)) /\
  (maxDisparity p = maxDisparity q ->
   x (computeMaxOffset minDepth res focalLengthPx p)
   = x (computeMaxOffset minDepth res focalLengthPx q) /\
   y (computeMaxOffset minDepth res focalLengthPx p)
   = y (computeMaxOffset minDepth res focalLengthPx q)).
Proof.
  destruct res as [width height]. cbn.
  split; [intros -> | intros ->]; auto.
Qed.

End OffsetModelProperties.

(* ================================================================== *)
(** * Properties of the depth estimator *)
(* ================================================================== *)

Section BoundingVolume.
Import JsNumber GaussianViewer.

(** Two numbers that compare equal, the first one finite and not zero, are
    the same number. *)
Lemma SFcompare_Eq_finite (s : bool) (m : positive) (e : Z) (b : number) :
  SFcompare (S754_finite s m e) b = Some Eq -> b = S754_finite s m e.
Proof.
  destruct b as [sb|sb| |sb mb eb]; cbn.
  - destruct s; discriminate.
  - destruct s, sb; discriminate.
  - discriminate.
  - destruct s, sb; try discriminate;
      destruct (Z.compare_spec e eb) as [He|He|He]; try discriminate;
      subst eb; intros Hc; injection Hc as Hc;
      destruct (Pos.compare_cont Eq m mb) eqn:Hm; try discriminate Hc;
      apply (Pos.compare_eq m mb) in Hm; now subst.
Qed.

(** [Math.max(0.1, v)] is [v] when [0.1 <= v]. *)
Lemma max_floor_id (v : number) :
  leb (dec 1 10) v = true -> JsNumber.max (dec 1 10) v = v.
Proof.
  change (dec 1 10) with (S754_finite false 7205759403792794 (-56)).
  unfold leb, SFleb, JsNumber.max.
  destruct (SFcompare (S754_finite false 7205759403792794 (-56)) v)
    as [[| |]|] eqn:Hc; try discriminate; intros _; [|reflexivity].
  now apply SFcompare_Eq_finite in Hc.
Qed.

(** C9 (counterexample). A box from depth -10 to depth 50: the near depth
    is clamped to 0.1; the program's focus is [max(2, -10 + 0.1 * 60) = 2],
    the focus computed from the clamped near depth is
    [max(2, 0.1 + 0.1 * 60) = 6.1]. *)
Lemma C9_counterexample :
  minDepth (setupCameraForScene (ofZ (-10)) (ofZ 50)) = dec 1 10 /\
  depthFocus (setupCameraForScene (ofZ (-10)) (ofZ 50)) = ofZ 2 /\
  depthFocus (specBoundingVolume (ofZ (-10)) (ofZ 50)) = dec 61 10 /\
  depthFocus (setupCameraForScene (ofZ (-10)) (ofZ 50))
    <> depthFocus (specBoundingVolume (ofZ (-10)) (ofZ 50)).
Proof.
  vm_compute. repeat split. discriminate.
Qed.

(** C9 (as amended). The near depth is [max(0.1, box min depth)] and the
    focus is [max(2.0, box min depth + 0.1 * (box max depth - box min
    depth))], computed from the box min depth itself; when the box min
    depth is at least 0.1 that is the focus computed from the clamped near
    depth. *)
Theorem C9_bounding_volume_depths :
  forall minZ maxZ : number,
    minDepth (setupCameraForScene minZ maxZ) = JsNumber.max (dec 1 10) minZ /\
    depthFocus (setupCameraForScene minZ maxZ)
      = JsNumber.max (ofZ 2) (add minZ (mul (dec 1 10) (sub maxZ minZ))) /\
    (leb (dec 1 10) minZ = true ->
     setupCameraForScene minZ maxZ = specBoundingVolume minZ maxZ).
Proof.
  intros minZ maxZ. split; [reflexivity|]. split; [reflexivity|].
  intros Hge. unfold setupCameraForScene, specBoundingVolume.
  now rewrite (max_floor_id minZ Hge).
Qed.

Lemma C9_bounding_volume_depths_witness :
  leb (dec 1 10) (ofZ 3) = true /\
  setupCameraForScene (ofZ 3) (ofZ 50) = specBoundingVolume (ofZ 3) (ofZ 50).
Proof.
  split.
  - vm_compute. reflexivity.
  - apply (C9_bounding_volume_depths (ofZ 3) (ofZ 50)).
    vm_compute. reflexivity.
Defined.

End BoundingVolume.

(* ================================================================== *)
(** * Rounding: what the depth estimator needs of binary64 *)
(* ================================================================== *)

Section FloatLemmas.
Import JsNumber.

(** ** Binary digits

    [digits2_pos] counts the binary digits of a mantissa, as [Pos.size]. *)
Lemma digits2_pos_size (p : positive) : digits2_pos p = Pos.size p.
Proof. induction p; cbn; congruence. Qed.

Lemma digits_upper (p : positive) : Z.pos p < 2 ^ Z.pos (digits2_pos p).
Proof.
  rewrite digits2_pos_size.
  pose proof (Pos.size_gt p) as H.
  apply Pos2Z.pos_lt_pos in H. now rewrite Pos2Z.inj_pow in H.
Qed.

Lemma digits_lower (p : positive) : 2 ^ (Z.pos (digits2_pos p) - 1) <= Z.pos p.
Proof.
  rewrite digits2_pos_size.
  pose proof (Pos.size_le p) as H.
  apply Pos2Z.pos_le_pos in H. rewrite Pos2Z.inj_pow in H.
  change (Z.pos p~0) with (2 * Z.pos p) in H.
  replace (Z.pos (Pos.size p)) with (Z.pos (Pos.size p) - 1 + 1) in H by lia.
  rewrite Z.pow_add_r, Z.pow_1_r in H by lia. lia.
Qed.

(** A positive number below [2^k] has at most [k] digits, and one that is
    at least [2^k] has more than [k]. *)
Lemma digits_le (p : positive) (k : Z) :
  Z.pos p < 2 ^ k -> Z.pos (digits2_pos p) <= k.
Proof.
  intros Hlt.
  destruct (Z_lt_le_dec k (Z.pos (digits2_pos p))) as [Hk|Hk]; [|assumption].
  exfalso.
  pose proof (digits_lower p) as Hlo.
  assert (0 <= k).
  { destruct (Z_lt_le_dec k 0) as [Hn|Hn]; [|assumption].
    rewrite Z.pow_neg_r in Hlt by assumption. lia. }
  assert (2 ^ k <= 2 ^ (Z.pos (digits2_pos p) - 1))
    by (apply Z.pow_le_mono_r; lia).
  lia.
Qed.

Lemma digits_ge (p : positive) (k : Z) :
  2 ^ k <= Z.pos p -> k < Z.pos (digits2_pos p).
Proof.
  intros Hle.
  destruct (Z_lt_le_dec k (Z.pos (digits2_pos p))) as [Hk|Hk]; [assumption|].
  exfalso.
  pose proof (digits_upper p) as Hup.
  assert (2 ^ Z.pos (digits2_pos p) <= 2 ^ k)
    by (apply Z.pow_le_mono_r; lia).
  lia.
Qed.

(** ** Shifting and rounding

    One step to the right halves the mantissa; [n] steps divide it by
    [2^n]. *)
Lemma shr_1_m (mrs : shr_record) :
  0 <= shr_m mrs -> shr_m (shr_1 mrs) = shr_m mrs / 2.
Proof.
  destruct mrs as [m r s]. cbn [shr_m]. intros Hm.
  destruct m as [|[p|p|]|p]; cbn; try lia.
  - rewrite (Pos2Z.inj_xI p).
    apply Z.div_unique with (r := 1); lia.
  - rewrite (Pos2Z.inj_xO p).
    apply Z.div_unique with (r := 0); lia.
Qed.

Lemma pow2_xI (n : positive) :
  2 ^ Z.pos n~1 = 2 * (2 ^ Z.pos n * 2 ^ Z.pos n).
Proof.
  rewrite (Pos2Z.inj_xI n).
  replace (2 * Z.pos n + 1) with (1 + Z.pos n + Z.pos n) by lia.
  rewrite !Z.pow_add_r, Z.pow_1_r by lia. lia.
Qed.

Lemma pow2_xO (n : positive) :
  2 ^ Z.pos n~0 = 2 ^ Z.pos n * 2 ^ Z.pos n.
Proof.
  rewrite (Pos2Z.inj_xO n).
  replace (2 * Z.pos n) with (Z.pos n + Z.pos n) by lia.
  now rewrite Z.pow_add_r by lia.
Qed.

Lemma iter_shr_1_m (n : positive) :
  forall mrs, 0 <= shr_m mrs ->
    shr_m (SpecFloat.iter_pos shr_1 n mrs) = shr_m mrs / 2 ^ Z.pos n.
Proof.
  induction n as [n IH|n IH|]; intros mrs Hm; cbn [SpecFloat.iter_pos].
  - assert (H1 : 0 <= shr_m (shr_1 mrs))
      by (rewrite shr_1_m by assumption; apply Z.div_pos; lia).
    assert (H2 : 0 <= shr_m (SpecFloat.iter_pos shr_1 n (shr_1 mrs)))
      by (rewrite IH by assumption; apply Z.div_pos; lia).
    rewrite IH, IH, shr_1_m by assumption.
    rewrite !Z.div_div by lia.
    now rewrite pow2_xI, Z.mul_assoc.
  - assert (H2 : 0 <= shr_m (SpecFloat.iter_pos shr_1 n mrs))
      by (rewrite IH by assumption; apply Z.div_pos; lia).
    rewrite IH, IH by assumption.
    rewrite !Z.div_div by lia.
    now rewrite pow2_xO.
  - now rewrite shr_1_m.
Qed.

(** Bringing a mantissa at an exponent of the normal range down to 53
    digits: the exponent grows by the digits dropped, the mantissa is
    divided, and nothing is lost when no digit is dropped. *)
Lemma shr_fexp_exact (p : positive) (e : Z) :
  -1074 <= e ->
  let r := shr_fexp prec emax (Z.pos p) e loc_Exact in
  snd r = e + excess (Z.pos p) /\
  shr_m (fst r) = Z.pos p / 2 ^ excess (Z.pos p) /\
  (excess (Z.pos p) = 0 -> loc_of_shr_record (fst r) = loc_Exact).
Proof.
  intros He. unfold shr_fexp, excess, fexp, SpecFloat.emin, prec, emax.
  cbn [Zdigits2 shr_record_of_loc].
  set (d := Z.pos (digits2_pos p)).
  destruct (Z.max (d + e - 53) (3 - 1024 - 53) - e) as [|k|k] eqn:Hn;
    cbn [shr fst snd shr_m].
  - replace (Z.max 0 (d - 53)) with 0 by lia.
    rewrite Z.pow_0_r, Z.div_1_r. repeat split; lia.
  - replace (Z.max 0 (d - 53)) with (Z.pos k) by lia.
    rewrite iter_shr_1_m by (cbn; lia). cbn [shr_m].
    repeat split; lia.
  - replace (Z.max 0 (d - 53)) with 0 by lia.
    rewrite Z.pow_0_r, Z.div_1_r. repeat split; lia.
Qed.

Lemma round_nearest_even_bounds (m : Z) (l : location) :
  m <= round_nearest_even m l <= m + 1.
Proof.
  destruct l as [|[| |]]; cbn; try lia.
  destruct (Z.even m); lia.
Qed.

Lemma excess_nonneg (m : Z) : 0 <= excess m.
Proof. unfold excess. lia. Qed.

Lemma div_pow2_pos (p : positive) :
  0 < Z.pos p / 2 ^ excess (Z.pos p).
Proof.
  unfold excess. cbn [Zdigits2].
  pose proof (digits_lower p) as Hlo.
  set (d := Z.pos (digits2_pos p)) in *.
  apply Z.div_str_pos. split; [apply Z.pow_pos_nonneg; lia|].
  transitivity (2 ^ (d - 1)); [|assumption].
  apply Z.pow_le_mono_r; lia.
Qed.

(** Rounding a positive mantissa [p] at exponent [e]: the result keeps the
    sign, is finite or infinite, and is at most one unit of the dropped
    digits above the exact value. *)
Lemma binary_round_aux_upper (sx : bool) (p : positive) (e : Z) :
  -1074 <= e ->
  exists (M : positive) (e2 : Z),
    binary_round_aux prec emax sx (Z.pos p) e loc_Exact
      = (if e2 <=? emax - prec then S754_finite sx M e2
         else S754_infinity sx) /\
    e <= e2 <= e + excess (Z.pos p) + 1 /\
    Z.pos M * 2 ^ (e2 - e) <= Z.pos p + 2 ^ excess (Z.pos p) /\
    (excess (Z.pos p) = 0 -> M = p /\ e2 = e).
Proof.
  intros He. unfold binary_round_aux.
  destruct (shr_fexp_exact p e He) as (He1 & Hm1 & Hl1).
  destruct (shr_fexp prec emax (Z.pos p) e loc_Exact) as [mrs1 e1].
  cbn [fst snd] in He1, Hm1, Hl1.
  set (s1 := excess (Z.pos p)) in *.
  pose proof (excess_nonneg (Z.pos p)) as Hs1. fold s1 in Hs1.
  pose proof (round_nearest_even_bounds (shr_m mrs1)
                (loc_of_shr_record mrs1)) as HM1.
  pose proof (div_pow2_pos p) as Hpos1. fold s1 in Hpos1.
  set (M1 := round_nearest_even (shr_m mrs1) (loc_of_shr_record mrs1)) in *.
  destruct M1 as [|P1|P1] eqn:HP1; try lia.
  assert (He1' : -1074 <= e1) by lia.
  destruct (shr_fexp_exact P1 e1 He1') as (He2 & Hm2 & Hl2).
  destruct (shr_fexp prec emax (Z.pos P1) e1 loc_Exact) as [mrs2 e2].
  cbn [fst snd] in He2, Hm2, Hl2.
  set (s2 := excess (Z.pos P1)) in *.
  pose proof (excess_nonneg (Z.pos P1)) as Hs2. fold s2 in Hs2.
  pose proof (div_pow2_pos P1) as Hpos2. fold s2 in Hpos2.
  rewrite <- Hm2 in Hpos2.
  destruct (shr_m mrs2) as [|M2|M2] eqn:HM2; try lia.
  exists M2, e2.
  (* the quotient of [p] has at most 53 digits *)
  assert (Hq : Z.pos p / 2 ^ s1 < 2 ^ 53).
  { pose proof (digits_upper p) as Hup.
    apply Z.div_lt_upper_bound; [apply Z.pow_pos_nonneg; lia|].
    rewrite <- Z.pow_add_r by lia.
    eapply Z.lt_le_trans; [exact Hup|].
    apply Z.pow_le_mono_r; [lia|].
    unfold s1, excess. cbn [Zdigits2]. lia. }
  assert (Hs2' : s2 <= 1).
  { unfold s2, excess. cbn [Zdigits2].
    assert (Z.pos (digits2_pos P1) <= 54); [|lia].
    apply digits_le. change (2 ^ 54) with (2 * 2 ^ 53). lia. }
  split; [reflexivity|]. split; [lia|]. split.
  - replace (e2 - e) with (s2 + s1) by lia.
    rewrite Z.pow_add_r by lia.
    assert (Hfl : Z.pos M2 * 2 ^ s2 <= Z.pos P1).
    { rewrite Hm2, Z.mul_comm. apply Z.mul_div_le.
      apply Z.pow_pos_nonneg; lia. }
    assert (Hfl1 : Z.pos p / 2 ^ s1 * 2 ^ s1 <= Z.pos p).
    { rewrite Z.mul_comm. apply Z.mul_div_le.
      apply Z.pow_pos_nonneg; lia. }
    assert (0 < 2 ^ s1) by (apply Z.pow_pos_nonneg; lia).
    nia.
  - intros Hz. specialize (Hl1 Hz).
    assert (HM1' : Z.pos P1 = Z.pos p).
    { rewrite <- HP1. unfold M1. rewrite Hl1. cbn.
      rewrite Hm1, Hz, Z.pow_0_r, Z.div_1_r. reflexivity. }
    injection HM1' as ->.
    fold s1 in s2. assert (s2 = 0) by (unfold s2; lia).
    assert (Z.pos M2 = Z.pos p).
    { rewrite Hm2. replace s2 with 0 by lia.
      now rewrite Z.pow_0_r, Z.div_1_r. }
    split; [congruence|lia].
Qed.

(** ** Integers as numbers *)
Lemma iter_xO_pow2 (m d : positive) :
  Z.pos (Pos.iter xO m d) = Z.pos m * 2 ^ Z.pos d.
Proof.
  induction d as [|d IH] using Pos.peano_ind.
  - cbn [Pos.iter]. rewrite (Pos2Z.inj_xO m). lia.
  - rewrite Pos.iter_succ, (Pos2Z.inj_xO (Pos.iter xO m d)), IH.
    rewrite Pos2Z.inj_succ, Z.pow_succ_r by lia. lia.
Qed.

Lemma shl_align_spec (m : positive) (e e' : Z) :
  snd (shl_align m e e') = Z.min e e' /\
  Z.pos (fst (shl_align m e e')) = Z.pos m * 2 ^ (e - Z.min e e').
Proof.
  unfold shl_align.
  destruct (e' - e) as [|d|d] eqn:Hd; cbn [fst snd].
  - replace (Z.min e e') with e by lia.
    rewrite Z.sub_diag, Z.pow_0_r. lia.
  - replace (Z.min e e') with e by lia.
    rewrite Z.sub_diag, Z.pow_0_r. lia.
  - replace (Z.min e e') with e' by lia.
    rewrite iter_xO_pow2. replace (e - e') with (Z.pos d) by lia. lia.
Qed.

(** An integer between 1 and [2^53 - 1] is a number, exactly. *)
Lemma ofZ_exact (n : Z) :
  0 < n < 2 ^ 53 ->
  exists (m : positive) (e : Z),
    ofZ n = S754_finite false m e /\
    -52 <= e <= 0 /\ Z.pos m = n * 2 ^ (- e) /\
    2 ^ 52 <= Z.pos m < 2 ^ 53.
Proof.
  intros [Hn0 Hn]. destruct n as [|p|p]; try lia.
  unfold ofZ, binary_normalize, binary_round.
  pose proof (shl_align_spec p 0
                (fexp prec emax (Z.pos (digits2_pos p) + 0))) as [He Hm].
  destruct (shl_align p 0 (fexp prec emax (Z.pos (digits2_pos p) + 0)))
    as [mz ez].
  cbn [fst snd] in He, Hm.
  pose proof (digits_le p 53 Hn) as Hd.
  pose proof (digits_lower p) as Hlo.
  pose proof (digits_upper p) as Hup.
  set (d := Z.pos (digits2_pos p)) in *.
  assert (Hd0 : 1 <= d) by (unfold d; lia).
  assert (Hez : ez = d - 53).
  { rewrite He. unfold fexp, SpecFloat.emin, prec, emax. lia. }
  rewrite <- He in Hm. rewrite Hez in Hm.
  replace (0 - (d - 53)) with (53 - d) in Hm by lia.
  assert (Hrange : 2 ^ 52 <= Z.pos mz < 2 ^ 53).
  { rewrite Hm. split.
    - replace 52 with ((d - 1) + (53 - d)) by lia.
      rewrite Z.pow_add_r by lia.
      apply Z.mul_le_mono_nonneg_r; [apply Z.pow_nonneg; lia|assumption].
    - replace 53 with (d + (53 - d)) at 2 by lia.
      rewrite Z.pow_add_r by lia.
      apply Z.mul_lt_mono_pos_r; [apply Z.pow_pos_nonneg; lia|assumption]. }
  assert (Hex : excess (Z.pos mz) = 0).
  { unfold excess. cbn [Zdigits2].
    pose proof (digits_le mz 53 (proj2 Hrange)). lia. }
  destruct (binary_round_aux_upper false mz ez ltac:(lia))
    as (M & e2 & Hr & _ & _ & Hsame).
  destruct (Hsame Hex) as [-> ->].
  exists mz, ez. rewrite Hr.
  destruct (Z.leb_spec ez (emax - prec)) as [_|Hbad];
    [|unfold emax, prec in Hbad; lia].
  split; [reflexivity|]. split; [lia|]. split; [|assumption].
  rewrite Hm. f_equal. f_equal. lia.
Qed.

(** The index [floor (n * c)] for a factor [c] below 1 lies below [n]. *)
Lemma floor_mul_below (n : Z) (mc : positive) (ec : Z) :
  0 < n < 2 ^ 53 ->
  Z.pos mc < 2 ^ 53 -> -64 <= ec < 0 -> Z.pos mc + 3 <= 2 ^ (- ec) ->
  exists (M : positive) (e2 : Z),
    mul (ofZ n) (S754_finite false mc ec) = S754_finite false M e2 /\
    0 <= floorZ (S754_finite false M e2) < n.
Proof.
  intros Hn Hmc Hec Hc.
  destruct (ofZ_exact n Hn) as (mz & ez & -> & Hez & Hmz & Hrange).
  unfold mul. cbn [SFmul xorb].
  destruct (binary_round_aux_upper false (mz * mc) (ez + ec) ltac:(lia))
    as (M & e2 & Hr & He2 & Hup & _).
  fold prec emax. rewrite Hr. clear Hr.
  assert (Hprod : Z.pos (mz * mc) < 2 ^ 106).
  { rewrite Pos2Z.inj_mul. change (2 ^ 106) with (2 ^ 53 * 2 ^ 53).
    apply Z.mul_lt_mono_nonneg; lia. }
  assert (Hex : 0 <= excess (Z.pos (mz * mc)) <= 53).
  { split; [apply excess_nonneg|]. unfold excess. cbn [Zdigits2].
    pose proof (digits_le _ _ Hprod). lia. }
  set (s := excess (Z.pos (mz * mc))) in *.
  destruct (Z.leb_spec e2 (emax - prec)) as [_|Hbad];
    [|unfold emax, prec in Hbad; lia].
  exists M, e2. split; [reflexivity|].
  assert (Hs : 2 ^ s <= 2 ^ 53) by (apply Z.pow_le_mono_r; lia).
  assert (Hkey : Z.pos M * 2 ^ (e2 - (ez + ec)) < n * 2 ^ (- (ez + ec))).
  { eapply Z.le_lt_trans; [exact Hup|].
    replace (- (ez + ec)) with (- ez + - ec) by lia.
    rewrite Z.pow_add_r, Z.mul_assoc, <- Hmz by lia.
    rewrite Pos2Z.inj_mul.
    assert (0 < 2 ^ 52) by (apply Z.pow_pos_nonneg; lia).
    change (2 ^ 53) with (2 * 2 ^ 52) in *.
    nia. }
  unfold floorZ.
  destruct (Z.leb_spec 0 e2) as [Hpos|Hneg].
  - split; [apply Z.mul_nonneg_nonneg; [lia|apply Z.pow_nonneg; lia]|].
    replace (e2 - (ez + ec)) with (e2 + - (ez + ec)) in Hkey by lia.
    rewrite Z.pow_add_r, Z.mul_assoc in Hkey by lia.
    apply Z.mul_lt_mono_pos_r in Hkey; [assumption|].
    apply Z.pow_pos_nonneg; lia.
  - assert (H2 : 0 < 2 ^ (- e2)) by (apply Z.pow_pos_nonneg; lia).
    split; [apply Z.div_pos; lia|].
    apply Z.div_lt_upper_bound; [assumption|].
    replace (- (ez + ec)) with (- e2 + (e2 - (ez + ec))) in Hkey by lia.
    rewrite Z.pow_add_r, Z.mul_assoc in Hkey by lia.
    apply Z.mul_lt_mono_pos_r in Hkey; [lia|].
    apply Z.pow_pos_nonneg; lia.
Qed.

(** [Math.floor] of a positive number is an array index: the integer
    [floorZ]. *)
Lemma arrayIndex_floor (M : positive) (e : Z) :
  floorZ (S754_finite false M e) < 2 ^ 53 ->
  CameraMatrixUtils.arrayIndex (floor (S754_finite false M e))
  = Some (Z.to_nat (floorZ (S754_finite false M e))).
Proof.
  unfold floor, floorZ. intros Hlt.
  destruct (Z.leb_spec 0 e) as [Hpos|Hneg].
  - cbn [CameraMatrixUtils.arrayIndex].
    destruct (Z.leb_spec 0 e); [reflexivity|lia].
  - assert (H2 : 0 < 2 ^ (- e)) by (apply Z.pow_pos_nonneg; lia).
    pose proof (Z.div_pos (Z.pos M) (2 ^ (- e)) ltac:(lia) H2) as Hq.
    set (q := Z.pos M / 2 ^ (- e)) in *.
    destruct (Z.eqb_spec q 0) as [->|Hq0]; [reflexivity|].
    destruct (ofZ_exact q ltac:(lia)) as (mz & ez & -> & Hez & Hmz & _).
    cbn [CameraMatrixUtils.arrayIndex].
    destruct (Z.leb_spec 0 ez) as [Hz|Hz].
    + replace ez with 0 in * by lia. cbn [Z.opp] in Hmz.
      rewrite Z.pow_0_r in *. do 2 f_equal. lia.
    + rewrite Hmz, Z.mod_mul, Z.eqb_refl, Z.div_mul
        by (apply Z.pow_nonzero; lia).
      reflexivity.
Qed.

(** ** Order *)

Lemma validDepth_positiveFinite (v : number) :
  valid_binary prec emax v = true ->
  CameraMatrixUtils.validDepth v = true -> positiveFinite v.
Proof.
  unfold CameraMatrixUtils.validDepth.
  destruct v as [s|s| |s m e]; intros Hb Hv.
  - destruct s; cbv in Hv; discriminate Hv.
  - destruct s; cbv in Hv; discriminate Hv.
  - cbv in Hv; discriminate Hv.
  - destruct s; [cbv in Hv; discriminate Hv|]. now exists m, e.
Qed.

(** A mantissa in normal form has at most 53 digits, and exactly 53 above
    the least exponent. *)
Lemma bounded_spec (m : positive) (e : Z) :
  SpecFloat.bounded prec emax m e = true ->
  -1074 <= e /\ Z.pos m < 2 ^ 53 /\ (-1074 < e -> 2 ^ 52 <= Z.pos m).
Proof.
  unfold SpecFloat.bounded, canonical_mantissa, fexp, SpecFloat.emin, prec, emax.
  intros Hb. apply andb_prop in Hb as [Hc _].
  apply Z.eqb_eq in Hc.
  pose proof (digits_upper m) as Hup.
  pose proof (digits_lower m) as Hlo.
  set (d := Z.pos (digits2_pos m)) in *.
  split; [lia|]. split.
  - eapply Z.lt_le_trans; [exact Hup|]. apply Z.pow_le_mono_r; lia.
  - intros He. replace 52 with (d - 1) by lia. assumption.
Qed.

(** [a <= b] compares the mantissas at the common exponent. *)
Lemma leb_aligned (ma : positive) (ea : Z) (mb : positive) (eb : Z) :
  SpecFloat.bounded prec emax ma ea = true -> SpecFloat.bounded prec emax mb eb = true ->
  (leb (S754_finite false ma ea) (S754_finite false mb eb) = true <->
   fst (aligned ma ea mb eb) <= snd (aligned ma ea mb eb)).
Proof.
  intros Ha Hb.
  apply bounded_spec in Ha as (Hea & Hma & Hna).
  apply bounded_spec in Hb as (Heb & Hmb & Hnb).
  unfold leb, SFleb, aligned. cbn [SFcompare fst snd].
  destruct (Z.compare_spec ea eb) as [He|He|He].
  - subst eb. rewrite Z.min_id, Z.sub_diag, Z.pow_0_r, !Z.mul_1_r.
    change (Pos.compare_cont Eq ma mb) with (Pos.compare ma mb).
    rewrite Pos2Z.inj_compare.
    destruct (Z.compare_spec (Z.pos ma) (Z.pos mb)); split; intros;
      try lia; try reflexivity; try discriminate.
  - replace (Z.min ea eb) with ea by lia.
    rewrite Z.sub_diag, Z.pow_0_r, Z.mul_1_r.
    split; [intros _|reflexivity].
    assert (2 ^ 1 <= 2 ^ (eb - ea)) by (apply Z.pow_le_mono_r; lia).
    specialize (Hnb ltac:(lia)).
    change (2 ^ 53) with (2 ^ 52 * 2 ^ 1) in *.
    assert (0 < 2 ^ 52) by (apply Z.pow_pos_nonneg; lia). nia.
  - replace (Z.min ea eb) with eb by lia.
    rewrite Z.sub_diag, Z.pow_0_r, Z.mul_1_r.
    split; [intros Hf; cbv in Hf; discriminate Hf|intros Hle].
    assert (2 ^ 1 <= 2 ^ (ea - eb)) by (apply Z.pow_le_mono_r; lia).
    specialize (Hna ltac:(lia)).
    change (2 ^ 53) with (2 ^ 52 * 2 ^ 1) in *.
    assert (0 < 2 ^ 52) by (apply Z.pow_pos_nonneg; lia). nia.
Qed.

(** The sign of the rounded integer [z * 2^e]. *)
Lemma binary_normalize_sign (z e : Z) :
  -1074 <= e ->
  (ltb pzero (binary_normalize prec emax z e false) = true <-> 0 < z).
Proof.
  intros He. destruct z as [|p|p]; cbn [binary_normalize].
  - split; [discriminate|lia].
  - unfold binary_round.
    pose proof (shl_align_spec p e
                  (fexp prec emax (Z.pos (digits2_pos p) + e))) as [Hs _].
    destruct (shl_align p e (fexp prec emax (Z.pos (digits2_pos p) + e)))
      as [mz ez]. cbn [snd] in Hs.
    assert (Hez : -1074 <= ez)
      by (rewrite Hs; unfold fexp, SpecFloat.emin, prec, emax; lia).
    destruct (binary_round_aux_upper false mz ez Hez) as (M & e2 & -> & _).
    split; [lia|intros _]. now destruct (e2 <=? emax - prec).
  - unfold binary_round.
    pose proof (shl_align_spec p e
                  (fexp prec emax (Z.pos (digits2_pos p) + e))) as [Hs _].
    destruct (shl_align p e (fexp prec emax (Z.pos (digits2_pos p) + e)))
      as [mz ez]. cbn [snd] in Hs.
    assert (Hez : -1074 <= ez)
      by (rewrite Hs; unfold fexp, SpecFloat.emin, prec, emax; lia).
    destruct (binary_round_aux_upper true mz ez Hez) as (M & e2 & -> & _).
    split; [|lia]. now destruct (e2 <=? emax - prec).
Qed.

(** [a - b > 0] exactly when [a] is the larger number. *)
Lemma sub_positive (ma : positive) (ea : Z) (mb : positive) (eb : Z) :
  SpecFloat.bounded prec emax ma ea = true -> SpecFloat.bounded prec emax mb eb = true ->
  (ltb pzero (sub (S754_finite false ma ea) (S754_finite false mb eb)) = true
   <-> snd (aligned ma ea mb eb) < fst (aligned ma ea mb eb)).
Proof.
  intros Ha Hb.
  apply bounded_spec in Ha as (Hea & _). apply bounded_spec in Hb as (Heb & _).
  unfold sub. cbn [SFsub cond_Zopp].
  destruct (shl_align_spec ma ea (Z.min ea eb)) as [_ HA].
  destruct (shl_align_spec mb eb (Z.min ea eb)) as [_ HB].
  rewrite HA, HB.
  replace (Z.min ea (Z.min ea eb)) with (Z.min ea eb) by lia.
  replace (Z.min eb (Z.min ea eb)) with (Z.min ea eb) by lia.
  fold prec emax.
  rewrite binary_normalize_sign by lia.
  unfold aligned. cbn [fst snd]. lia.
Qed.

End FloatLemmas.

(* ================================================================== *)
(** * Properties of [computeDepthQuantiles] *)
(* ================================================================== *)

Section DepthQuantiles.
Import JsNumber CameraMatrixUtils Samples.

(** Induction over an array three elements at a time. *)
Lemma triples_ind {A : Type} (P : list A -> Prop) :
  P [] -> (forall a, P [a]) -> (forall a b, P [a; b]) ->
  (forall a b c rest, P rest -> P (a :: b :: c :: rest)) ->
  forall l, P l.
Proof.
  intros H0 H1 H2 H3. fix IH 1.
  intros [|a [|b [|c rest]]];
    [exact H0 | exact (H1 a) | exact (H2 a b)
    | exact (H3 a b c rest (IH rest))].
Qed.

(** ** The depth components

    [zValues] holds the elements at indices 2, 5, 8, ... *)
Lemma zValues_nth (positions : list number) :
  forall k, nth_error (zValues positions) k = nth_error positions (3 * k + 2).
Proof.
  induction positions as [|a|a b|a b c rest IH] using triples_ind; intros k.
  - now destruct k.
  - destruct k; cbn; [reflexivity|]. now destruct (k + S (k + S (k + 0)))%nat.
  - destruct k; cbn; [reflexivity|].
    now destruct (k + S (k + S (k + 0)))%nat as [|[|]].
  - cbn [zValues]. destruct k as [|k]; [reflexivity|].
    cbn [nth_error]. rewrite IH.
    replace (3 * S k + 2)%nat with (S (S (S (3 * k + 2)))) by lia.
    reflexivity.
Qed.

Lemma zValues_length (positions : list number) :
  (List.length (zValues positions) <= List.length positions)%nat.
Proof.
  induction positions as [|a|a b|a b c rest IH] using triples_ind;
    cbn in *; lia.
Qed.

Lemma zValues_incl (positions : list number) (v : number) :
  In v (zValues positions) -> In v positions.
Proof.
  intros Hin. apply In_nth_error in Hin as [k Hk].
  rewrite zValues_nth in Hk. eapply nth_error_In; eauto.
Qed.

(** *** Insertion sort *)

Lemma insertBy_perm cmp a l : Permutation (a :: l) (insertBy cmp a l).
Proof.
  induction l as [|b r IH]; cbn; [reflexivity|].
  destruct (ltb pzero (cmp a b)); [|reflexivity].
  rewrite perm_swap. now constructor.
Qed.

Lemma sortBy_perm cmp l : Permutation l (sortBy cmp l).
Proof.
  induction l as [|a r IH]; cbn; [constructor|].
  rewrite <- insertBy_perm. now constructor.
Qed.

Lemma insertBy_HdRel cmp a b l :
  numLe b a -> HdRel numLe b l -> HdRel numLe b (insertBy cmp a l).
Proof.
  intros Hba Hbl. destruct l as [|c r]; cbn; [now constructor|].
  destruct (ltb pzero (cmp a c)); [|now constructor].
  inversion Hbl; subst. now constructor.
Qed.

(** The comparator [(a, b) => a - b] orders positive finite numbers as
    [<=] does. *)
Lemma sub_order (a b : number) :
  positiveFinite a -> positiveFinite b ->
  if ltb pzero (sub a b) then numLe b a else numLe a b.
Proof.
  intros (ma & ea & -> & Ha) (mb & eb & -> & Hb).
  pose proof (sub_positive ma ea mb eb Ha Hb) as Hs.
  pose proof (leb_aligned ma ea mb eb Ha Hb) as Hab.
  pose proof (leb_aligned mb eb ma ea Hb Ha) as Hba.
  unfold aligned in *. cbn [fst snd] in *.
  rewrite (Z.min_comm eb ea) in Hba.
  unfold numLe.
  destruct (ltb pzero (sub (S754_finite false ma ea) (S754_finite false mb eb))).
  - apply Hba. apply Z.lt_le_incl. now apply Hs.
  - apply Hab. apply Z.nlt_ge. intros Hlt. apply Hs in Hlt. discriminate.
Qed.

Lemma insertBy_sorted a l :
  positiveFinite a -> Forall positiveFinite l ->
  Sorted numLe l -> Sorted numLe (insertBy sub a l).
Proof.
  intros Ha Hl Hs. induction l as [|b r IH]; cbn.
  - repeat constructor.
  - inversion Hl as [|? ? Hb Hr]; subst.
    inversion Hs as [|? ? Hsr Hhd]; subst.
    pose proof (sub_order a b Ha Hb) as Hord.
    destruct (ltb pzero (sub a b)).
    + constructor; [now apply IH|]. now apply insertBy_HdRel.
    + constructor; [assumption|]. now constructor.
Qed.

Lemma sortBy_sorted l :
  Forall positiveFinite l -> Sorted numLe (sortBy sub l).
Proof.
  induction l as [|a r IH]; intros Hl; cbn; [constructor|].
  inversion Hl; subst.
  apply insertBy_sorted; auto.
  eapply Permutation_Forall; [apply sortBy_perm|assumption].
Qed.


(** The element of a non-empty array at [floor (length * c)], for a factor
    [c] below 1. *)
Lemma at_floor_mul (arr : list number) (mc : positive) (ec : Z) :
  arr <> [] -> Z.of_nat (List.length arr) < 2 ^ 53 ->
  Z.pos mc < 2 ^ 53 -> -64 <= ec < 0 -> Z.pos mc + 3 <= 2 ^ (- ec) ->
  exists v,
    at_ arr (floor (mul (lengthOf arr) (S754_finite false mc ec))) = Some v /\
    nth_error arr
      (Z.to_nat (floorZ (mul (ofZ (Z.of_nat (List.length arr)))
                             (S754_finite false mc ec)))) = Some v.
Proof.
  intros Hne Hlen Hmc Hec Hc.
  assert (Hn : 0 < Z.of_nat (List.length arr) < 2 ^ 53).
  { destruct arr; [contradiction|]. cbn [List.length] in *. lia. }
  unfold lengthOf, at_.
  destruct (floor_mul_below _ mc ec Hn Hmc Hec Hc) as (M & e2 & -> & Hfl).
  rewrite arrayIndex_floor by lia. cbv beta iota.
  destruct (nth_error arr (Z.to_nat (floorZ (S754_finite false M e2))))
    as [v|] eqn:Hv.
  - exists v. split; reflexivity.
  - apply nth_error_None in Hv. lia.
Qed.

(** C8. For an array of fewer than [2^53] numbers, with [kept] the depth
    components (the elements at indices 2, 5, 8, ...) that are finite and
    strictly positive, [n] their count and [sorted] their ascending
    arrangement: when [n = 0] the result is the fixed [{min: 1, focus: 2,
    max: 10}]; otherwise [min], [focus] and [max] are the elements of
    [sorted] at the indices [floor (n * 0.1)], [floor (n * 0.5)] and
    [floor (n * 0.9)], which lie within the array.  In both cases the three
    values are finite. *)
Theorem C8_depth_quantiles :
  forall positions : list number,
    validNumbers positions = true ->
    Z.of_nat (List.length positions) < 2 ^ 53 ->
    let kept := filter validDepth (zValues positions) in
    let n := Z.of_nat (List.length kept) in
    let sorted := sortBy sub kept in
    let q := computeDepthQuantiles positions defaultQuantile in
    (forall k, nth_error (zValues positions) k
               = nth_error positions (3 * k + 2)) /\
    (forall v, In v kept <->
               In v (zValues positions) /\
               isFinite v = true /\ ltb pzero v = true) /\
    Permutation kept sorted /\ Sorted numLe sorted /\
    (n = 0 -> q = {| min := ofZ 1; focus := ofZ 2; max := ofZ 10 |}) /\
    (0 < n ->
     nth_error sorted (Z.to_nat (floorZ (mul (ofZ n) (dec 1 10))))
       = Some (min q) /\
     nth_error sorted (Z.to_nat (floorZ (mul (ofZ n) (dec 5 10))))
       = Some (focus q) /\
     nth_error sorted (Z.to_nat (floorZ (mul (ofZ n) (dec 9 10))))
       = Some (max q)) /\
    isFinite (min q) = true /\ isFinite (focus q) = true /\
    isFinite (max q) = true.
Proof.
  intros positions Hvalid Hlen kept n sorted q.
  assert (Hkept : Forall positiveFinite kept).
  { apply Forall_forall. intros v Hv. unfold kept in Hv.
    apply filter_In in Hv as [Hin Hd].
    apply validDepth_positiveFinite; [|assumption].
    unfold validNumbers in Hvalid. rewrite forallb_forall in Hvalid.
    apply Hvalid. now apply zValues_incl. }
  assert (Hperm : Permutation kept sorted) by apply sortBy_perm.
  assert (Hsorted : Forall positiveFinite sorted)
    by (eapply Permutation_Forall; eassumption).
  assert (Hfin : forall v, In v sorted -> isFinite v = true).
  { intros v Hv. rewrite Forall_forall in Hsorted.
    destruct (Hsorted v Hv) as (m & e & -> & _). reflexivity. }
  split; [apply zValues_nth|].
  split.
  { intros v. unfold kept. rewrite filter_In. unfold validDepth.
    rewrite andb_true_iff. tauto. }
  split; [assumption|].
  split; [now apply sortBy_sorted|].
  destruct kept as [|d0 rest] eqn:Hk.
  - (* no valid depth *)
    assert (Hq : q = {| min := ofZ 1; focus := ofZ 2; max := ofZ 10 |}).
    { unfold q, computeDepthQuantiles. fold kept. now rewrite Hk. }
    split; [intros _; exact Hq|]. split; [cbn in n; lia|].
    rewrite Hq. repeat split.
  - split; [cbn in n; lia|].
    assert (Hne : sorted <> []).
    { intros He. rewrite He in Hperm. apply Permutation_sym in Hperm.
      now apply Permutation_nil in Hperm. }
    assert (Hls : List.length sorted = List.length (d0 :: rest))
      by (symmetry; now apply Permutation_length).
    assert (Hbound : Z.of_nat (List.length sorted) < 2 ^ 53).
    { rewrite Hls, <- Hk. unfold kept.
      pose proof (filter_length_le validDepth (zValues positions)).
      pose proof (zValues_length positions). lia. }
    destruct (at_floor_mul sorted 7205759403792794 (-56) Hne Hbound)
      as (vmin & Hamin & Hnmin); [reflexivity|lia|vm_compute; discriminate|].
    destruct (at_floor_mul sorted 4503599627370496 (-53) Hne Hbound)
      as (vfoc & Hafoc & Hnfoc); [reflexivity|lia|vm_compute; discriminate|].
    destruct (at_floor_mul sorted 8106479329266893 (-53) Hne Hbound)
      as (vmax & Hamax & Hnmax); [reflexivity|lia|vm_compute; discriminate|].
    assert (Hq : q = {| min := vmin; focus := vfoc; max := vmax |}).
    { unfold q, computeDepthQuantiles. fold kept. rewrite Hk.
      fold sorted.
      change defaultQuantile with (S754_finite false 7205759403792794 (-56)).
      change (sub (ofZ 1) (S754_finite false 7205759403792794 (-56)))
        with (S754_finite false 8106479329266893 (-53)).
      change (dec 5 10) with (S754_finite false 4503599627370496 (-53)).
      now rewrite Hamin, Hafoc, Hamax. }
    rewrite Hq. cbn [min focus max].
    fold n in Hls. unfold n. rewrite <- Hls.
    change (dec 1 10) with (S754_finite false 7205759403792794 (-56)).
    change (dec 5 10) with (S754_finite false 4503599627370496 (-53)).
    change (dec 9 10) with (S754_finite false 8106479329266893 (-53)).
    split; [intros _; repeat split; assumption|].
    repeat split; apply Hfin; eapply nth_error_In; eassumption.
Qed.

Lemma C8_depth_quantiles_witness :
  validNumbers samplePositions = true /\
  Z.of_nat (List.length samplePositions) < 2 ^ 53 /\
  isFinite (min (computeDepthQuantiles samplePositions defaultQuantile))
    = true /\
  isFinite (focus (computeDepthQuantiles samplePositions defaultQuantile))
    = true /\
  isFinite (max (computeDepthQuantiles samplePositions defaultQuantile))
    = true.
Proof.
  split; [vm_compute; reflexivity|].
  split; [vm_compute; reflexivity|].
  apply (C8_depth_quantiles samplePositions).
  - vm_compute. reflexivity.
  - vm_compute. reflexivity.
Defined.

(** The sample: ten depths are kept; sorted they are 1, 2, ..., 10, and the
    elements at indices 1, 5 and 9 are returned. *)
Lemma samplePositions_quantiles :
  filter validDepth (zValues samplePositions)
    = List.map ofZ [3; 1; 2; 7; 6; 5; 4; 9; 8; 10] /\
  sortBy sub (filter validDepth (zValues samplePositions))
    = List.map ofZ [1; 2; 3; 4; 5; 6; 7; 8; 9; 10] /\
  computeDepthQuantiles samplePositions defaultQuantile
    = {| min := ofZ 2; focus := ofZ 6; max := ofZ 10 |}.
Proof. vm_compute. repeat split. Qed.

(** No usable depth: the fixed statistics. *)
Lemma degeneratePositions_quantiles :
  filter validDepth (zValues degeneratePositions) = [] /\
  computeDepthQuantiles degeneratePositions defaultQuantile
    = {| min := ofZ 1; focus := ofZ 2; max := ofZ 10 |}.
Proof. vm_compute. split; reflexivity. Qed.

End DepthQuantiles.

(* ================================================================== *)
(** * Signs of the results of the operations *)
(* ================================================================== *)

Section NumberSigns.
Import JsNumber NumberOrder.

Lemma shr_record_of_loc_m (m : Z) (l : location) :
  shr_m (shr_record_of_loc m l) = m.
Proof. now destruct l as [|[| |]]. Qed.

Lemma shr_fexp_nonneg (m e : Z) (l : location) :
  0 <= m -> 0 <= shr_m (fst (shr_fexp prec emax m e l)).
Proof.
  intros Hm. unfold shr_fexp, shr.
  destruct (fexp prec emax (Zdigits2 m + e) - e) as [|n|n]; cbn [fst];
    rewrite ?shr_record_of_loc_m; try assumption.
  rewrite iter_shr_1_m by (now rewrite shr_record_of_loc_m).
  rewrite shr_record_of_loc_m. apply Z.div_pos; [assumption|].
  apply Z.pow_pos_nonneg; lia.
Qed.

(** Rounding a non-negative mantissa never gives NaN and keeps the sign. *)
Lemma binary_round_aux_sign (sx : bool) (m e : Z) (l : location) :
  0 <= m ->
  match binary_round_aux prec emax sx m e l with
  | S754_nan => False
  | S754_zero s | S754_infinity s | S754_finite s _ _ => s = sx
  end.
Proof.
  intros Hm. unfold binary_round_aux.
  pose proof (shr_fexp_nonneg m e l Hm) as H1.
  destruct (shr_fexp prec emax m e l) as [mrs1 e1]. cbn [fst] in H1.
  pose proof (round_nearest_even_bounds (shr_m mrs1)
                (loc_of_shr_record mrs1)) as HM.
  set (M1 := round_nearest_even (shr_m mrs1) (loc_of_shr_record mrs1)) in *.
  pose proof (shr_fexp_nonneg M1 e1 loc_Exact ltac:(lia)) as H2.
  destruct (shr_fexp prec emax M1 e1 loc_Exact) as [mrs2 e2]. cbn [fst] in H2.
  destruct (shr_m mrs2) as [|p|p]; try lia; [reflexivity|].
  now destruct (e2 <=? emax - prec).
Qed.

Lemma notNegative_spec (v : number) :
  notNegative v = true <->
  match v with
  | S754_finite true _ _ | S754_infinity true => False
  | _ => True
  end.
Proof. destruct v as [[|]|[|]| |[|] m e]; cbv; intuition discriminate. Qed.

Lemma mul_notNegative (a b : number) :
  notNegative a = true -> notNegative b = true -> notNegative (mul a b) = true.
Proof.
  rewrite !notNegative_spec.
  destruct a as [sa|sa| |sa ma ea], b as [sb|sb| |sb mb eb];
    try (destruct sa); try (destruct sb); cbn; try tauto.
  intros _ _.
  pose proof (binary_round_aux_sign false (Z.pos (ma * mb)) (ea + eb)
                loc_Exact ltac:(lia)) as Hs.
  fold prec emax.
  destruct (binary_round_aux prec emax false (Z.pos (ma * mb)) (ea + eb)
              loc_Exact) as [s|s| |s m e]; try subst s; tauto.
Qed.

Lemma square_notNegative (t : number) : notNegative (mul t t) = true.
Proof.
  rewrite notNegative_spec.
  destruct t as [s|s| |s m e]; try (destruct s); cbn; try tauto.
  - pose proof (binary_round_aux_sign false (Z.pos (m * m)) (e + e)
                  loc_Exact ltac:(lia)) as Hs.
    fold prec emax.
    destruct (binary_round_aux prec emax false (Z.pos (m * m)) (e + e)
                loc_Exact) as [s|s| |s m' e']; try subst s; tauto.
  - pose proof (binary_round_aux_sign false (Z.pos (m * m)) (e + e)
                  loc_Exact ltac:(lia)) as Hs.
    fold prec emax.
    destruct (binary_round_aux prec emax false (Z.pos (m * m)) (e + e)
                loc_Exact) as [s|s| |s m' e']; try subst s; tauto.
Qed.

(** Rounding an integer never gives NaN; the result has the sign of the
    integer. *)
Lemma binary_normalize_class (z e : Z) (sz : bool) :
  match binary_normalize prec emax z e sz with
  | S754_nan => False
  | S754_zero s => z = 0 \/ s = (z <? 0)
  | S754_infinity s | S754_finite s _ _ => z <> 0 /\ s = (z <? 0)
  end.
Proof.
  destruct z as [|p|p]; cbn [binary_normalize]; [now left| |].
  - unfold binary_round.
    destruct (shl_align p e (fexp prec emax (Z.pos (digits2_pos p) + e)))
      as [mz ez].
    pose proof (binary_round_aux_sign false (Z.pos mz) ez loc_Exact
                  ltac:(lia)) as Hs.
    destruct (binary_round_aux prec emax false (Z.pos mz) ez loc_Exact)
      as [s|s| |s m' e']; try subst s; try tauto; try (split; [lia|reflexivity]).
  - unfold binary_round.
    destruct (shl_align p e (fexp prec emax (Z.pos (digits2_pos p) + e)))
      as [mz ez].
    pose proof (binary_round_aux_sign true (Z.pos mz) ez loc_Exact
                  ltac:(lia)) as Hs.
    destruct (binary_round_aux prec emax true (Z.pos mz) ez loc_Exact)
      as [s|s| |s m' e']; try subst s; try tauto; try (split; [lia|reflexivity]).
Qed.

Lemma add_notNegative (a b : number) :
  notNegative a = true -> notNegative b = true -> notNegative (add a b) = true.
Proof.
  rewrite !notNegative_spec.
  destruct a as [sa|sa| |sa ma ea], b as [sb|sb| |sb mb eb];
    try (destruct sa); try (destruct sb); cbn; try tauto.
  intros _ _. fold prec emax. unfold binary_round.
  match goal with |- context [shl_align ?p ?e ?e'] =>
    destruct (shl_align p e e') as [mz ez]
  end.
  pose proof (binary_round_aux_sign false (Z.pos mz) ez loc_Exact
                ltac:(lia)) as Hs.
  destruct (binary_round_aux prec emax false (Z.pos mz) ez loc_Exact)
    as [s|s| |s m' e']; try subst s; tauto.
Qed.

Lemma sqrt_notNegative (a : number) : notNegative (sqrt a) = true.
Proof.
  rewrite notNegative_spec.
  destruct a as [s|s| |s m e]; try (destruct s); cbn; try tauto.
  unfold SFsqrt_core_binary.
  set (m' := match _ - 2 * _ with Z.pos _ => _ | 0 => _ | Z.neg _ => 0 end).
  assert (Hm' : 0 <= m').
  { unfold m'. destruct (e - 2 * _) as [|p|p]; try lia.
    apply Z.shiftl_nonneg. lia. }
  pose proof (Z.sqrtrem_spec m' Hm') as Hq.
  destruct (Z.sqrtrem m') as [q r].
  match goal with |- context [binary_round_aux prec emax false q ?e ?l] =>
    pose proof (binary_round_aux_sign false q e l ltac:(lia)) as Hs;
    destruct (binary_round_aux prec emax false q e l) as [s|s| |s m1 e1];
    try subst s; tauto
  end.
Qed.

End NumberSigns.

(* ================================================================== *)
(** * The offset model is not negative *)
(* ================================================================== *)

Section OffsetSign.
Import JsNumber NumberOrder CameraMatrixUtils Samples.

(** The bounds of the offset model are not negative when neither the two
    fractions nor the depth are, whatever the resolution and the focal
    length. *)
Lemma computeMaxOffset_notNegative
    (minDepth focalLengthPx : number) (resolutionPx : number * number)
    (params : TrajectoryParams number) :
  notNegative (maxDisparity params) = true ->
  notNegative (maxZoom params) = true ->
  notNegative minDepth = true ->
  let o := computeMaxOffset minDepth resolutionPx focalLengthPx params in
  notNegative (x o) = true /\ notNegative (y o) = true /\
  notNegative (z o) = true.
Proof.
  destruct resolutionPx as [w h]. intros Hdisp Hzoom Hd. cbv zeta.
  unfold computeMaxOffset.
  cbn [x y z numMul numAdd numDiv numSqrt Arith_number square].
  assert (Hx : notNegative
                 (mul (mul (maxDisparity params)
                           (sqrt (add (mul (div w focalLengthPx)
                                           (div w focalLengthPx))
                                      (mul (div h focalLengthPx)
                                           (div h focalLengthPx)))))
                      minDepth) = true).
  { apply mul_notNegative; [|assumption].
    apply mul_notNegative; [assumption|]. apply sqrt_notNegative. }
  repeat split; try assumption.
  now apply mul_notNegative.
Qed.

Lemma notNegative_ltb (v : number) :
  ltb v pzero = false <-> notNegative v = true.
Proof.
  unfold notNegative. destruct (ltb v pzero); cbn; intuition congruence.
Qed.

(** X1. [computeMaxOffset]: none of the three bounds is negative when
    neither the two fractions nor the depth are, whatever the resolution
    and the focal length (zero, negative, infinite or NaN included). *)
Theorem offsets_not_negative :
  forall (minDepth focalLengthPx : number) (resolutionPx : number * number)
         (params : TrajectoryParams number),
    ltb (maxDisparity params) pzero = false ->
    ltb (maxZoom params) pzero = false ->
    ltb minDepth pzero = false ->
    let o := computeMaxOffset minDepth resolutionPx focalLengthPx params in
    ltb (x o) pzero = false /\ ltb (y o) pzero = false /\
    ltb (z o) pzero = false.
Proof.
  intros d f r p Hdisp Hzoom Hd. cbv zeta.
  rewrite !notNegative_ltb in *.
  now apply computeMaxOffset_notNegative.
Qed.

Lemma offsets_not_negative_witness :
  let o := computeMaxOffset (ofZ 2) sampleResolution (ofZ 500) sampleParams in
  ltb (x o) pzero = false /\ ltb (y o) pzero = false /\
  ltb (z o) pzero = false.
Proof.
  apply (offsets_not_negative (ofZ 2) (ofZ 500) sampleResolution
           sampleParams).
  - vm_compute. reflexivity.
  - vm_compute. reflexivity.
  - vm_compute. reflexivity.
Defined.

End OffsetSign.

Section MaxFloor.
Import JsNumber NumberOrder CameraMatrixUtils GaussianViewer.

Lemma SFcompare_refl (c : number) :
  isNaN c = false -> SFcompare c c = Some Eq.
Proof.
  destruct c as [s|s| |s m e]; cbn; try discriminate; intros _.
  - reflexivity.
  - now destruct s.
  - rewrite Z.compare_refl.
    change (Pos.compare_cont Eq m m) with (Pos.compare m m).
    rewrite Pos.compare_refl. now destruct s.
Qed.

Lemma SFcompare_None (a b : number) :
  SFcompare a b = None <-> isNaN a = true \/ isNaN b = true.
Proof.
  destruct a as [sa|sa| |sa ma ea], b as [sb|sb| |sb mb eb]; cbn;
    intuition discriminate.
Qed.

(** [Math.max(c, v)] is NaN exactly when one argument is; otherwise it is at
    least [c]. *)
Lemma max_floor (c v : number) :
  (isNaN (JsNumber.max c v) = true <-> isNaN c = true \/ isNaN v = true) /\
  (isNaN c = false -> isNaN v = false -> leb c (JsNumber.max c v) = true).
Proof.
  unfold JsNumber.max.
  pose proof (SFcompare_None c v) as Hnone.
  destruct (SFcompare c v) as [[| |]|] eqn:Hc.
  - assert (Hcv : isNaN c = false /\ isNaN v = false).
    { destruct (isNaN c) eqn:?, (isNaN v) eqn:?; try tauto;
        exfalso; assert (@Some comparison Eq = None) by (apply Hnone; tauto);
        discriminate. }
    destruct Hcv as [Hcn Hvn].
    assert (Hle : leb c v = true) by (unfold leb, SFleb; now rewrite Hc).
    assert (Hcc : leb c c = true)
      by (unfold leb, SFleb; now rewrite SFcompare_refl).
    split.
    + destruct c as [[|]|sc| |sc mc ec]; rewrite ?Hvn, ?Hcn; cbn; intuition discriminate.
    + intros _ _. destruct c as [[|]|sc| |sc mc ec]; assumption.
  - assert (Hcv : isNaN c = false /\ isNaN v = false).
    { destruct (isNaN c) eqn:?, (isNaN v) eqn:?; try tauto;
        exfalso; assert (@Some comparison Lt = None) by (apply Hnone; tauto);
        discriminate. }
    destruct Hcv as [Hcn Hvn]. split.
    + rewrite Hvn, Hcn. intuition discriminate.
    + intros _ _. unfold leb, SFleb. now rewrite Hc.
  - assert (Hcv : isNaN c = false /\ isNaN v = false).
    { destruct (isNaN c) eqn:?, (isNaN v) eqn:?; try tauto;
        exfalso; assert (@Some comparison Gt = None) by (apply Hnone; tauto);
        discriminate. }
    destruct Hcv as [Hcn Hvn]. split.
    + rewrite Hvn, Hcn. intuition discriminate.
    + intros _ _. unfold leb, SFleb. now rewrite SFcompare_refl.
  - split; [|intros Hcn Hvn; destruct (proj1 Hnone eq_refl); congruence].
    cbn. split; [intros _; now apply Hnone|reflexivity].
Qed.

End MaxFloor.

(* ================================================================== *)
(** * Floors of the depths of the scene *)
(* ================================================================== *)

Section SceneDepthFloors.
Import JsNumber NumberOrder CameraMatrixUtils GaussianViewer Samples.

(** The three statistics of a non-empty set of kept depths are elements of
    the sorted array. *)
Lemma quantiles_nth (positions : list number) (d0 : number)
      (rest : list number) :
  Z.of_nat (List.length positions) < 2 ^ 53 ->
  filter validDepth (zValues positions) = d0 :: rest ->
  let sorted := sortBy sub (d0 :: rest) in
  let n := Z.of_nat (List.length sorted) in
  let q := computeDepthQuantiles positions defaultQuantile in
  nth_error sorted
    (Z.to_nat (floorZ (mul (ofZ n)
                           (S754_finite false 7205759403792794 (-56)))))
    = Some (min q) /\
  nth_error sorted
    (Z.to_nat (floorZ (mul (ofZ n)
                           (S754_finite false 4503599627370496 (-53)))))
    = Some (focus q) /\
  nth_error sorted
    (Z.to_nat (floorZ (mul (ofZ n)
                           (S754_finite false 8106479329266893 (-53)))))
    = Some (max q).
Proof.
  intros Hlen Hk sorted n q.
  assert (Hperm : Permutation (d0 :: rest) sorted) by apply sortBy_perm.
  assert (Hne : sorted <> []).
  { intros He. rewrite He in Hperm. apply Permutation_sym in Hperm.
    now apply Permutation_nil in Hperm. }
  assert (Hls : List.length sorted = List.length (d0 :: rest))
    by (symmetry; now apply Permutation_length).
  assert (Hbound : Z.of_nat (List.length sorted) < 2 ^ 53).
  { rewrite Hls, <- Hk.
    pose proof (filter_length_le validDepth (zValues positions)).
    pose proof (zValues_length positions). lia. }
  destruct (at_floor_mul sorted 7205759403792794 (-56) Hne Hbound)
    as (vmin & Hamin & Hnmin); [reflexivity|lia|vm_compute; discriminate|].
  destruct (at_floor_mul sorted 4503599627370496 (-53) Hne Hbound)
    as (vfoc & Hafoc & Hnfoc); [reflexivity|lia|vm_compute; discriminate|].
  destruct (at_floor_mul sorted 8106479329266893 (-53) Hne Hbound)
    as (vmax & Hamax & Hnmax); [reflexivity|lia|vm_compute; discriminate|].
  assert (Hq : q = {| min := vmin; focus := vfoc; max := vmax |}).
  { unfold q, computeDepthQuantiles. rewrite Hk. fold sorted.
    change defaultQuantile with (S754_finite false 7205759403792794 (-56)).
    change (sub (ofZ 1) (S754_finite false 7205759403792794 (-56)))
      with (S754_finite false 8106479329266893 (-53)).
    change (dec 5 10) with (S754_finite false 4503599627370496 (-53)).
    now rewrite Hamin, Hafoc, Hamax. }
  rewrite Hq. cbn [min focus max]. unfold n. repeat split; assumption.
Qed.

(** Each statistic is a positive finite number in normal form. *)
Lemma quantiles_positiveFinite (positions : list number) :
  validNumbers positions = true ->
  Z.of_nat (List.length positions) < 2 ^ 53 ->
  let q := computeDepthQuantiles positions defaultQuantile in
  positiveFinite (min q) /\ positiveFinite (focus q) /\ positiveFinite (max q).
Proof.
  intros Hvalid Hlen q.
  destruct (filter validDepth (zValues positions)) as [|d0 rest] eqn:Hk.
  - assert (Hq : q = {| min := ofZ 1; focus := ofZ 2; max := ofZ 10 |}).
    { unfold q, computeDepthQuantiles. now rewrite Hk. }
    rewrite Hq. cbn [min focus max].
    split; [|split].
    + exists 4503599627370496%positive, (-52). split; reflexivity.
    + exists 4503599627370496%positive, (-51). split; reflexivity.
    + exists 5629499534213120%positive, (-49). split; reflexivity.
  - assert (Hkept : Forall positiveFinite (d0 :: rest)).
    { rewrite <- Hk. apply Forall_forall. intros v Hv.
      apply filter_In in Hv as [Hin Hd].
      apply validDepth_positiveFinite; [|assumption].
      unfold validNumbers in Hvalid. rewrite forallb_forall in Hvalid.
      apply Hvalid. now apply zValues_incl. }
    assert (Hsorted : Forall positiveFinite (sortBy sub (d0 :: rest)))
      by (eapply Permutation_Forall; [apply sortBy_perm|assumption]).
    destruct (quantiles_nth positions d0 rest Hlen Hk) as (H1 & H2 & H3).
    rewrite Forall_forall in Hsorted.
    repeat split; apply Hsorted; eapply nth_error_In; eassumption.
Qed.

Lemma positiveFinite_not_NaN (v : number) :
  positiveFinite v -> isNaN v = false /\ isFinite v = true.
Proof. intros (m & e & -> & _). split; reflexivity. Qed.

Lemma max_finite (c v : number) :
  isFinite c = true -> isFinite v = true ->
  isFinite (JsNumber.max c v) = true.
Proof.
  intros Hc Hv. unfold JsNumber.max.
  destruct (SFcompare c v) as [[| |]|] eqn:Hcmp; try assumption.
  - destruct c as [[|]|?| |? ? ?]; assumption.
  - apply SFcompare_None in Hcmp.
    destruct c, v; cbn in *; destruct Hcmp; discriminate.
Qed.

(** X2. The viewer of a single mesh, depths from the vertex positions: for
    a non-empty array of fewer than [2^53] numbers the near depth is at
    least 0.1 and the focus at least 2, and both are finite, whatever the
    bounding box. *)
Theorem depths_from_points_have_floors :
  forall (p0 : number) (ps : list number) (minZ maxZ : number),
    validNumbers (p0 :: ps) = true ->
    Z.of_nat (List.length (p0 :: ps)) < 2 ^ 53 ->
    let s := SingleMeshViewer.setupCameraForScene (Some (p0 :: ps)) minZ maxZ in
    leb (dec 1 10) (minDepth s) = true /\ isFinite (minDepth s) = true /\
    leb (ofZ 2) (depthFocus s) = true /\ isFinite (depthFocus s) = true.
Proof.
  intros p0 ps minZ maxZ Hvalid Hlen. cbv zeta.
  unfold SingleMeshViewer.setupCameraForScene. cbn [minDepth depthFocus].
  destruct (quantiles_positiveFinite (p0 :: ps) Hvalid Hlen) as (Hmin & Hfoc & _).
  apply positiveFinite_not_NaN in Hmin as [Hmn Hmf].
  apply positiveFinite_not_NaN in Hfoc as [Hfn Hff].
  split; [|split; [|split]].
  - apply (proj2 (max_floor (dec 1 10) _)); [vm_compute; reflexivity|exact Hmn].
  - apply max_finite; [vm_compute; reflexivity|exact Hmf].
  - apply (proj2 (max_floor (ofZ 2) _)); [vm_compute; reflexivity|exact Hfn].
  - apply max_finite; [vm_compute; reflexivity|exact Hff].
Qed.

Lemma depths_from_points_have_floors_witness :
  let s := SingleMeshViewer.setupCameraForScene
             (Some (ofZ 0 :: List.tl samplePositions)) NaN NaN in
  leb (dec 1 10) (minDepth s) = true /\ isFinite (minDepth s) = true /\
  leb (ofZ 2) (depthFocus s) = true /\ isFinite (depthFocus s) = true.
Proof.
  apply (depths_from_points_have_floors (ofZ 0) (List.tl samplePositions)
           NaN NaN).
  - vm_compute. reflexivity.
  - vm_compute. reflexivity.
Defined.

(** ** The bounding box *)

Lemma sub_finite_not_NaN (a b : number) :
  isFinite a = true -> isFinite b = true -> isNaN (sub a b) = false.
Proof.
  destruct a as [sa|sa| |sa ma ea], b as [sb|sb| |sb mb eb];
    try discriminate; intros _ _; try reflexivity.
  - now destruct sa, sb.
  - unfold sub. cbn [SFsub]. fold prec emax.
    match goal with |- context [binary_normalize prec emax ?z ?e ?s] =>
      pose proof (binary_normalize_class z e s) as Hc;
      destruct (binary_normalize prec emax z e s); [reflexivity..|contradiction|reflexivity]
    end.
Qed.

Lemma add_finite_not_NaN (a b : number) :
  isFinite a = true -> isNaN b = false -> isNaN (add a b) = false.
Proof.
  destruct a as [sa|sa| |sa ma ea], b as [sb|sb| |sb mb eb];
    try discriminate; intros _ _; try reflexivity.
  - now destruct sa, sb.
  - unfold add. cbn [SFadd]. fold prec emax.
    match goal with |- context [binary_normalize prec emax ?z ?e ?s] =>
      pose proof (binary_normalize_class z e s) as Hc;
      destruct (binary_normalize prec emax z e s); [reflexivity..|contradiction|reflexivity]
    end.
Qed.

Lemma mul_tenth_not_NaN (t : number) :
  isNaN t = false -> isNaN (mul (dec 1 10) t) = false.
Proof.
  change (dec 1 10) with (S754_finite false 7205759403792794 (-56)).
  destruct t as [s|s| |s m e]; try discriminate; intros _; try reflexivity.
  unfold mul. cbn [SFmul]. fold prec emax.
  match goal with |- context [binary_round_aux prec emax ?s ?z ?e ?l] =>
    pose proof (binary_round_aux_sign s z e l ltac:(lia)) as Hc;
    destruct (binary_round_aux prec emax s z e l); [reflexivity..|contradiction|reflexivity]
  end.
Qed.

(** X3. The depths from the bounding box: for a box with finite depths
    the near depth is at least 0.1 and finite and the focus is at least 2;
    a near box depth that is NaN makes both NaN; and the empty box of
    three.js, from +Infinity to -Infinity, gives an infinite near depth and
    a focus that is NaN. *)
Theorem depths_from_box_have_floors :
  forall minZ maxZ : number,
    (isFinite minZ = true -> isFinite maxZ = true ->
     leb (dec 1 10) (minDepth (setupCameraForScene minZ maxZ)) = true /\
     isFinite (minDepth (setupCameraForScene minZ maxZ)) = true /\
     leb (ofZ 2) (depthFocus (setupCameraForScene minZ maxZ)) = true) /\
    (isNaN minZ = true ->
     isNaN (minDepth (setupCameraForScene minZ maxZ)) = true /\
     isNaN (depthFocus (setupCameraForScene minZ maxZ)) = true) /\
    (minZ = Infinity -> maxZ = S754_infinity true ->
     minDepth (setupCameraForScene minZ maxZ) = Infinity /\
     isNaN (depthFocus (setupCameraForScene minZ maxZ)) = true).
Proof.
  intros minZ maxZ. unfold setupCameraForScene. cbn [minDepth depthFocus].
  split; [|split].
  - intros Hmin Hmax.
    assert (Hmn : isNaN minZ = false) by (now destruct minZ).
    split; [|split].
    + apply (proj2 (max_floor (dec 1 10) _));
        [vm_compute; reflexivity|exact Hmn].
    + apply max_finite; [vm_compute; reflexivity|exact Hmin].
    + apply (proj2 (max_floor (ofZ 2) _)); [vm_compute; reflexivity|].
      apply add_finite_not_NaN; [assumption|].
      apply mul_tenth_not_NaN. now apply sub_finite_not_NaN.
  - intros Hnan. destruct minZ; try discriminate. split; reflexivity.
  - intros -> ->. vm_compute. split; reflexivity.
Qed.

Lemma depths_from_box_have_floors_witness :
  leb (dec 1 10) (minDepth (setupCameraForScene (ofZ 1) (ofZ 5))) = true /\
  isFinite (minDepth (setupCameraForScene (ofZ 1) (ofZ 5))) = true /\
  leb (ofZ 2) (depthFocus (setupCameraForScene (ofZ 1) (ofZ 5))) = true.
Proof.
  apply (depths_from_box_have_floors (ofZ 1) (ofZ 5)).
  - vm_compute. reflexivity.
  - vm_compute. reflexivity.
Defined.

(** ** The focal length *)

(** X4. The focal length the viewer uses: a focal length of the metadata
    that is greater than 0 is used as it is; otherwise the estimate from
    the image height is used, so that with an image height that is an
    integer between 1 and [2^53 - 1] the result is greater than 0 in both
    cases, and with height 0 and no focal length in the metadata the result
    is 0. *)
Theorem scene_focal_length_positive :
  forall (metadata : PlyMetadata.PlyMetadata),
    (ltb pzero (PlyMetadata.focalLength metadata) = true ->
     SingleMeshViewer.sceneFocalLength metadata = PlyMetadata.focalLength metadata) /\
    (forall h, 0 < h < 2 ^ 53 ->
       snd (PlyMetadata.imageSize metadata) = ofZ h ->
       ltb pzero (SingleMeshViewer.sceneFocalLength metadata) = true)  /\
    (ltb pzero (PlyMetadata.focalLength metadata) = false ->
     snd (PlyMetadata.imageSize metadata) = pzero ->
     SingleMeshViewer.sceneFocalLength metadata = pzero).
Proof.
  intros [ex intr [width height] fl cs hm]. unfold SingleMeshViewer.sceneFocalLength.
  cbn [PlyMetadata.focalLength PlyMetadata.imageSize snd].
  split; [now intros ->|]. split.
  - intros h Hh ->.
    destruct (ltb pzero fl) eqn:Hf; [assumption|].
    unfold PlyMetadata.estimateFocalLength. cbv zeta. cbn [snd].
    destruct (ofZ_exact h Hh) as (mz & ez & -> & Hez & _).
    change (dec 107 100) with (S754_finite false 4818851601286431 (-52)).
    unfold mul. cbn [SFmul xorb]. fold prec emax.
    destruct (binary_round_aux_upper false (mz * 4818851601286431)
                (ez + -52) ltac:(lia)) as (M & e2 & -> & _).
    now destruct (e2 <=? emax - prec).
  - intros -> ->. reflexivity.
Qed.

Lemma scene_focal_length_positive_witness :
  ltb pzero (SingleMeshViewer.sceneFocalLength PlyMetadata.DEFAULT_METADATA)
  = true.
Proof.
  apply (proj1 (proj2 (scene_focal_length_positive
                         PlyMetadata.DEFAULT_METADATA)) 480).
  - lia.
  - reflexivity.
Defined.

End SceneDepthFloors.

(* ================================================================== *)
(** * From the scene to the offsets of the trajectory *)
(* ================================================================== *)

Section LoadedOffsets.
Import JsNumber NumberOrder CameraMatrixUtils GaussianViewer Samples.

Lemma max_tenth_not_negative (v : number) :
  ltb (JsNumber.max (dec 1 10) v) pzero = false.
Proof.
  destruct (max_floor (dec 1 10) v) as [Hnan Hle].
  destruct (isNaN v) eqn:Hv.
  - assert (H : isNaN (JsNumber.max (dec 1 10) v) = true)
      by (apply Hnan; now right).
    destruct (JsNumber.max (dec 1 10) v); try discriminate. reflexivity.
  - specialize (Hle eq_refl eq_refl).
    change (dec 1 10) with (S754_finite false 7205759403792794 (-56)) in Hle.
    destruct (JsNumber.max _ v) as [[|]|[|]| |[|] m e];
      try reflexivity; discriminate.
Qed.

(** X5. The viewer of a single mesh, from the depths of the scene to the
    offsets of the trajectory: whatever the positions, the bounding box and
    the metadata, the three offsets are not negative when the two fractions
    of the parameters are not. *)
Theorem loaded_offsets_not_negative :
  forall (positions : option (list number)) (minZ maxZ : number)
         (metadata : option PlyMetadata.PlyMetadata) (focalLength : number)
         (params : TrajectoryParams number),
    ltb (maxDisparity params) pzero = false ->
    ltb (maxZoom params) pzero = false ->
    let o := SingleMeshViewer.loadPlyOffsets positions minZ maxZ metadata focalLength params in
    ltb (x o) pzero = false /\ ltb (y o) pzero = false /\
    ltb (z o) pzero = false.
Proof.
  intros positions minZ maxZ metadata f params Hd Hz.
  unfold SingleMeshViewer.loadPlyOffsets, SingleMeshViewer.generateTrajectory.
  rewrite !notNegative_ltb in *.
  apply computeMaxOffset_notNegative; try assumption.
  rewrite <- notNegative_ltb.
  unfold SingleMeshViewer.setupCameraForScene, setupCameraForScene.
  destruct positions as [[|p ps]|]; cbn [minDepth];
    apply max_tenth_not_negative.
Qed.

Lemma loaded_offsets_not_negative_witness :
  let o := SingleMeshViewer.loadPlyOffsets (Some samplePositions) NaN NaN
             (Some PlyMetadata.DEFAULT_METADATA) (ofZ 512) sampleParams in
  ltb (x o) pzero = false /\ ltb (y o) pzero = false /\
  ltb (z o) pzero = false.
Proof.
  apply (loaded_offsets_not_negative (Some samplePositions) NaN NaN
           (Some PlyMetadata.DEFAULT_METADATA) (ofZ 512) sampleParams).
  - vm_compute. reflexivity.
  - vm_compute. reflexivity.
Defined.

End LoadedOffsets.

(* ================================================================== *)
(** * Order and the depth statistics *)
(* ================================================================== *)

Section DepthOrder.
Import JsNumber NumberOrder CameraMatrixUtils MoreSamples.

Lemma leb_key (a b : number) :
  positiveFinite a -> positiveFinite b ->
  (leb a b = true <-> keyLe a b).
Proof.
  intros (ma & ea & -> & Ha) (mb & eb & -> & Hb).
  rewrite (leb_aligned ma ea mb eb Ha Hb).
  apply bounded_spec in Ha as (Hea & _). apply bounded_spec in Hb as (Heb & _).
  unfold aligned, keyLe, keyOf. cbn [fst snd].
  set (mn := Z.min ea eb).
  replace (ea + 1074) with ((ea - mn) + (mn + 1074)) by lia.
  replace (eb + 1074) with ((eb - mn) + (mn + 1074)) by lia.
  rewrite (Z.pow_add_r 2 (ea - mn) (mn + 1074)) by lia.
  rewrite (Z.pow_add_r 2 (eb - mn) (mn + 1074)) by lia.
  rewrite !Z.mul_assoc.
  assert (0 < 2 ^ (mn + 1074)) by (apply Z.pow_pos_nonneg; lia).
  split; intros Hle.
  - apply Z.mul_le_mono_nonneg_r; lia.
  - apply Z.mul_le_mono_pos_r in Hle; assumption.
Qed.

Lemma leb_antisym (a b : number) :
  positiveFinite a -> positiveFinite b ->
  leb a b = true -> leb b a = true -> a = b.
Proof.
  intros (ma & ea & -> & _) (mb & eb & -> & _).
  unfold leb, SFleb. cbn [SFcompare].
  rewrite (Z.compare_antisym ea eb).
  destruct (Z.compare_spec ea eb) as [He|He|He]; cbn [CompOpp];
    try discriminate.
  subst eb.
  change (Pos.compare_cont Eq mb ma) with (Pos.compare mb ma).
  change (Pos.compare_cont Eq ma mb) with (Pos.compare ma mb).
  rewrite (Pos.compare_antisym ma mb).
  destruct (Pos.compare_spec ma mb) as [Hm|Hm|Hm]; cbn [CompOpp];
    try discriminate.
  now subst.
Qed.

Lemma keyLe_trans : Relations_1.Transitive keyLe.
Proof. intros a b c. unfold keyLe. lia. Qed.

Lemma sorted_keyLe (l : list number) :
  Forall positiveFinite l -> Sorted numLe l -> StronglySorted keyLe l.
Proof.
  intros Hpf Hs. apply Sorted_StronglySorted; [exact keyLe_trans|].
  induction Hs as [|a l Hs IH Hhd]; [constructor|].
  inversion Hpf as [|? ? Ha Hl]; subst.
  constructor; [now apply IH|].
  destruct Hhd as [|b l' Hab]; constructor.
  inversion Hl; subst. now apply leb_key.
Qed.

(** In a sorted array an element is at most the elements after it. *)
Lemma stronglySorted_nth (l : list number) :
  StronglySorted keyLe l ->
  forall i j a b, (i <= j)%nat ->
    nth_error l i = Some a -> nth_error l j = Some b -> keyLe a b.
Proof.
  induction 1 as [|c l Hs IH Hall]; intros i j a b Hij Hi Hj.
  - now destruct i.
  - destruct i as [|i], j as [|j]; cbn in Hi, Hj; try lia.
    + injection Hi as <-. injection Hj as <-. unfold keyLe. lia.
    + injection Hi as <-. rewrite Forall_forall in Hall.
      apply Hall. eapply nth_error_In; eassumption.
    + eapply IH; [|eassumption|eassumption]. lia.
Qed.

(** Two sorted arrangements of the same positive numbers are the same. *)
Lemma sorted_unique (l1 : list number) :
  forall l2, Forall positiveFinite l1 ->
    Sorted numLe l1 -> Sorted numLe l2 -> Permutation l1 l2 -> l1 = l2.
Proof.
  induction l1 as [|a t1 IH]; intros l2 Hpf H1 H2 Hperm.
  - apply Permutation_nil in Hperm. now subst.
  - destruct l2 as [|b t2];
      [apply Permutation_sym, Permutation_nil in Hperm; discriminate|].
    assert (Hpf2 : Forall positiveFinite (b :: t2))
      by (eapply Permutation_Forall; eassumption).
    pose proof (sorted_keyLe _ Hpf H1) as S1.
    pose proof (sorted_keyLe _ Hpf2 H2) as S2.
    inversion S1 as [|? ? S1t Ha]; subst.
    inversion S2 as [|? ? S2t Hb]; subst.
    inversion Hpf as [|? ? Hpa Hpt]; subst.
    inversion Hpf2 as [|? ? Hpb Hpt2]; subst.
    rewrite Forall_forall in Ha, Hb.
    assert (Hab : a = b).
    { assert (Hin1 : In a (b :: t2))
        by (eapply Permutation_in; [exact Hperm|now left]).
      assert (Hin2 : In b (a :: t1))
        by (eapply Permutation_in;
            [apply Permutation_sym; exact Hperm|now left]).
      destruct Hin1 as [->|Hin1]; [reflexivity|].
      destruct Hin2 as [->|Hin2]; [reflexivity|].
      apply leb_antisym; try assumption; apply leb_key; auto. }
    subst b. f_equal.
    apply IH; try assumption.
    + now inversion H1.
    + now inversion H2.
    + eapply Permutation_cons_inv; eassumption.
Qed.

Lemma filter_perm {A : Type} (f : A -> bool) (l1 l2 : list A) :
  Permutation l1 l2 -> Permutation (filter f l1) (filter f l2).
Proof.
  induction 1 as [|a l1 l2 Hp IH|a b l|l1 l2 l3 H12 IH12 H23 IH23]; cbn.
  - constructor.
  - destruct (f a); [now constructor|assumption].
  - destruct (f a), (f b); try reflexivity. apply perm_swap.
  - etransitivity; eassumption.
Qed.

(** X6. [computeDepthQuantiles] depends on the depth components only as
    a collection: two arrays whose depth components are the same up to
    their order give the same statistics, for every quantile. *)
Theorem quantiles_of_permuted_depths :
  forall (p1 p2 : list number) (quantile : number),
    validNumbers p1 = true ->
    Permutation (zValues p1) (zValues p2) ->
    computeDepthQuantiles p1 quantile = computeDepthQuantiles p2 quantile.
Proof.
  intros p1 p2 quantile Hvalid Hperm.
  pose proof (filter_perm validDepth _ _ Hperm) as Hk.
  assert (Hpf : Forall positiveFinite (filter validDepth (zValues p1))).
  { apply Forall_forall. intros v Hv.
    apply filter_In in Hv as [Hin Hd].
    apply validDepth_positiveFinite; [|assumption].
    unfold validNumbers in Hvalid. rewrite forallb_forall in Hvalid.
    apply Hvalid. now apply zValues_incl. }
  assert (Hpf2 : Forall positiveFinite (filter validDepth (zValues p2)))
    by (eapply Permutation_Forall; eassumption).
  assert (Hsort : sortBy sub (filter validDepth (zValues p1))
                  = sortBy sub (filter validDepth (zValues p2))).
  { apply sorted_unique.
    - eapply Permutation_Forall; [apply sortBy_perm|assumption].
    - now apply sortBy_sorted.
    - now apply sortBy_sorted.
    - rewrite <- (sortBy_perm sub _), <- (sortBy_perm sub _). assumption. }
  unfold computeDepthQuantiles.
  destruct (filter validDepth (zValues p1)) as [|a1 r1] eqn:E1,
           (filter validDepth (zValues p2)) as [|a2 r2] eqn:E2.
  - reflexivity.
  - apply Permutation_nil in Hk. discriminate.
  - apply Permutation_sym, Permutation_nil in Hk. discriminate.
  - now rewrite Hsort.
Qed.

Lemma quantiles_of_permuted_depths_witness :
  computeDepthQuantiles twoPoints defaultQuantile
  = computeDepthQuantiles twoPointsSwapped defaultQuantile.
Proof.
  apply (quantiles_of_permuted_depths twoPoints twoPointsSwapped
           defaultQuantile).
  - vm_compute. reflexivity.
  - vm_compute. apply perm_swap.
Defined.

End DepthOrder.

Section QuantileOrder.
Import JsNumber NumberOrder CameraMatrixUtils Samples.

(** Rounding a positive mantissa [p] at exponent [e], from both sides: the
    result is less than two units of the dropped digits below the exact
    value and at most one above it, and it is not below the value cut to
    the digits kept. *)
Lemma binary_round_aux_bounds (sx : bool) (p : positive) (e : Z) :
  -1074 <= e ->
  exists (M : positive) (e2 : Z),
    binary_round_aux prec emax sx (Z.pos p) e loc_Exact
      = (if e2 <=? emax - prec then S754_finite sx M e2
         else S754_infinity sx) /\
    e <= e2 <= e + excess (Z.pos p) + 1 /\
    Z.pos M * 2 ^ (e2 - e) <= Z.pos p + 2 ^ excess (Z.pos p) /\
    Z.pos p < Z.pos M * 2 ^ (e2 - e) + 2 * 2 ^ excess (Z.pos p) /\
    Z.pos p / 2 ^ excess (Z.pos p) * 2 ^ excess (Z.pos p)
      <= Z.pos M * 2 ^ (e2 - e).
Proof.
  intros He. unfold binary_round_aux.
  destruct (shr_fexp_exact p e He) as (He1 & Hm1 & Hl1).
  destruct (shr_fexp prec emax (Z.pos p) e loc_Exact) as [mrs1 e1].
  cbn [fst snd] in He1, Hm1, Hl1.
  set (s1 := excess (Z.pos p)) in *.
  pose proof (excess_nonneg (Z.pos p)) as Hs1. fold s1 in Hs1.
  pose proof (round_nearest_even_bounds (shr_m mrs1)
                (loc_of_shr_record mrs1)) as HM1.
  pose proof (div_pow2_pos p) as Hpos1. fold s1 in Hpos1.
  set (M1 := round_nearest_even (shr_m mrs1) (loc_of_shr_record mrs1)) in *.
  destruct M1 as [|P1|P1] eqn:HP1; try lia.
  assert (He1' : -1074 <= e1) by lia.
  destruct (shr_fexp_exact P1 e1 He1') as (He2 & Hm2 & Hl2).
  destruct (shr_fexp prec emax (Z.pos P1) e1 loc_Exact) as [mrs2 e2].
  cbn [fst snd] in He2, Hm2, Hl2.
  set (s2 := excess (Z.pos P1)) in *.
  pose proof (excess_nonneg (Z.pos P1)) as Hs2. fold s2 in Hs2.
  pose proof (div_pow2_pos P1) as Hpos2. fold s2 in Hpos2.
  rewrite <- Hm2 in Hpos2.
  destruct (shr_m mrs2) as [|M2|M2] eqn:HM2; try lia.
  exists M2, e2.
  assert (Hq : Z.pos p / 2 ^ s1 < 2 ^ 53).
  { pose proof (digits_upper p) as Hup.
    apply Z.div_lt_upper_bound; [apply Z.pow_pos_nonneg; lia|].
    rewrite <- Z.pow_add_r by lia.
    eapply Z.lt_le_trans; [exact Hup|].
    apply Z.pow_le_mono_r; [lia|].
    unfold s1, excess. cbn [Zdigits2]. lia. }
  assert (Hs2' : s2 <= 1).
  { unfold s2, excess. cbn [Zdigits2].
    assert (Z.pos (digits2_pos P1) <= 54); [|lia].
    apply digits_le. change (2 ^ 54) with (2 * 2 ^ 53). lia. }
  assert (H1 : 0 < 2 ^ s1) by (apply Z.pow_pos_nonneg; lia).
  assert (H2 : 0 < 2 ^ s2) by (apply Z.pow_pos_nonneg; lia).
  assert (Hfl : Z.pos M2 * 2 ^ s2 <= Z.pos P1).
  { rewrite Hm2, Z.mul_comm. apply Z.mul_div_le. assumption. }
  assert (Hfl1 : Z.pos p / 2 ^ s1 * 2 ^ s1 <= Z.pos p).
  { rewrite Z.mul_comm. apply Z.mul_div_le. assumption. }
  assert (Hce : Z.pos P1 < (Z.pos M2 + 1) * 2 ^ s2).
  { rewrite Hm2. pose proof (Z.div_mod (Z.pos P1) (2 ^ s2) ltac:(lia)).
    pose proof (Z.mod_pos_bound (Z.pos P1) (2 ^ s2) H2). lia. }
  assert (Hce1 : Z.pos p < (Z.pos p / 2 ^ s1 + 1) * 2 ^ s1).
  { pose proof (Z.div_mod (Z.pos p) (2 ^ s1) ltac:(lia)).
    pose proof (Z.mod_pos_bound (Z.pos p) (2 ^ s1) H1). lia. }
  replace (e2 - e) with (s2 + s1) by lia.
  rewrite Z.pow_add_r by lia.
  split; [reflexivity|]. split; [lia|]. split; [nia|].
  split.
  - (* [p < (q1 + 1) 2^s1 <= (P1 + 1) 2^s1 <= (M2 + 1) 2^s2 2^s1] *)
    assert (Hs2p : 2 ^ s2 <= 2).
    { change 2 with (2 ^ 1) at 2. apply Z.pow_le_mono_r; lia. }
    assert (Z.pos P1 + 1 <= (Z.pos M2 + 1) * 2 ^ s2) by lia.
    assert (Z.pos p < (Z.pos P1 + 1) * 2 ^ s1) by nia.
    assert ((Z.pos P1 + 1) * 2 ^ s1 <= (Z.pos M2 + 1) * 2 ^ s2 * 2 ^ s1)
      by (apply Z.mul_le_mono_nonneg_r; lia).
    nia.
  - (* the second shift drops a digit only from [2^53], which is even *)
    assert (Hkeep : Z.pos p / 2 ^ s1 <= Z.pos M2 * 2 ^ s2).
    { destruct (Z.eq_dec s2 0) as [Hz|Hnz].
      - rewrite Hm2, Hz, Z.pow_0_r, Z.div_1_r. lia.
      - assert (Hone : s2 = 1) by lia.
        assert (Hbig : 2 ^ 53 <= Z.pos P1).
        { pose proof (digits_lower P1) as Hlo.
          assert (54 <= Z.pos (digits2_pos P1))
            by (unfold s2, excess in Hone; cbn [Zdigits2] in Hone; lia).
          eapply Z.le_trans; [|exact Hlo].
          apply Z.pow_le_mono_r; lia. }
        assert (HP : Z.pos P1 = 2 ^ 53) by lia.
        rewrite Hm2, HP, Hone.
        change (2 ^ 53 / 2 ^ 1 * 2 ^ 1) with (2 ^ 53). lia. }
    rewrite Z.mul_assoc.
    apply Z.mul_le_mono_nonneg_r; [lia|exact Hkeep].
Qed.

(** The index [floor (n * c)] between two integers. *)
Lemma floor_mul_bounds (n : Z) (mc : positive) (ec : Z) (K : Z) :
  0 < n < 2 ^ 53 ->
  Z.pos mc < 2 ^ 53 -> -64 <= ec < 0 -> Z.pos mc + 3 <= 2 ^ (- ec) ->
  let i := floorZ (mul (ofZ n) (S754_finite false mc ec)) in
  (n * (Z.pos mc + 2) < (K + 1) * 2 ^ (- ec) -> i <= K) /\
  (4 < Z.pos mc -> K * 2 ^ (- ec) <= n * (Z.pos mc - 4) -> K <= i).
Proof.
  intros Hn Hmc Hec Hc.
  destruct (ofZ_exact n Hn) as (mz & ez & -> & Hez & Hmz & Hrange).
  unfold mul. cbn [SFmul xorb].
  destruct (binary_round_aux_bounds false (mz * mc) (ez + ec) ltac:(lia))
    as (M & e2 & Hr & He2 & Hup & Hlo & _).
  fold prec emax. rewrite Hr. clear Hr.
  assert (Hprod : Z.pos (mz * mc) < 2 ^ 106).
  { rewrite Pos2Z.inj_mul. change (2 ^ 106) with (2 ^ 53 * 2 ^ 53).
    apply Z.mul_lt_mono_nonneg; lia. }
  assert (Hex : 0 <= excess (Z.pos (mz * mc)) <= 53).
  { split; [apply excess_nonneg|]. unfold excess. cbn [Zdigits2].
    pose proof (digits_le _ _ Hprod). lia. }
  set (s := excess (Z.pos (mz * mc))) in *.
  destruct (Z.leb_spec e2 (emax - prec)) as [_|Hbad];
    [|unfold emax, prec in Hbad; lia].
  assert (Hs : 2 ^ s <= 2 ^ 53) by (apply Z.pow_le_mono_r; lia).
  rewrite Pos2Z.inj_mul in Hup, Hlo.
  assert (H52 : 0 < 2 ^ 52) by (apply Z.pow_pos_nonneg; lia).
  change (2 ^ 53) with (2 * 2 ^ 52) in Hs, Hrange.
  assert (Hez' : 0 < 2 ^ (- ez)) by (apply Z.pow_pos_nonneg; lia).
  assert (Hec' : 0 < 2 ^ (- ec)) by (apply Z.pow_pos_nonneg; lia).
  (* everything at the scale [2^(ez + ec)] *)
  set (V := Z.pos M * 2 ^ (e2 - (ez + ec))) in *.
  assert (HupV : V <= Z.pos mz * (Z.pos mc + 2)) by nia.
  assert (HloV : Z.pos mz * (Z.pos mc - 4) < V) by nia.
  cbv zeta. unfold floorZ.
  assert (Hscale : 2 ^ (- (ez + ec)) = 2 ^ (- ez) * 2 ^ (- ec)).
  { replace (- (ez + ec)) with (- ez + - ec) by lia.
    apply Z.pow_add_r; lia. }
  split.
  - intros HK.
    assert (HV : V < (K + 1) * 2 ^ (- (ez + ec))).
    { rewrite Hscale. eapply Z.le_lt_trans; [exact HupV|].
      rewrite Hmz. nia. }
    destruct (Z.leb_spec 0 e2) as [Hpos|Hneg].
    + unfold V in HV.
      replace (e2 - (ez + ec)) with (e2 + - (ez + ec)) in HV by lia.
      rewrite Z.pow_add_r, Z.mul_assoc in HV by lia.
      apply Z.mul_lt_mono_pos_r in HV; [lia|].
      apply Z.pow_pos_nonneg; lia.
    + assert (H2 : 0 < 2 ^ (- e2)) by (apply Z.pow_pos_nonneg; lia).
      assert (Z.pos M / 2 ^ (- e2) < K + 1); [|lia].
      apply Z.div_lt_upper_bound; [assumption|].
      unfold V in HV.
      replace (- (ez + ec)) with (- e2 + (e2 - (ez + ec))) in HV by lia.
      rewrite Z.pow_add_r, Z.mul_assoc in HV by lia.
      apply Z.mul_lt_mono_pos_r in HV; [lia|].
      apply Z.pow_pos_nonneg; lia.
  - intros H4 HK.
    assert (HV : K * 2 ^ (- (ez + ec)) < V).
    { rewrite Hscale. eapply Z.le_lt_trans; [|exact HloV].
      rewrite Hmz. nia. }
    destruct (Z.leb_spec 0 e2) as [Hpos|Hneg].
    + unfold V in HV.
      replace (e2 - (ez + ec)) with (e2 + - (ez + ec)) in HV by lia.
      rewrite Z.pow_add_r, Z.mul_assoc in HV by lia.
      apply Z.mul_lt_mono_pos_r in HV; [lia|].
      apply Z.pow_pos_nonneg; lia.
    + assert (H2 : 0 < 2 ^ (- e2)) by (apply Z.pow_pos_nonneg; lia).
      apply Z.div_le_lower_bound; [assumption|].
      unfold V in HV.
      replace (- (ez + ec)) with (- e2 + (e2 - (ez + ec))) in HV by lia.
      rewrite Z.pow_add_r, Z.mul_assoc in HV by lia.
      apply Z.mul_lt_mono_pos_r in HV; [lia|].
      apply Z.pow_pos_nonneg; lia.
Qed.

(** The index [floor (n * c)] is the integer [K] when the exact product
    lies in [[K, K + 1)] with room for one rounding above. *)
Lemma floor_mul_exact (n : Z) (mc : positive) (ec : Z) (K : Z) :
  0 < n < 2 ^ 53 ->
  Z.pos mc < 2 ^ 53 -> -64 <= ec <= -53 -> Z.pos mc + 3 <= 2 ^ (- ec) ->
  0 <= K -> K * 2 ^ (- ec) <= n * Z.pos mc ->
  n * (Z.pos mc + 2) < (K + 1) * 2 ^ (- ec) ->
  floorZ (mul (ofZ n) (S754_finite false mc ec)) = K.
Proof.
  intros Hn Hmc Hec Hc HK Hlow Hhigh.
  destruct (floor_mul_bounds n mc ec K Hn Hmc ltac:(lia) Hc) as [Hle _].
  specialize (Hle Hhigh). cbv zeta in Hle.
  apply Z.le_antisymm; [exact Hle|]. clear Hle.
  destruct (ofZ_exact n Hn) as (mz & ez & -> & Hez & Hmz & Hrange).
  unfold mul. cbn [SFmul xorb].
  destruct (binary_round_aux_bounds false (mz * mc) (ez + ec) ltac:(lia))
    as (M & e2 & Hr & He2 & _ & _ & Hcut).
  fold prec emax. rewrite Hr. clear Hr.
  assert (Hprod : Z.pos (mz * mc) < 2 ^ 106).
  { rewrite Pos2Z.inj_mul. change (2 ^ 106) with (2 ^ 53 * 2 ^ 53).
    apply Z.mul_lt_mono_nonneg; lia. }
  assert (Hex : 0 <= excess (Z.pos (mz * mc)) <= 53).
  { split; [apply excess_nonneg|]. unfold excess. cbn [Zdigits2].
    pose proof (digits_le _ _ Hprod). lia. }
  set (s := excess (Z.pos (mz * mc))) in *.
  destruct (Z.leb_spec e2 (emax - prec)) as [_|Hbad];
    [|unfold emax, prec in Hbad; lia].
  assert (Hs : 0 < 2 ^ s) by (apply Z.pow_pos_nonneg; lia).
  (* [K 2^-(ez + ec)] is a multiple of [2^s] that is at most the product *)
  assert (Hsplit : 2 ^ (- (ez + ec)) = 2 ^ (- (ez + ec) - s) * 2 ^ s).
  { rewrite <- Z.pow_add_r by lia. f_equal. lia. }
  assert (Hscale : 2 ^ (- (ez + ec)) = 2 ^ (- ez) * 2 ^ (- ec)).
  { replace (- (ez + ec)) with (- ez + - ec) by lia.
    apply Z.pow_add_r; lia. }
  assert (Hez' : 0 < 2 ^ (- ez)) by (apply Z.pow_pos_nonneg; lia).
  assert (HKp : K * 2 ^ (- (ez + ec)) <= Z.pos (mz * mc)).
  { rewrite Hscale, Pos2Z.inj_mul, Hmz. nia. }
  assert (HKcut : K * 2 ^ (- (ez + ec))
                  <= Z.pos (mz * mc) / 2 ^ s * 2 ^ s).
  { rewrite Hsplit, Z.mul_assoc.
    apply Z.mul_le_mono_nonneg_r; [lia|].
    apply Z.div_le_lower_bound; [assumption|].
    rewrite Hsplit in HKp. lia. }
  assert (HV : K * 2 ^ (- (ez + ec)) <= Z.pos M * 2 ^ (e2 - (ez + ec)))
    by lia.
  unfold floorZ.
  destruct (Z.leb_spec 0 e2) as [Hpos|Hneg].
  - replace (e2 - (ez + ec)) with (e2 + - (ez + ec)) in HV by lia.
    rewrite Z.pow_add_r, Z.mul_assoc in HV by lia.
    apply Z.mul_le_mono_pos_r in HV; [lia|].
    apply Z.pow_pos_nonneg; lia.
  - assert (H2 : 0 < 2 ^ (- e2)) by (apply Z.pow_pos_nonneg; lia).
    apply Z.div_le_lower_bound; [assumption|].
    replace (- (ez + ec)) with (- e2 + (e2 - (ez + ec))) in HV by lia.
    rewrite Z.pow_add_r, Z.mul_assoc in HV by lia.
    apply Z.mul_le_mono_pos_r in HV; [lia|].
    apply Z.pow_pos_nonneg; lia.
Qed.

(** For fewer than [2^32] elements the three indices are the integer
    quotients [n / 10], [n / 2] and [9 n / 10]: the rounding of the
    products does not move them. *)
Lemma quantile_indices_exact (n : Z) :
  0 < n < 2 ^ 32 ->
  floorZ (mul (ofZ n) (S754_finite false 7205759403792794 (-56))) = n / 10 /\
  floorZ (mul (ofZ n) (S754_finite false 4503599627370496 (-53))) = n / 2 /\
  floorZ (mul (ofZ n) (S754_finite false 8106479329266893 (-53)))
    = 9 * n / 10.
Proof.
  intros Hn.
  assert (Hn53 : 0 < n < 2 ^ 53).
  { split; [lia|]. eapply Z.lt_trans; [apply Hn|]. reflexivity. }
  change (2 ^ 32) with 4294967296 in Hn.
  pose proof (Z.div_mod n 10 ltac:(lia)) as Hd.
  pose proof (Z.mod_pos_bound n 10 ltac:(lia)) as Hr.
  pose proof (Z.div_mod n 2 ltac:(lia)) as Hd2.
  pose proof (Z.mod_pos_bound n 2 ltac:(lia)) as Hr2.
  pose proof (Z.div_mod (9 * n) 10 ltac:(lia)) as Hd9.
  pose proof (Z.mod_pos_bound (9 * n) 10 ltac:(lia)) as Hr9.
  split; [|split]; apply floor_mul_exact; try assumption;
    try reflexivity; try lia;
    try (vm_compute; discriminate);
    change (2 ^ (- -56)) with 72057594037927936;
    change (2 ^ (- -53)) with 9007199254740992; lia.
Qed.

(** The three indices are in order: [floor (n * 0.1) <= n / 4 <=
    floor (n * 0.5) <= 3 n / 4 <= floor (n * 0.9)]. *)
Lemma quantile_indices_ordered (n : Z) :
  0 < n < 2 ^ 53 ->
  floorZ (mul (ofZ n) (S754_finite false 7205759403792794 (-56)))
    <= floorZ (mul (ofZ n) (S754_finite false 4503599627370496 (-53)))
    <= floorZ (mul (ofZ n) (S754_finite false 8106479329266893 (-53))).
Proof.
  intros Hn.
  pose proof (Z.div_mod n 4 ltac:(lia)) as Hd.
  pose proof (Z.mod_pos_bound n 4 ltac:(lia)) as Hr.
  pose proof (Z.div_mod (3 * n) 4 ltac:(lia)) as Hd3.
  pose proof (Z.mod_pos_bound (3 * n) 4 ltac:(lia)) as Hr3.
  destruct (floor_mul_bounds n 7205759403792794 (-56) (n / 4) Hn)
    as [Hmin _]; [reflexivity|lia|vm_compute; discriminate|].
  destruct (floor_mul_bounds n 4503599627370496 (-53) (n / 4) Hn)
    as [_ Hfoc1]; [reflexivity|lia|vm_compute; discriminate|].
  destruct (floor_mul_bounds n 4503599627370496 (-53) (3 * n / 4) Hn)
    as [Hfoc2 _]; [reflexivity|lia|vm_compute; discriminate|].
  destruct (floor_mul_bounds n 8106479329266893 (-53) (3 * n / 4) Hn)
    as [_ Hmax]; [reflexivity|lia|vm_compute; discriminate|].
  cbv zeta in *.
  change (2 ^ (- -56)) with 72057594037927936 in *.
  change (2 ^ (- -53)) with 9007199254740992 in *.
  split.
  - transitivity (n / 4); [apply Hmin; lia|apply Hfoc1; lia].
  - transitivity (3 * n / 4); [apply Hfoc2; lia|apply Hmax; lia].
Qed.

(** X7. [computeDepthQuantiles] with the default quantile, on an array of
    fewer than [2^53] numbers: the statistics are in order,
    [0 < min <= focus <= max]. *)
Theorem quantiles_ordered :
  forall positions : list number,
    validNumbers positions = true ->
    Z.of_nat (List.length positions) < 2 ^ 53 ->
    let q := computeDepthQuantiles positions defaultQuantile in
    ltb pzero (min q) = true /\
    leb (min q) (focus q) = true /\ leb (focus q) (max q) = true.
Proof.
  intros positions Hvalid Hlen q.
  destruct (quantiles_positiveFinite positions Hvalid Hlen)
    as (Pmin & Pfoc & Pmax).
  fold q in Pmin, Pfoc, Pmax.
  split.
  { destruct Pmin as (m & e & -> & _). reflexivity. }
  destruct (filter validDepth (zValues positions)) as [|d0 rest] eqn:Hk.
  - assert (Hq : q = {| min := ofZ 1; focus := ofZ 2; max := ofZ 10 |}).
    { unfold q, computeDepthQuantiles. now rewrite Hk. }
    rewrite Hq. split; vm_compute; reflexivity.
  - destruct (quantiles_nth positions d0 rest Hlen Hk) as (H1 & H2 & H3).
    fold q in H1, H2, H3.
    assert (Hkept : Forall positiveFinite (d0 :: rest)).
    { rewrite <- Hk. apply Forall_forall. intros v Hv.
      apply filter_In in Hv as [Hin Hd].
      apply validDepth_positiveFinite; [|assumption].
      unfold validNumbers in Hvalid. rewrite forallb_forall in Hvalid.
      apply Hvalid. now apply zValues_incl. }
    assert (Hperm : Permutation (d0 :: rest) (sortBy sub (d0 :: rest)))
      by apply sortBy_perm.
    assert (Hsorted : Forall positiveFinite (sortBy sub (d0 :: rest)))
      by (eapply Permutation_Forall; eassumption).
    pose proof (sorted_keyLe _ Hsorted (sortBy_sorted _ Hkept)) as Hss.
    assert (Hn : 0 < Z.of_nat (List.length (sortBy sub (d0 :: rest)))
                 < 2 ^ 53).
    { rewrite <- (Permutation_length Hperm), <- Hk.
      pose proof (filter_length_le validDepth (zValues positions)).
      pose proof (zValues_length positions).
      rewrite Hk in *. cbn [List.length] in *. lia. }
    destruct (quantile_indices_ordered _ Hn) as [I1 I2].
    destruct (floor_mul_below _ 7205759403792794 (-56) Hn)
      as (M & e2 & HM & HM0 & _);
      [reflexivity|lia|vm_compute; discriminate|].
    rewrite HM in I1.
    split; apply leb_key; try assumption.
    + eapply (stronglySorted_nth _ Hss); [|exact H1|exact H2].
      rewrite HM. apply Z2Nat.inj_le; lia.
    + eapply (stronglySorted_nth _ Hss); [|exact H2|exact H3].
      apply Z2Nat.inj_le; lia.
Qed.

Lemma quantiles_ordered_witness :
  let q := computeDepthQuantiles samplePositions defaultQuantile in
  ltb pzero (min q) = true /\
  leb (min q) (focus q) = true /\ leb (focus q) (max q) = true.
Proof.
  apply (quantiles_ordered samplePositions).
  - vm_compute. reflexivity.
  - vm_compute. reflexivity.
Defined.

End QuantileOrder.

Section QuantileRanks.
Import JsNumber NumberOrder CameraMatrixUtils Samples.

(** X8. [computeDepthQuantiles] with the default quantile on an array of
    fewer than [2^32] numbers (more than a typed array holds): with [n > 0]
    depths kept, the statistics are the elements of the sorted depths at
    the integer ranks [n / 10], [n / 2] and [9 n / 10] (quotients rounded
    down); computing the indices in floating point does not move them. *)
Theorem quantiles_at_integer_ranks :
  forall positions : list number,
    Z.of_nat (List.length positions) < 2 ^ 32 ->
    let kept := filter validDepth (zValues positions) in
    let n := Z.of_nat (List.length kept) in
    let sorted := sortBy sub kept in
    let q := computeDepthQuantiles positions defaultQuantile in
    0 < n ->
    nth_error sorted (Z.to_nat (n / 10)) = Some (min q) /\
    nth_error sorted (Z.to_nat (n / 2)) = Some (focus q) /\
    nth_error sorted (Z.to_nat (9 * n / 10)) = Some (max q).
Proof.
  intros positions Hlen. cbv zeta.
  destruct (filter validDepth (zValues positions)) as [|d0 rest] eqn:Hk;
    [cbn; lia|].
  intros Hn.
  assert (Hlen53 : Z.of_nat (List.length positions) < 2 ^ 53).
  { eapply Z.lt_trans; [exact Hlen|reflexivity]. }
  destruct (quantiles_nth positions d0 rest Hlen53 Hk) as (H1 & H2 & H3).
  assert (Hls : List.length (sortBy sub (d0 :: rest))
                = List.length (d0 :: rest))
    by (symmetry; apply Permutation_length, sortBy_perm).
  rewrite Hls in H1, H2, H3.
  assert (Hn32 : 0 < Z.of_nat (List.length (d0 :: rest)) < 2 ^ 32).
  { split; [assumption|]. rewrite <- Hk.
    pose proof (filter_length_le validDepth (zValues positions)).
    pose proof (zValues_length positions). lia. }
  destruct (quantile_indices_exact _ Hn32) as (E1 & E2 & E3).
  rewrite E1 in H1. rewrite E2 in H2. rewrite E3 in H3.
  repeat split; assumption.
Qed.

Lemma quantiles_at_integer_ranks_witness :
  let kept := filter validDepth (zValues samplePositions) in
  let sorted := sortBy sub kept in
  let q := computeDepthQuantiles samplePositions defaultQuantile in
  nth_error sorted (Z.to_nat (10 / 10)) = Some (min q) /\
  nth_error sorted (Z.to_nat (10 / 2)) = Some (focus q) /\
  nth_error sorted (Z.to_nat (9 * 10 / 10)) = Some (max q).
Proof.
  apply (quantiles_at_integer_ranks samplePositions).
  - vm_compute. reflexivity.
  - vm_compute. reflexivity.
Defined.

Lemma validDepth_positive (v : number) :
  validDepth v = true -> isFinite v = true /\ ltb pzero v = true.
Proof. unfold validDepth. now rewrite andb_true_iff. Qed.

Lemma at_In (arr : list number) (i v : number) :
  at_ arr i = Some v -> In v arr.
Proof.
  unfold at_. destruct (arrayIndex i) as [k|]; [|discriminate].
  apply nth_error_In.
Qed.

(** X9. [computeDepthQuantiles], for every array and every quantile (also
    one outside of 0 .. 1, infinite or NaN): each of the three statistics
    is a finite number greater than 0. *)
Theorem quantiles_finite_positive :
  forall (positions : list number) (quantile : number),
    let q := computeDepthQuantiles positions quantile in
    (isFinite (min q) = true /\ ltb pzero (min q) = true) /\
    (isFinite (focus q) = true /\ ltb pzero (focus q) = true) /\
    (isFinite (max q) = true /\ ltb pzero (max q) = true).
Proof.
  intros positions quantile. cbv zeta. unfold computeDepthQuantiles.
  destruct (filter validDepth (zValues positions)) as [|d0 rest] eqn:Hk.
  { cbn [min focus max]. repeat split. }
  assert (Hall : forall v, In v (sortBy sub (d0 :: rest)) ->
                           isFinite v = true /\ ltb pzero v = true).
  { intros v Hv. apply validDepth_positive.
    apply (Permutation_in v (Permutation_sym (sortBy_perm sub _))) in Hv.
    rewrite <- Hk in Hv. now apply filter_In in Hv as [_ Hv]. }
  assert (Hpick : forall (a b : option number) (c : number),
            (forall v, a = Some v -> In v (sortBy sub (d0 :: rest))) ->
            (forall v, b = Some v -> In v (sortBy sub (d0 :: rest))) ->
            isFinite c = true /\ ltb pzero c = true ->
            isFinite (PlyMetadata.nullish (orElse a b) c) = true /\
            ltb pzero (PlyMetadata.nullish (orElse a b) c) = true).
  { intros [va|] [vb|] c Ha Hb Hc; cbn [orElse PlyMetadata.nullish];
      auto. }
  cbn [min focus max].
  split; [|split]; apply Hpick;
    try (intros v Hv; eapply at_In; exact Hv);
    split; reflexivity.
Qed.

End QuantileRanks.

(* ================================================================== *)
(** * Integers as numbers: exact arithmetic *)
(* ================================================================== *)

Section IntegerArithmetic.
Import JsNumber.

(** ** Shifting out zeros loses nothing *)

Lemma shr_1_double (c : Z) :
  0 <= c ->
  shr_1 {| shr_m := 2 * c; shr_r := false; shr_s := false |}
  = {| shr_m := c; shr_r := false; shr_s := false |}.
Proof. destruct c as [|q|q]; intros H; try lia; reflexivity. Qed.

Lemma iter_shr_1_exact (n : positive) :
  forall c, 0 <= c ->
    SpecFloat.iter_pos shr_1 n
      {| shr_m := c * 2 ^ Z.pos n; shr_r := false; shr_s := false |}
    = {| shr_m := c; shr_r := false; shr_s := false |}.
Proof.
  induction n as [n IH|n IH|]; intros c Hc; cbn [SpecFloat.iter_pos].
  - rewrite pow2_xI.
    assert (Hx : 0 < 2 ^ Z.pos n) by (apply Z.pow_pos_nonneg; lia).
    replace (c * (2 * (2 ^ Z.pos n * 2 ^ Z.pos n)))
      with (2 * (c * 2 ^ Z.pos n * 2 ^ Z.pos n)) by lia.
    rewrite shr_1_double by nia.
    rewrite IH by nia. now apply IH.
  - rewrite pow2_xO.
    assert (Hx : 0 < 2 ^ Z.pos n) by (apply Z.pow_pos_nonneg; lia).
    rewrite Z.mul_assoc.
    rewrite IH by nia. now apply IH.
  - rewrite Z.pow_1_r, Z.mul_comm. now apply shr_1_double.
Qed.

Lemma shr_fexp_divisible (p : positive) (e c : Z) :
  -1074 <= e -> 0 <= c -> Z.pos p = c * 2 ^ excess (Z.pos p) ->
  shr_fexp prec emax (Z.pos p) e loc_Exact
  = ({| shr_m := c; shr_r := false; shr_s := false |},
     e + excess (Z.pos p)).
Proof.
  intros He Hc Hp. unfold shr_fexp, excess in *.
  unfold fexp, SpecFloat.emin, prec, emax.
  cbn [Zdigits2 shr_record_of_loc] in *.
  set (d := Z.pos (digits2_pos p)) in *.
  destruct (Z.max (d + e - 53) (3 - 1024 - 53) - e) as [|k|k] eqn:Hn;
    cbn [shr].
  - replace (Z.max 0 (d - 53)) with 0 in * by lia.
    rewrite Z.pow_0_r, Z.mul_1_r in Hp. rewrite Hp, Z.add_0_r. reflexivity.
  - replace (Z.max 0 (d - 53)) with (Z.pos k) in * by lia.
    rewrite Hp, iter_shr_1_exact by assumption. reflexivity.
  - replace (Z.max 0 (d - 53)) with 0 in * by lia.
    rewrite Z.pow_0_r, Z.mul_1_r in Hp. rewrite Hp, Z.add_0_r. reflexivity.
Qed.

(** Rounding a mantissa whose dropped digits are all zero: the digits kept
    are the result. *)
Lemma binary_round_aux_exact (sx : bool) (p c : positive) (e : Z) :
  -1074 <= e -> Z.pos p = Z.pos c * 2 ^ excess (Z.pos p) ->
  Z.pos c < 2 ^ 53 -> e + excess (Z.pos p) <= emax - prec ->
  binary_round_aux prec emax sx (Z.pos p) e loc_Exact
  = S754_finite sx c (e + excess (Z.pos p)).
Proof.
  intros He Hp Hc Hmax. unfold binary_round_aux.
  rewrite (shr_fexp_divisible p e (Z.pos c)) by (assumption || lia).
  cbn [shr_m loc_of_shr_record round_nearest_even].
  pose proof (excess_nonneg (Z.pos p)) as Hs.
  assert (Hex : excess (Z.pos c) = 0).
  { unfold excess. cbn [Zdigits2]. pose proof (digits_le c 53 Hc). lia. }
  rewrite (shr_fexp_divisible c (e + excess (Z.pos p)) (Z.pos c))
    by (try lia; rewrite Hex, Z.pow_0_r; lia).
  cbn [shr_m]. rewrite Hex, Z.add_0_r.
  destruct (Z.leb_spec (e + excess (Z.pos p)) (emax - prec)); [reflexivity|lia].
Qed.

(** ** Digits *)

Lemma digits_mul_pow2 (p q : positive) (k : Z) :
  0 <= k -> Z.pos q = Z.pos p * 2 ^ k ->
  Z.pos (digits2_pos q) = Z.pos (digits2_pos p) + k.
Proof.
  intros Hk Hq.
  pose proof (digits_lower p) as Hlo. pose proof (digits_upper p) as Hup.
  set (d := Z.pos (digits2_pos p)) in *.
  assert (Hd : 1 <= d) by (unfold d; lia).
  assert (H2k : 0 < 2 ^ k) by (apply Z.pow_pos_nonneg; lia).
  assert (Hlt : Z.pos q < 2 ^ (d + k)).
  { rewrite Hq, Z.pow_add_r by lia.
    apply Z.mul_lt_mono_pos_r; assumption. }
  assert (Hge : 2 ^ (d + k - 1) <= Z.pos q).
  { rewrite Hq. replace (d + k - 1) with (d - 1 + k) by lia.
    rewrite Z.pow_add_r by lia.
    apply Z.mul_le_mono_nonneg_r; lia. }
  pose proof (digits_le q _ Hlt). pose proof (digits_ge q _ Hge). lia.
Qed.

Lemma digits_53 (m : positive) :
  2 ^ 52 <= Z.pos m < 2 ^ 53 -> Z.pos (digits2_pos m) = 53.
Proof.
  intros [Hlo Hhi].
  pose proof (digits_le m 53 Hhi). pose proof (digits_ge m 52 Hlo). lia.
Qed.

(** ** Integers

    A mantissa and an exponent that stand for an integer [N] between 1 and
    [2^53 - 1] round to the number [N]. *)
Lemma binary_round_integer (p : positive) (e N : Z) :
  0 < N < 2 ^ 53 -> -1074 <= e <= 0 -> Z.pos p = N * 2 ^ (- e) ->
  binary_round prec emax false p e = ofZ N.
Proof.
  intros HN He Hp.
  destruct (ofZ_exact N HN) as (m & eN & -> & HeN & Hm & Hrange).
  pose proof (digits_53 m Hrange) as Hdm.
  (* the digits of [p] *)
  assert (Hfexp : fexp prec emax (Z.pos (digits2_pos p) + e) = eN).
  { unfold fexp, SpecFloat.emin, prec, emax.
    destruct (Z_le_gt_dec e eN) as [Hle|Hgt].
    - assert (Hpm : Z.pos p = Z.pos m * 2 ^ (eN - e)).
      { rewrite Hp, Hm, <- Z.mul_assoc, <- Z.pow_add_r by lia.
        f_equal. f_equal. lia. }
      rewrite (digits_mul_pow2 m p (eN - e)) by (lia || assumption). lia.
    - assert (Hmp : Z.pos m = Z.pos p * 2 ^ (e - eN)).
      { rewrite Hp, Hm, <- Z.mul_assoc, <- Z.pow_add_r by lia.
        f_equal. f_equal. lia. }
      pose proof (digits_mul_pow2 p m (e - eN) ltac:(lia) Hmp). lia. }
  unfold binary_round. rewrite Hfexp.
  pose proof (shl_align_spec p e eN) as [Hez Hmz].
  destruct (shl_align p e eN) as [mz ez]. cbn [fst snd] in Hez, Hmz.
  assert (Hmzm : Z.pos mz = Z.pos m * 2 ^ (eN - ez)).
  { rewrite Hmz, Hp, Hm, <- !Z.mul_assoc, <- !Z.pow_add_r by lia.
    f_equal. f_equal. lia. }
  assert (Hex : excess (Z.pos mz) = eN - ez).
  { unfold excess. cbn [Zdigits2].
    rewrite (digits_mul_pow2 m mz (eN - ez)) by (lia || assumption). lia. }
  rewrite (binary_round_aux_exact false mz m ez);
    rewrite ?Hex; try lia; try assumption.
  - f_equal. lia.
  - unfold emax, prec. lia.
Qed.

(** The product of two integers, the sum of two integers: exact as long
    as the result is below [2^53]. *)
Lemma mul_integers (a b : Z) :
  0 <= a < 2 ^ 53 -> 0 <= b < 2 ^ 53 -> a * b < 2 ^ 53 ->
  mul (ofZ a) (ofZ b) = ofZ (a * b).
Proof.
  intros Ha Hb Hab.
  destruct (Z.eq_dec b 0) as [->|Hb0].
  { rewrite Z.mul_0_r. change (ofZ 0) with (S754_zero false).
    destruct (Z.eq_dec a 0) as [->|Ha0]; [reflexivity|].
    destruct (ofZ_exact a ltac:(lia)) as (ma & ea & -> & _). reflexivity. }
  destruct (Z.eq_dec a 0) as [->|Ha0].
  { cbn [Z.mul]. change (ofZ 0) with (S754_zero false).
    destruct (ofZ_exact b ltac:(lia)) as (mb & eb & -> & _). reflexivity. }
  assert (Ha53 : 0 < a < 2 ^ 53) by lia.
  assert (Hb53 : 0 < b < 2 ^ 53) by lia.
  assert (Hab0 : 0 < a * b) by nia.
  destruct (ofZ_exact a Ha53) as (ma & ea & -> & Hea & Hma & Hra).
  destruct (ofZ_exact b Hb53) as (mb & eb & -> & Heb & Hmb & Hrb).
  unfold mul. cbn [SFmul xorb]. fold prec emax.
  assert (Hp : Z.pos (ma * mb) = a * b * 2 ^ (- (ea + eb))).
  { rewrite Pos2Z.inj_mul, Hma, Hmb.
    replace (- (ea + eb)) with (- ea + - eb) by lia.
    rewrite Z.pow_add_r by lia. ring. }
  rewrite <- (binary_round_integer (ma * mb) (ea + eb) (a * b))
    by (lia || assumption).
  (* no digit is added before rounding: the product has at least 105 *)
  unfold binary_round.
  assert (Hd : 105 <= Z.pos (digits2_pos (ma * mb))).
  { assert (H104 : 2 ^ 104 <= Z.pos (ma * mb)).
    { rewrite Pos2Z.inj_mul. change (2 ^ 104) with (2 ^ 52 * 2 ^ 52).
      apply Z.mul_le_mono_nonneg; lia. }
    pose proof (digits_ge _ _ H104). lia. }
  unfold shl_align.
  destruct (fexp prec emax (Z.pos (digits2_pos (ma * mb)) + (ea + eb))
            - (ea + eb)) as [|k|k] eqn:Hk; try reflexivity.
  unfold fexp, SpecFloat.emin, prec, emax in Hk. lia.
Qed.

Lemma add_integers (a b : Z) :
  0 <= a -> 0 <= b -> a + b < 2 ^ 53 ->
  add (ofZ a) (ofZ b) = ofZ (a + b).
Proof.
  intros Ha Hb Hab.
  destruct (Z.eq_dec b 0) as [->|Hb0].
  { rewrite Z.add_0_r. change (ofZ 0) with (S754_zero false).
    destruct (Z.eq_dec a 0) as [->|Ha0]; [reflexivity|].
    destruct (ofZ_exact a ltac:(lia)) as (ma & ea & -> & _). reflexivity. }
  destruct (Z.eq_dec a 0) as [->|Ha0].
  { cbn [Z.add]. change (ofZ 0) with (S754_zero false).
    destruct (ofZ_exact b ltac:(lia)) as (mb & eb & -> & _). reflexivity. }
  assert (Ha53 : 0 < a < 2 ^ 53) by lia.
  assert (Hb53 : 0 < b < 2 ^ 53) by lia.
  destruct (ofZ_exact a Ha53) as (ma & ea & -> & Hea & Hma & Hra).
  destruct (ofZ_exact b Hb53) as (mb & eb & -> & Heb & Hmb & Hrb).
  unfold add. cbn [SFadd cond_Zopp]. fold prec emax.
  pose proof (shl_align_spec ma ea (Z.min ea eb)) as [_ Ha'].
  pose proof (shl_align_spec mb eb (Z.min ea eb)) as [_ Hb'].
  set (x := fst (shl_align ma ea (Z.min ea eb))) in *.
  set (y := fst (shl_align mb eb (Z.min ea eb))) in *.
  set (ez := Z.min ea eb) in *.
  replace (Z.min ea ez) with ez in Ha' by lia.
  replace (Z.min eb ez) with ez in Hb' by lia.
  change (Z.pos x + Z.pos y) with (Z.pos (x + y)).
  cbn [binary_normalize].
  apply binary_round_integer; try lia.
  rewrite Pos2Z.inj_add, Ha', Hb', Hma, Hmb.
  rewrite <- !Z.mul_assoc, <- !Z.pow_add_r by lia.
  replace (- ea + (ea - ez)) with (- ez) by lia.
  replace (- eb + (eb - ez)) with (- ez) by lia.
  ring.
Qed.

(** An integer that is an index converts back to itself. *)
Lemma toIndex_ofZ (k : Z) :
  0 <= k < 2 ^ 53 -> toIndex (ofZ k) = Some k.
Proof.
  intros Hk. destruct (Z.eq_dec k 0) as [->|Hk0]; [reflexivity|].
  destruct (ofZ_exact k ltac:(lia)) as (m & e & -> & He & Hm & Hr).
  cbn [toIndex].
  assert (Ht : (if 0 <=? e then Z.pos m * 2 ^ e else Z.pos m / 2 ^ (- e))
               = k).
  { destruct (Z.leb_spec 0 e) as [H0|H0].
    - replace e with 0 in * by lia. cbn [Z.opp] in Hm.
      rewrite Z.pow_0_r, Z.mul_1_r in *. assumption.
    - rewrite Hm. apply Z.div_mul. apply Z.pow_nonzero; lia. }
  rewrite Ht.
  destruct (Z.leb_spec k (2 ^ 53 - 1)); [reflexivity|lia].
Qed.

(** The byte offset of the word [i] of a run that starts at [o]. *)
Lemma word_offset (o i : Z) :
  0 <= o -> 0 <= i -> o + 4 * i < 2 ^ 53 ->
  add (ofZ o) (mul (ofZ i) (ofZ 4)) = ofZ (o + 4 * i).
Proof.
  intros Ho Hi Hlt.
  rewrite mul_integers by (change (2 ^ 53) with 9007199254740992 in *; lia).
  rewrite add_integers by lia.
  f_equal. lia.
Qed.

End IntegerArithmetic.

(* ================================================================== *)
(** * Rounding keeps the order *)
(* ================================================================== *)

Section RoundingToNearest.
Import JsNumber NumberOrder Rounding.

Lemma shifted_start (P : Z) :
  shifted P 0 (shr_record_of_loc P loc_Exact).
Proof.
  exists 0. cbn. repeat split; lia.
Qed.

Lemma shifted_step (P k : Z) (mrs : shr_record) :
  0 <= k -> 0 <= shr_m mrs -> shifted P k mrs ->
  shifted P (k + 1) (shr_1 mrs) /\ 0 <= shr_m (shr_1 mrs).
Proof.
  intros Hk Hm (t & HP & Ht & Hr & Hs).
  assert (HA : 0 < 2 ^ k) by (apply Z.pow_pos_nonneg; lia).
  assert (HA1 : 2 ^ (k + 1) = 2 * 2 ^ k) by (rewrite Z.pow_add_r by lia; lia).
  assert (Hor : orb (shr_r mrs) (shr_s mrs) = negb (t =? 0)).
  { rewrite Hr, Hs.
    destruct (Z.leb_spec (2 ^ k) (2 * t)) as [H1|H1];
      destruct (Z.eqb_spec t 0) as [H2|H2]; cbn [orb negb];
      try lia; try reflexivity.
    - subst t. rewrite Z.mod_0_l by lia. reflexivity.
    - rewrite Z.mod_small by lia.
      destruct (Z.eqb_spec (2 * t) 0); [lia|reflexivity]. }
  assert (Hmod : forall b, (2 * (t + b * 2 ^ k)) mod 2 ^ (k + 1) = 2 * t).
  { intros b. rewrite HA1.
    replace (2 * (t + b * 2 ^ k)) with (2 * t + b * (2 * 2 ^ k)) by lia.
    rewrite Z.mod_add by lia. apply Z.mod_small. lia. }
  assert (Hfin : forall b, negb (t =? 0)
                 = negb ((2 * (t + b * 2 ^ k)) mod 2 ^ (k + 1) =? 0)).
  { intros b. rewrite Hmod.
    destruct (Z.eqb_spec t 0), (Z.eqb_spec (2 * t) 0); try lia; reflexivity. }
  destruct mrs as [m r s]. cbn [shr_m shr_r shr_s] in *.
  destruct m as [|[p|p|]|p]; try lia; cbn [shr_1 shr_m];
    (split; [|lia]);
    [exists (t + 0 * 2 ^ k)|exists (t + 1 * 2 ^ k)
    |exists (t + 0 * 2 ^ k)|exists (t + 1 * 2 ^ k)];
    cbn [shr_m shr_r shr_s]; rewrite Hor, <- Hfin;
    (split; [rewrite HP; lia|]);
    (split; [lia|]); (split; [|reflexivity]);
    match goal with
    | |- _ = (?a <=? ?b) => destruct (Z.leb_spec a b); try reflexivity; lia
    end.
Qed.

Lemma shifted_iter (P : Z) (n : positive) :
  forall k mrs, 0 <= k -> 0 <= shr_m mrs -> shifted P k mrs ->
    shifted P (k + Z.pos n) (SpecFloat.iter_pos shr_1 n mrs) /\
    0 <= shr_m (SpecFloat.iter_pos shr_1 n mrs).
Proof.
  induction n as [n IH|n IH|]; intros k mrs Hk Hm Hs; cbn [SpecFloat.iter_pos].
  - destruct (shifted_step P k mrs Hk Hm Hs) as [H1 H1'].
    destruct (IH (k + 1) _ ltac:(lia) H1' H1) as [H2 H2'].
    destruct (IH (k + 1 + Z.pos n) _ ltac:(lia) H2' H2) as [H3 H3'].
    split; [|assumption].
    replace (k + Z.pos n~1) with (k + 1 + Z.pos n + Z.pos n) by lia.
    assumption.
  - destruct (IH k _ Hk Hm Hs) as [H2 H2'].
    destruct (IH (k + Z.pos n) _ ltac:(lia) H2' H2) as [H3 H3'].
    split; [|assumption].
    replace (k + Z.pos n~0) with (k + Z.pos n + Z.pos n) by lia.
    assumption.
  - now apply shifted_step.
Qed.

(** The two bits select the nearest integer. *)
Lemma shifted_nearest (P k : Z) (mrs : shr_record) :
  0 <= k -> 0 <= P -> 0 <= shr_m mrs -> shifted P k mrs ->
  shr_m mrs = P / 2 ^ k /\
  round_nearest_even (shr_m mrs) (loc_of_shr_record mrs) = nearestEven P k.
Proof.
  intros Hk HP Hm (t & HPt & Ht & Hr & Hs).
  assert (HA : 0 < 2 ^ k) by (apply Z.pow_pos_nonneg; lia).
  assert (Hq : P / 2 ^ k = shr_m mrs).
  { symmetry. apply Z.div_unique with (r := t); lia. }
  assert (Hmod : P mod 2 ^ k = t).
  { symmetry. apply Z.mod_unique with (q := shr_m mrs); lia. }
  split; [now symmetry|].
  unfold nearestEven. rewrite Hq, Hmod.
  destruct mrs as [m r s]. cbn [shr_m shr_r shr_s loc_of_shr_record] in *.
  destruct (Z.leb_spec (2 ^ k) (2 * t)) as [H1|H1]; subst r.
  - destruct (Z.eqb_spec (2 * t mod 2 ^ k) 0) as [H2|H2]; subst s;
      cbn [negb round_nearest_even].
    + assert (2 * t = 2 ^ k).
      { apply Z.mod_divide in H2; [|lia]. destruct H2 as [c Hc].
        set (A := 2 ^ k) in *.
        assert (0 < c) by (destruct (Z_lt_le_dec 0 c); [assumption|nia]).
        assert (c < 2) by (destruct (Z_lt_le_dec c 2); [assumption|nia]).
        replace c with 1 in Hc by lia. lia. }
      destruct (Z.compare_spec (2 * t) (2 ^ k)); first [reflexivity|lia].
    + assert (2 * t <> 2 ^ k).
      { intros E. apply H2. rewrite E. apply Z.mod_same. lia. }
      destruct (Z.compare_spec (2 * t) (2 ^ k)); first [reflexivity|lia].
  - destruct (Z.compare_spec (2 * t) (2 ^ k)); try lia.
    clear Hs. destruct s; reflexivity.
Qed.

Lemma nearestEven_spec (P n : Z) :
  0 <= n ->
  let M := nearestEven P n in
  2 ^ n * (2 * M - 1) <= 2 * P <= 2 ^ n * (2 * M + 1) /\
  (2 * P = 2 ^ n * (2 * M - 1) -> Z.even M = true) /\
  (2 * P = 2 ^ n * (2 * M + 1) -> Z.even M = true) /\
  P / 2 ^ n <= M <= P / 2 ^ n + 1.
Proof.
  intros Hn. cbv zeta. unfold nearestEven.
  assert (HA : 0 < 2 ^ n) by (apply Z.pow_pos_nonneg; lia).
  pose proof (Z.div_mod P (2 ^ n) ltac:(lia)) as Hdm.
  pose proof (Z.mod_pos_bound P (2 ^ n) HA) as Hr.
  set (A := 2 ^ n) in *. set (q := P / A) in *. set (r := P mod A) in *.
  destruct (Z.compare_spec (2 * r) A) as [He|Hl|Hg].
  - destruct (Z.even q) eqn:Hev.
    + repeat split; try nia. intros _. assumption.
    + repeat split; try nia. intros _.
      rewrite Z.even_add, Hev. reflexivity.
  - repeat split; nia.
  - repeat split; nia.
Qed.

(** Rounding to nearest keeps the order, also between two scales. *)
Lemma nearestEven_mono (P1 n1 P2 n2 : Z) :
  0 <= n1 -> 0 <= n2 ->
  P1 * 2 ^ n2 <= P2 * 2 ^ n1 ->
  nearestEven P1 n1 <= nearestEven P2 n2.
Proof.
  intros Hn1 Hn2 Hle.
  destruct (nearestEven_spec P1 n1 Hn1) as ([Hlo1 _] & Hev1 & _ & _).
  destruct (nearestEven_spec P2 n2 Hn2) as ([_ Hhi2] & _ & Hev2 & _).
  set (M1 := nearestEven P1 n1) in *. set (M2 := nearestEven P2 n2) in *.
  assert (HA : 0 < 2 ^ n1) by (apply Z.pow_pos_nonneg; lia).
  assert (HB : 0 < 2 ^ n2) by (apply Z.pow_pos_nonneg; lia).
  set (A := 2 ^ n1) in *. set (B := 2 ^ n2) in *.
  destruct (Z_le_gt_dec M1 M2) as [|Hgt]; [assumption|exfalso].
  assert (H1 : A * B * (2 * M1 - 1) <= 2 * P1 * B) by nia.
  assert (H2 : 2 * P2 * A <= A * B * (2 * M2 + 1)) by nia.
  assert (H3 : A * B * (2 * M1 - 1) <= A * B * (2 * M2 + 1)) by nia.
  assert (HM : M1 = M2 + 1) by nia.
  assert (E1 : 2 * P1 = A * (2 * M1 - 1)) by nia.
  assert (E2 : 2 * P2 = B * (2 * M2 + 1)) by nia.
  specialize (Hev1 E1). specialize (Hev2 E2).
  rewrite HM, Z.even_add, Hev2 in Hev1. discriminate Hev1.
Qed.

End RoundingToNearest.

Section GridRounding.
Import JsNumber NumberOrder Rounding.

Lemma gridOf_eq (p : positive) (e : Z) :
  gridOf p e = Z.max (Z.pos (digits2_pos p) + e - 53) (-1074).
Proof. reflexivity. Qed.

Lemma pow2_pos (k : Z) : 0 <= k -> 0 < 2 ^ k.
Proof. intros. apply Z.pow_pos_nonneg; lia. Qed.

Lemma pow2_split (a b : Z) : 0 <= a -> 0 <= b -> 2 ^ (a + b) = 2 ^ a * 2 ^ b.
Proof. intros. now rewrite Z.pow_add_r. Qed.

Lemma pow2_le (a b : Z) : 0 <= a <= b -> 2 ^ a <= 2 ^ b.
Proof. intros. apply Z.pow_le_mono_r; lia. Qed.

(** The quotient of a mantissa by its step has at most 53 digits, and
    exactly 53 above the least exponent. *)
Lemma grid_quotient (p : positive) (e : Z) :
  e <= gridOf p e ->
  -1074 <= gridOf p e /\
  0 <= Z.pos p / 2 ^ (gridOf p e - e) < 2 ^ 53 /\
  (-1074 < gridOf p e -> 2 ^ 52 <= Z.pos p / 2 ^ (gridOf p e - e)).
Proof.
  intros Hfine. rewrite gridOf_eq in *.
  pose proof (digits_upper p) as Hup. pose proof (digits_lower p) as Hlo.
  set (d := Z.pos (digits2_pos p)) in *.
  assert (Hd : 1 <= d) by (unfold d; lia).
  set (g := Z.max (d + e - 53) (-1074)) in *.
  set (n := g - e).
  assert (Hn : 0 <= n) by (unfold n; lia).
  pose proof (pow2_pos n Hn) as HA.
  split; [unfold g; lia|]. split; [split|].
  - apply Z.div_pos; lia.
  - apply Z.div_lt_upper_bound; [assumption|].
    rewrite <- pow2_split by lia.
    eapply Z.lt_le_trans; [exact Hup|]. apply pow2_le. unfold n, g. lia.
  - intros Hg. apply Z.div_le_lower_bound; [assumption|].
    rewrite <- pow2_split by lia.
    replace (n + 52) with (d - 1) by (unfold n, g in *; lia). assumption.
Qed.

Lemma loc_of_shr_record_of_loc (m : Z) (l : location) :
  loc_of_shr_record (shr_record_of_loc m l) = l.
Proof. now destruct l as [|[| |]]. Qed.

Lemma nearestEven_0 (P : Z) : nearestEven P 0 = P.
Proof.
  unfold nearestEven. rewrite Z.pow_0_r, Z.mod_1_r, Z.div_1_r. reflexivity.
Qed.

(** The second shift of [binary_round_aux] brings [2^53] back to 53
    digits and leaves every shorter mantissa as it is. *)
Lemma second_shift (s : bool) (M g : Z) :
  -1074 <= g -> 0 <= M <= 2 ^ 53 ->
  (let '(mrs, e2) := shr_fexp prec emax M g loc_Exact in
   match shr_m mrs with
   | 0 => S754_zero s
   | Z.pos m => if e2 <=? emax - prec then S754_finite s m e2
                else S754_infinity s
   | Z.neg _ => S754_nan
   end) = onGrid s M g.
Proof.
  intros Hg HM. unfold shr_fexp, fexp, SpecFloat.emin, prec, emax, onGrid.
  destruct M as [|m|m]; try lia.
  - cbn [Zdigits2 shr_record_of_loc].
    destruct (Z.max (0 + g - 53) (3 - 1024 - 53) - g) eqn:E; try lia;
      reflexivity.
  - cbn [Zdigits2 shr_record_of_loc].
    destruct (Z.ltb_spec (Z.pos m) (2 ^ 53)) as [Hlt|Hge].
    + pose proof (digits_le m 53 Hlt) as Hd.
      destruct (Z.max (Z.pos (digits2_pos m) + g - 53) (3 - 1024 - 53) - g)
        eqn:E; try lia; reflexivity.
    + assert (Hm : m = 9007199254740992%positive) by lia. subst m.
      change (Z.pos (digits2_pos 9007199254740992)) with 54.
      replace (Z.max (54 + g - 53) (3 - 1024 - 53) - g) with 1 by lia.
      reflexivity.
Qed.

(** Rounding a mantissa that has its 53 digits or lies below the least
    exponent: the result is the number of the grid selected by
    [round_nearest_even], which for an exact mantissa is the nearest one. *)
Lemma round_on_grid (s : bool) (p : positive) (e : Z) (l : location) :
  e <= gridOf p e ->
  exists M : Z,
    Z.pos p / 2 ^ (gridOf p e - e) <= M
      <= Z.pos p / 2 ^ (gridOf p e - e) + 1 /\
    (l = loc_Exact -> M = nearestEven (Z.pos p) (gridOf p e - e)) /\
    binary_round_aux prec emax s (Z.pos p) e l = onGrid s M (gridOf p e).
Proof.
  intros Hfine.
  destruct (grid_quotient p e Hfine) as (Hg & Hq & _).
  unfold binary_round_aux.
  assert (Hfirst : exists mrs1,
            shr_fexp prec emax (Z.pos p) e l = (mrs1, gridOf p e) /\
            shr_m mrs1 = Z.pos p / 2 ^ (gridOf p e - e) /\
            (l = loc_Exact ->
             round_nearest_even (shr_m mrs1) (loc_of_shr_record mrs1)
             = nearestEven (Z.pos p) (gridOf p e - e))).
  { unfold shr_fexp. cbn [Zdigits2]. fold (gridOf p e).
    destruct (gridOf p e - e) as [|n|n] eqn:En; try lia; cbn [shr].
    - exists (shr_record_of_loc (Z.pos p) l).
      split; [f_equal; lia|].
      rewrite shr_record_of_loc_m, Z.pow_0_r, Z.div_1_r.
      split; [reflexivity|]. intros ->.
      now rewrite nearestEven_0.
    - exists (SpecFloat.iter_pos shr_1 n (shr_record_of_loc (Z.pos p) l)).
      split; [f_equal; lia|].
      rewrite iter_shr_1_m by (rewrite shr_record_of_loc_m; lia).
      rewrite shr_record_of_loc_m.
      split; [reflexivity|]. intros ->.
      destruct (shifted_iter (Z.pos p) n 0
                  (shr_record_of_loc (Z.pos p) loc_Exact) ltac:(lia)
                  ltac:(cbn; lia) (shifted_start (Z.pos p))) as [Hsh Hnn].
      rewrite Z.add_0_l in Hsh.
      destruct (shifted_nearest (Z.pos p) (Z.pos n) _ ltac:(lia) ltac:(lia)
                  Hnn Hsh) as [Hm Hr].
      rewrite <- Hm. exact Hr. }
  destruct Hfirst as (mrs1 & -> & Hm1 & Hne).
  pose proof (round_nearest_even_bounds (shr_m mrs1)
                (loc_of_shr_record mrs1)) as HM.
  set (M := round_nearest_even (shr_m mrs1) (loc_of_shr_record mrs1)) in *.
  exists M. rewrite Hm1 in HM.
  split; [exact HM|]. split; [exact Hne|].
  apply second_shift; lia.
Qed.

Lemma onGrid_valid (s : bool) (M g : Z) :
  -1074 <= g -> 0 <= M <= 2 ^ 53 -> (-1074 < g -> 2 ^ 52 <= M) ->
  valid_binary prec emax (onGrid s M g) = true.
Proof.
  intros Hg HM Hn. unfold onGrid.
  destruct M as [|m|m]; try lia; [reflexivity|].
  assert (Hcan : forall (m' : positive) (g' : Z),
            -1074 <= g' -> Z.pos m' < 2 ^ 53 ->
            (-1074 < g' -> 2 ^ 52 <= Z.pos m') ->
            g' <= emax - prec ->
            valid_binary prec emax (S754_finite s m' g') = true).
  { intros m' g' Hg' Hlt Hn' He'. cbn [valid_binary].
    unfold SpecFloat.bounded, canonical_mantissa, fexp, SpecFloat.emin.
    apply andb_true_intro. split; [|now apply Z.leb_le].
    apply Z.eqb_eq.
    pose proof (digits_le m' 53 Hlt) as Hd.
    unfold prec, emax in *.
    destruct (Z.eq_dec g' (-1074)) as [->|Hne]; [lia|].
    pose proof (digits_ge m' 52 (Hn' ltac:(lia))). lia. }
  destruct (Z.ltb_spec (Z.pos m) (2 ^ 53)) as [Hlt|Hge].
  - destruct (Z.leb_spec g (emax - prec)); [|reflexivity].
    apply Hcan; assumption.
  - assert (Hm : m = 9007199254740992%positive) by lia. subst m.
    destruct (Z.leb_spec (g + 1) (emax - prec)); [|reflexivity].
    apply Hcan; try lia; cbn; lia.
Qed.

(** [top] against the numbers of a grid. *)
Lemma top_pos : 0 < top.
Proof. unfold top. apply pow2_pos. lia. Qed.

Lemma top_above (g : Z) :
  -1074 <= g <= emax - prec -> 2 ^ 53 * 2 ^ (g + 1074) <= top.
Proof.
  unfold top, emax, prec. intros Hg.
  rewrite <- pow2_split by lia. apply pow2_le. lia.
Qed.

Lemma top_below (k g : Z) :
  0 <= k -> -1074 <= g -> 2098 <= k + (g + 1074) ->
  top <= 2 ^ k * 2 ^ (g + 1074).
Proof.
  unfold top. intros Hk Hg Hkg.
  rewrite <- pow2_split by lia. apply pow2_le. lia.
Qed.

Lemma onGrid_magnitude (s : bool) (M g : Z) :
  -1074 <= g -> 0 <= M <= 2 ^ 53 -> (-1074 < g -> 2 ^ 52 <= M) ->
  magnitude (onGrid s M g) = Z.min (M * 2 ^ (g + 1074)) top /\
  signedMagnitude (onGrid s M g)
  = (if s then - magnitude (onGrid s M g) else magnitude (onGrid s M g)).
Proof.
  intros Hg HM Hn. unfold onGrid.
  pose proof (pow2_pos (g + 1074) ltac:(lia)) as HG.
  destruct M as [|m|m]; try lia.
  - cbn [magnitude signedMagnitude]. pose proof top_pos.
    split; [lia|now destruct s].
  - destruct (Z.ltb_spec (Z.pos m) (2 ^ 53)) as [Hlt|Hge].
    + destruct (Z.leb_spec g (emax - prec)) as [Hle|Hgt].
      * cbn [magnitude signedMagnitude]. split; [|now destruct s].
        pose proof (top_above g ltac:(lia)). nia.
      * cbn [magnitude signedMagnitude]. split; [|now destruct s].
        unfold emax, prec in Hgt. specialize (Hn ltac:(lia)).
        pose proof (top_below 52 g ltac:(lia) Hg ltac:(lia)). nia.
    + assert (Hm : m = 9007199254740992%positive) by lia. subst m.
      change (Pos.div2 9007199254740992) with 4503599627370496%positive.
      destruct (Z.leb_spec (g + 1) (emax - prec)) as [Hle|Hgt].
      * cbn [magnitude signedMagnitude]. split; [|now destruct s].
        replace (g + 1 + 1074) with (1 + (g + 1074)) by lia.
        rewrite pow2_split by lia. change (2 ^ 1) with 2.
        pose proof (top_above g ltac:(lia)).
        change (2 ^ 53) with 9007199254740992 in *. lia.
      * cbn [magnitude signedMagnitude]. split; [|now destruct s].
        unfold emax, prec in Hgt.
        pose proof (top_below 53 g ltac:(lia) Hg ltac:(lia)).
        change (2 ^ 53) with 9007199254740992 in *. lia.
Qed.

End GridRounding.

Section ProductOrder.
Import JsNumber NumberOrder Rounding.

(** The product of two numbers in normal form has its 53 digits or lies
    below the least exponent. *)
Lemma product_fine (ma : positive) (ea : Z) (mc : positive) (ec : Z) :
  SpecFloat.bounded prec emax ma ea = true ->
  SpecFloat.bounded prec emax mc ec = true ->
  ea + ec <= gridOf (ma * mc) (ea + ec).
Proof.
  intros Ha Hc.
  apply bounded_spec in Ha as (Hea & Hma & Hna).
  apply bounded_spec in Hc as (Hec & Hmc & Hnc).
  rewrite gridOf_eq.
  destruct (Z_le_gt_dec (ea + ec) (-1074)) as [|Hgt]; [lia|].
  assert (H52 : 2 ^ 52 <= Z.pos (ma * mc)).
  { rewrite Pos2Z.inj_mul.
    destruct (Z_le_gt_dec ea (-1074)) as [Hle|Hg].
    - specialize (Hnc ltac:(lia)). nia.
    - specialize (Hna ltac:(lia)). nia. }
  pose proof (digits_ge _ 52 H52). lia.
Qed.

Lemma nearestEven_range (p : positive) (e : Z) :
  e <= gridOf p e ->
  0 <= nearestEven (Z.pos p) (gridOf p e - e) <= 2 ^ 53 /\
  (-1074 < gridOf p e ->
   2 ^ 52 <= nearestEven (Z.pos p) (gridOf p e - e)).
Proof.
  intros Hfine.
  destruct (grid_quotient p e Hfine) as (Hg & Hq & Hn).
  destruct (nearestEven_spec (Z.pos p) (gridOf p e - e) ltac:(lia))
    as (_ & _ & _ & HM).
  split; [lia|]. intros H. specialize (Hn H). lia.
Qed.

(** Rounding keeps the order of the exact values. *)
Lemma grid_monotone (p1 p2 : positive) (e1 e2 : Z) :
  e1 <= gridOf p1 e1 -> e2 <= gridOf p2 e2 ->
  Z.pos p1 * 2 ^ (e1 - Z.min e1 e2) <= Z.pos p2 * 2 ^ (e2 - Z.min e1 e2) ->
  nearestEven (Z.pos p1) (gridOf p1 e1 - e1) * 2 ^ (gridOf p1 e1 + 1074)
  <= nearestEven (Z.pos p2) (gridOf p2 e2 - e2) * 2 ^ (gridOf p2 e2 + 1074).
Proof.
  intros H1 H2 Hle.
  destruct (nearestEven_range p1 e1 H1) as (HM1 & _).
  destruct (nearestEven_range p2 e2 H2) as (HM2 & HN2).
  destruct (grid_quotient p1 e1 H1) as (Hg1 & _).
  destruct (grid_quotient p2 e2 H2) as (Hg2 & _).
  assert (Hd : Z.pos (digits2_pos p1) + e1 <= Z.pos (digits2_pos p2) + e2).
  { pose proof (digits_lower p1) as Hlo. pose proof (digits_upper p2) as Hup.
    set (d1 := Z.pos (digits2_pos p1)) in *.
    set (d2 := Z.pos (digits2_pos p2)) in *.
    assert (1 <= d1) by (unfold d1; lia).
    set (mn := Z.min e1 e2) in *.
    pose proof (pow2_pos (e1 - mn) ltac:(lia)) as HA.
    pose proof (pow2_pos (e2 - mn) ltac:(lia)) as HB.
    assert (Hlt : 2 ^ (d1 - 1 + (e1 - mn)) < 2 ^ (d2 + (e2 - mn))).
    { rewrite !pow2_split by lia. nia. }
    apply Z.pow_lt_mono_r_iff in Hlt; lia. }
  assert (Hg : gridOf p1 e1 <= gridOf p2 e2) by (rewrite !gridOf_eq; lia).
  set (g1 := gridOf p1 e1) in *. set (g2 := gridOf p2 e2) in *.
  set (M1 := nearestEven (Z.pos p1) (g1 - e1)) in *.
  set (M2 := nearestEven (Z.pos p2) (g2 - e2)) in *.
  destruct (Z.eq_dec g1 g2) as [Heq|Hne].
  - assert (HM : M1 <= M2).
    { unfold M1, M2. apply nearestEven_mono; try lia.
      rewrite <- Heq.
      set (mn := Z.min e1 e2) in *.
      set (k := g1 - (e1 + e2 - mn)).
      assert (Hk : 0 <= k) by (unfold k, mn; lia).
      replace (g1 - e2) with ((e1 - mn) + k) by (unfold k; lia).
      replace (g1 - e1) with ((e2 - mn) + k) by (unfold k; lia).
      rewrite !pow2_split by (unfold mn; lia).
      pose proof (pow2_pos k Hk). rewrite !Z.mul_assoc.
      apply Z.mul_le_mono_nonneg_r; lia. }
    rewrite <- Heq.
    apply Z.mul_le_mono_nonneg_r; [|assumption].
    apply Z.pow_nonneg; lia.
  - specialize (HN2 ltac:(lia)).
    pose proof (pow2_pos (g1 + 1074) ltac:(lia)) as HA.
    transitivity (2 ^ 53 * 2 ^ (g1 + 1074)); [nia|].
    transitivity (2 ^ 52 * 2 ^ (g2 + 1074)).
    + rewrite <- !pow2_split by lia. apply pow2_le; lia.
    + pose proof (pow2_pos (g2 + 1074) ltac:(lia)). nia.
Qed.

(** The product of two finite numbers in normal form. *)
Lemma mul_finite (sa : bool) (ma : positive) (ea : Z)
    (sc : bool) (mc : positive) (ec : Z) :
  SpecFloat.bounded prec emax ma ea = true ->
  SpecFloat.bounded prec emax mc ec = true ->
  let g := gridOf (ma * mc) (ea + ec) in
  let M := nearestEven (Z.pos (ma * mc)) (g - (ea + ec)) in
  mul (S754_finite sa ma ea) (S754_finite sc mc ec) = onGrid (xorb sa sc) M g /\
  valid_binary prec emax (onGrid (xorb sa sc) M g) = true /\
  magnitude (onGrid (xorb sa sc) M g) = Z.min (M * 2 ^ (g + 1074)) top.
Proof.
  intros Ha Hc g M.
  pose proof (product_fine ma ea mc ec Ha Hc) as Hfine.
  destruct (round_on_grid (xorb sa sc) (ma * mc) (ea + ec) loc_Exact Hfine)
    as (M' & _ & HM' & Hr).
  specialize (HM' eq_refl). subst M'.
  destruct (nearestEven_range (ma * mc) (ea + ec) Hfine) as (HM & HN).
  destruct (grid_quotient (ma * mc) (ea + ec) Hfine) as (Hg & _).
  split; [exact Hr|]. split.
  - apply onGrid_valid; assumption.
  - apply onGrid_magnitude; assumption.
Qed.

(** The sign of a number that is not NaN. *)
Lemma signedMagnitude_sign (v : number) :
  signedMagnitude v
  = match v with
    | S754_zero _ | S754_nan => 0
    | S754_infinity true | S754_finite true _ _ => - magnitude v
    | _ => magnitude v
    end.
Proof. now destruct v as [[|]|[|]| |[|] m e]. Qed.

Lemma magnitude_finite (m : positive) (e : Z) :
  SpecFloat.bounded prec emax m e = true ->
  0 < Z.pos m * 2 ^ (e + 1074) < top.
Proof.
  intros Hb. pose proof (bounded_spec m e Hb) as (He & Hm & _).
  unfold SpecFloat.bounded in Hb. apply andb_prop in Hb as [_ Hmax].
  apply Z.leb_le in Hmax.
  pose proof (pow2_pos (e + 1074) ltac:(lia)) as HA.
  pose proof (top_above e ltac:(lia)).
  split; nia.
Qed.

Lemma leb_negative (ma : positive) (ea : Z) (mb : positive) (eb : Z) :
  leb (S754_finite true ma ea) (S754_finite true mb eb)
  = leb (S754_finite false mb eb) (S754_finite false ma ea).
Proof.
  unfold leb, SFleb. cbn [SFcompare].
  rewrite (Z.compare_antisym ea eb).
  destruct (Z.compare_spec ea eb) as [He|He|He]; cbn [CompOpp];
    try reflexivity.
  change (Pos.compare_cont Eq mb ma) with (Pos.compare mb ma).
  change (Pos.compare_cont Eq ma mb) with (Pos.compare ma mb).
  rewrite (Pos.compare_antisym ma mb).
  destruct (Pos.compare mb ma); reflexivity.
Qed.

(** [a <= b] on numbers is the order of the signed magnitudes. *)
Lemma leb_signedMagnitude (a b : number) :
  valid_binary prec emax a = true -> valid_binary prec emax b = true ->
  isNaN a = false -> isNaN b = false ->
  (leb a b = true <-> signedMagnitude a <= signedMagnitude b).
Proof.
  intros Ha Hb Hna Hnb.
  pose proof top_pos as Htop.
  destruct a as [sa|sa| |sa ma ea]; try discriminate Hna;
    destruct b as [sb|sb| |sb mb eb]; try discriminate Hnb;
    cbn [valid_binary] in Ha, Hb;
    try pose proof (magnitude_finite ma ea Ha) as HA;
    try pose proof (magnitude_finite mb eb Hb) as HB;
    try (destruct sa); try (destruct sb);
    try (rewrite leb_negative);
    try (rewrite (leb_key (S754_finite false mb eb) (S754_finite false ma ea))
           by (eexists _, _; split; [reflexivity|assumption]));
    try (rewrite (leb_key (S754_finite false ma ea) (S754_finite false mb eb))
           by (eexists _, _; split; [reflexivity|assumption]));
    unfold keyLe, keyOf, leb, SFleb;
    cbn [SFcompare signedMagnitude magnitude];
    split; intros H; try reflexivity; try discriminate H; try lia.
Qed.

Lemma isNeg_cases (v : number) :
  valid_binary prec emax v = true -> isNaN v = false ->
  0 <= magnitude v <= top /\
  (signedMagnitude v = magnitude v \/ signedMagnitude v = - magnitude v).
Proof.
  intros Hv Hn.
  pose proof top_pos as Htop.
  destruct v as [s|s| |s m e]; try discriminate Hn; cbn [valid_binary] in Hv;
    try pose proof (magnitude_finite m e Hv);
    try (destruct s); cbn [signedMagnitude magnitude]; lia.
Qed.

End ProductOrder.

Section ProductMonotone.
Import JsNumber NumberOrder Rounding.

Lemma mul_valid (a c : number) :
  valid_binary prec emax a = true -> valid_binary prec emax c = true ->
  valid_binary prec emax (mul a c) = true.
Proof.
  intros Ha Hc.
  destruct a as [sa|sa| |sa ma ea], c as [sc|sc| |sc mc ec];
    try reflexivity.
  cbn [valid_binary] in Ha, Hc.
  destruct (mul_finite sa ma ea sc mc ec Ha Hc) as (-> & Hv & _).
  exact Hv.
Qed.

(** Multiplying by a positive finite number keeps the sign. *)
Lemma mul_by_finite (x : number) (mc : positive) (ec : Z) :
  valid_binary prec emax x = true ->
  SpecFloat.bounded prec emax mc ec = true -> isNaN x = false ->
  let r := mul x (S754_finite false mc ec) in
  isNaN r = false /\
  (signedMagnitude x = magnitude x -> signedMagnitude r = magnitude r) /\
  (signedMagnitude x = - magnitude x -> signedMagnitude r = - magnitude r).
Proof.
  intros Hx Hc Hn. cbv zeta.
  destruct x as [s|s| |s m e]; try discriminate Hn.
  - unfold mul. cbn [SFmul]. now destruct s.
  - unfold mul. cbn [SFmul].
    pose proof top_pos.
    destruct s; cbn [xorb isNaN signedMagnitude magnitude]; repeat split; lia.
  - cbn [valid_binary] in Hx.
    destruct (mul_finite s m e false mc ec Hx Hc) as (-> & _ & _).
    rewrite xorb_false_r.
    set (g := gridOf (m * mc) (e + ec)).
    set (M := nearestEven (Z.pos (m * mc)) (g - (e + ec))).
    pose proof (product_fine m e mc ec Hx Hc) as Hfine.
    destruct (nearestEven_range (m * mc) (e + ec) Hfine) as (HM & HN).
    destruct (grid_quotient (m * mc) (e + ec) Hfine) as (Hg & _).
    fold g in HM, HN, Hg. fold M in HM, HN.
    destruct (onGrid_magnitude s M g Hg HM HN) as (Hmag & Hsgn).
    pose proof (magnitude_finite m e Hx) as Hpos.
    split.
    + unfold onGrid. destruct M as [|p|p]; [reflexivity| |reflexivity].
      destruct (Z.pos p <? 2 ^ 53);
        match goal with |- context [if ?c then _ else _] => destruct c end;
        reflexivity.
    + rewrite Hsgn. destruct s; cbn [signedMagnitude magnitude]; split; lia.
Qed.

(** Multiplying by a positive finite number keeps the order of the
    magnitudes. *)
Lemma mul_by_finite_mono (x y : number) (mc : positive) (ec : Z) :
  valid_binary prec emax x = true -> valid_binary prec emax y = true ->
  SpecFloat.bounded prec emax mc ec = true ->
  isNaN x = false -> isNaN y = false ->
  magnitude x <= magnitude y ->
  0 <= magnitude (mul x (S754_finite false mc ec))
    <= magnitude (mul y (S754_finite false mc ec)).
Proof.
  intros Hx Hy Hc Hnx Hny Hle.
  pose proof top_pos as Htop.
  assert (Hfin : forall s m e,
            SpecFloat.bounded prec emax m e = true ->
            0 <= magnitude (mul (S754_finite s m e) (S754_finite false mc ec))
              <= top).
  { intros s m e Hb.
    destruct (mul_finite s m e false mc ec Hb Hc) as (-> & _ & ->).
    pose proof (product_fine m e mc ec Hb Hc) as Hfine.
    destruct (nearestEven_range (m * mc) (e + ec) Hfine) as (HM & _).
    destruct (grid_quotient (m * mc) (e + ec) Hfine) as (Hg & _).
    pose proof (pow2_pos (gridOf (m * mc) (e + ec) + 1074) ltac:(lia)).
    split; [|lia]. apply Z.min_glb; [|lia].
    apply Z.mul_nonneg_nonneg; lia. }
  destruct x as [sx|sx| |sx mx ex]; try discriminate Hnx;
    destruct y as [sy|sy| |sy my ey]; try discriminate Hny;
    cbn [valid_binary] in Hx, Hy;
    try pose proof (magnitude_finite mx ex Hx) as HX;
    try pose proof (magnitude_finite my ey Hy) as HY;
    try pose proof (Hfin sx mx ex Hx) as HFx;
    try pose proof (Hfin sy my ey Hy) as HFy;
    cbn [magnitude] in Hle; try lia;
    try (unfold mul in *; cbn [SFmul magnitude] in *; lia).
  (* two finite numbers *)
  destruct (mul_finite sx mx ex false mc ec Hx Hc) as (-> & _ & ->).
  destruct (mul_finite sy my ey false mc ec Hy Hc) as (-> & _ & ->).
  pose proof (product_fine mx ex mc ec Hx Hc) as Hfx.
  pose proof (product_fine my ey mc ec Hy Hc) as Hfy.
  assert (HK : nearestEven (Z.pos (mx * mc))
                 (gridOf (mx * mc) (ex + ec) - (ex + ec))
               * 2 ^ (gridOf (mx * mc) (ex + ec) + 1074)
               <= nearestEven (Z.pos (my * mc))
                    (gridOf (my * mc) (ey + ec) - (ey + ec))
                  * 2 ^ (gridOf (my * mc) (ey + ec) + 1074)).
  { apply grid_monotone; try assumption.
    apply bounded_spec in Hx as (Hex & _). apply bounded_spec in Hy as (Hey & _).
    replace (Z.min (ex + ec) (ey + ec)) with (Z.min ex ey + ec) by lia.
    replace (ex + ec - (Z.min ex ey + ec)) with (ex - Z.min ex ey) by lia.
    replace (ey + ec - (Z.min ex ey + ec)) with (ey - Z.min ex ey) by lia.
    set (mn := Z.min ex ey) in *.
    replace (ex + 1074) with ((ex - mn) + (mn + 1074)) in Hle by lia.
    replace (ey + 1074) with ((ey - mn) + (mn + 1074)) in Hle by lia.
    rewrite (pow2_split (ex - mn)), (pow2_split (ey - mn)) in Hle
      by (unfold mn; lia).
    rewrite !Z.mul_assoc in Hle.
    apply Z.mul_le_mono_pos_r in Hle; [|apply pow2_pos; unfold mn; lia].
    rewrite !Pos2Z.inj_mul.
    rewrite <- !(Z.mul_assoc _ (Z.pos mc)), !(Z.mul_comm (Z.pos mc)),
      !Z.mul_assoc.
    apply Z.mul_le_mono_nonneg_r; lia. }
  destruct (nearestEven_range (mx * mc) (ex + ec) Hfx) as (HMx & _).
  destruct (grid_quotient (mx * mc) (ex + ec) Hfx) as (Hgx & _).
  pose proof (pow2_pos (gridOf (mx * mc) (ex + ec) + 1074) ltac:(lia)).
  split; [|lia]. apply Z.min_glb; [|lia].
  apply Z.mul_nonneg_nonneg; lia.
Qed.

(** Multiplication by a number that is not negative keeps the order,
    whenever the two products are numbers. *)
Lemma mul_le_mono (a b c : number) :
  valid_binary prec emax a = true -> valid_binary prec emax b = true ->
  valid_binary prec emax c = true ->
  notNegative c = true -> leb a b = true ->
  isNaN (mul a c) = false -> isNaN (mul b c) = false ->
  leb (mul a c) (mul b c) = true.
Proof.
  intros Ha Hb Hc Hpos Hle Hna Hnb.
  assert (Hnan : forall v, isNaN (mul v c) = false -> isNaN v = false)
    by (intros [s|s| |s m e]; intros Hv; [reflexivity..|discriminate Hv|reflexivity]).
  pose proof (Hnan a Hna) as Ha'. pose proof (Hnan b Hnb) as Hb'.
  destruct c as [sc|sc| |sc mc ec].
  - (* c is zero: both products are zero *)
    destruct a as [sa|sa| |sa ma ea]; try discriminate Hna;
      destruct b as [sb|sb| |sb mb eb]; try discriminate Hnb; reflexivity.
  - (* c is +Infinity: the products are infinite with the signs of a, b *)
    destruct sc; [discriminate Hpos|].
    destruct a as [sa|sa| |sa ma ea]; try discriminate Hna;
      destruct b as [sb|sb| |sb mb eb]; try discriminate Hnb;
      destruct sa, sb; try reflexivity; discriminate Hle.
  - destruct a; discriminate Hna.
  - destruct sc; [discriminate Hpos|]. cbn [valid_binary] in Hc.
    apply (leb_signedMagnitude a b Ha Hb Ha' Hb') in Hle.
    destruct (mul_by_finite a mc ec Ha Hc Ha') as (_ & HPa & HNa).
    destruct (mul_by_finite b mc ec Hb Hc Hb') as (_ & HPb & HNb).
    destruct (isNeg_cases a Ha Ha') as (Hra & Hsa).
    destruct (isNeg_cases b Hb Hb') as (Hrb & Hsb).
    apply leb_signedMagnitude; try assumption; try (now apply mul_valid).
    destruct Hsa as [Hsa|Hsa], Hsb as [Hsb|Hsb];
      rewrite ?(HPa Hsa), ?(HNa Hsa), ?(HPb Hsb), ?(HNb Hsb).
    + pose proof (mul_by_finite_mono a b mc ec Ha Hb Hc Ha' Hb' ltac:(lia)).
      lia.
    + assert (Hz : magnitude a <= magnitude b) by lia.
      assert (Hz' : magnitude b <= magnitude a) by lia.
      pose proof (mul_by_finite_mono a b mc ec Ha Hb Hc Ha' Hb' Hz).
      pose proof (mul_by_finite_mono b a mc ec Hb Ha Hc Hb' Ha' Hz').
      lia.
    + pose proof (mul_by_finite_mono a a mc ec Ha Ha Hc Ha' Ha' ltac:(lia)).
      pose proof (mul_by_finite_mono b b mc ec Hb Hb Hc Hb' Hb' ltac:(lia)).
      lia.
    + pose proof (mul_by_finite_mono b a mc ec Hb Ha Hc Hb' Ha' ltac:(lia)).
      lia.
Qed.

End ProductMonotone.

Section RootValid.
Import JsNumber NumberOrder Rounding.

(** Rounding a mantissa that has its 53 digits or lies below the least
    exponent gives a number in normal form, whatever was lost before. *)
Lemma round_valid (s : bool) (p : positive) (e : Z) (l : location) :
  e <= gridOf p e ->
  valid_binary prec emax (binary_round_aux prec emax s (Z.pos p) e l) = true.
Proof.
  intros Hfine.
  destruct (round_on_grid s p e l Hfine) as (M & HM & _ & ->).
  destruct (grid_quotient p e Hfine) as (Hg & Hq & Hn).
  apply onGrid_valid; lia.
Qed.

(** [Math.sqrt] returns a number in normal form for every argument. *)
Lemma sqrt_valid (a : number) : valid_binary prec emax (sqrt a) = true.
Proof.
  destruct a as [s|s| |s m e]; try (destruct s); try reflexivity.
  unfold sqrt. cbn [SFsqrt]. unfold SFsqrt_core_binary.
  cbn [Zdigits2].
  pose proof (digits_lower m) as Hlo.
  set (d := Z.pos (digits2_pos m)) in *.
  assert (Hd : 1 <= d) by (unfold d; lia).
  set (e' := Z.min (fexp prec emax (Z.div2 (d + e + 1))) (Z.div2 e)).
  assert (He' : e' <= fexp prec emax (Z.div2 (d + e + 1)) /\ 2 * e' <= e).
  { unfold e'. rewrite !Z.div2_div. split; [lia|].
    pose proof (Z.mul_div_le e 2 ltac:(lia)). lia. }
  destruct He' as [He1 He2].
  assert (Hshl : forall sh, 0 <= sh ->
            match sh with Z.pos _ => Z.shiftl (Z.pos m) sh
                        | 0 => Z.pos m | Z.neg _ => 0 end
            = Z.pos m * 2 ^ sh).
  { intros [|k|k] Hk; [lia| |lia].
    rewrite Z.shiftl_mul_pow2 by lia. reflexivity. }
  rewrite (Hshl (e - 2 * e')) by lia.
  set (sh := e - 2 * e') in *.
  set (m' := Z.pos m * 2 ^ sh).
  assert (Hm' : m' = Z.pos m * 2 ^ sh) by reflexivity.
  assert (Hsh : 0 <= sh) by (unfold sh; lia).
  pose proof (pow2_pos sh Hsh) as HS.
  assert (Hpos : 0 < m') by (rewrite Hm'; nia).
  pose proof (Z.sqrtrem_spec m' ltac:(lia)) as Hq.
  destruct (Z.sqrtrem m') as [q r].
  destruct Hq as [Hq Hr].
  assert (Hq1 : 1 <= q) by nia.
  destruct q as [|pq|pq]; try lia.
  apply round_valid.
  (* the root has the digits its exponent asks for *)
  rewrite gridOf_eq.
  unfold fexp, SpecFloat.emin, prec, emax in He1.
  rewrite Z.div2_div in He1.
  set (k := (d + e + 1) / 2 - e' - 1).
  assert (Hdq : k < Z.pos (digits2_pos pq)).
  { destruct (Z_lt_le_dec k 0) as [Hneg|Hk]; [lia|].
    apply digits_ge.
    assert (H2k : 2 ^ k * 2 ^ k <= m').
    { rewrite Hm', <- pow2_split by lia.
      transitivity (2 ^ (d - 1) * 2 ^ sh);
        [|apply Z.mul_le_mono_nonneg_r; lia].
      rewrite <- pow2_split by lia. apply pow2_le.
      pose proof (Z.mul_div_le (d + e + 1) 2 ltac:(lia)).
      unfold k, sh. lia. }
    pose proof (pow2_pos k Hk).
    nia. }
  unfold k in Hdq. lia.
Qed.

Lemma ltb_leb (a b : number) : ltb a b = true -> leb a b = true.
Proof.
  unfold ltb, leb, SFltb, SFleb.
  destruct (SFcompare a b) as [[| |]|]; intros H; try discriminate H;
    reflexivity.
Qed.

Lemma mul_not_NaN (a c : number) : isNaN (mul a c) = false -> isNaN a = false.
Proof. destruct a; intros H; [reflexivity..|discriminate H|reflexivity]. Qed.

End RootValid.

(* ================================================================== *)
(** * The offset model keeps the order of its fractions *)
(* ================================================================== *)

Section OffsetMonotone.
Import JsNumber NumberOrder Rounding CameraMatrixUtils Samples.

(** C4 (as amended). In the arithmetic of the program, for a depth that is
    not negative and whenever the bounds compared are numbers: of two calls
    that differ only in [maxDisparity], the one with the larger value has
    lateral bounds that are not smaller, and the same medial bound; of two
    calls that differ only in [maxZoom], the one with the larger value has
    a medial bound that is not smaller, and the same lateral bounds. *)
Theorem C4_offset_monotone :
  forall (minDepth width height focalLengthPx : number)
         (p q : TrajectoryParams number),
    valid_binary prec emax minDepth = true ->
    notNegative minDepth = true ->
    let op := computeMaxOffset minDepth (width, height) focalLengthPx p in
    let oq := computeMaxOffset minDepth (width, height) focalLengthPx q in
    (maxZoom p = maxZoom q ->
     valid_binary prec emax (maxDisparity p) = true ->
     valid_binary prec emax (maxDisparity q) = true ->
     ltb (maxDisparity p) (maxDisparity q) = true ->
     isNaN (x op) = false -> isNaN (x oq) = false ->
     leb (x op) (x oq) = true /\ leb (y op) (y oq) = true /\ z op = z oq) /\
    (maxDisparity p = maxDisparity q ->
     valid_binary prec emax (maxZoom p) = true ->
     valid_binary prec emax (maxZoom q) = true ->
     ltb (maxZoom p) (maxZoom q) = true ->
     isNaN (z op) = false -> isNaN (z oq) = false ->
     leb (z op) (z oq) = true /\ x op = x oq /\ y op = y oq).
Proof.
  intros minDepth width height f p q Hv Hpos. cbv zeta.
  unfold computeMaxOffset. cbn [x y z numMul numAdd numDiv numSqrt Arith_number].
  set (D := sqrt _).
  assert (HD : valid_binary prec emax D = true) by apply sqrt_valid.
  assert (HD0 : notNegative D = true) by apply sqrt_notNegative.
  split.
  - intros Hz Hvp Hvq Hlt Hnp Hnq.
    assert (Hx : leb (mul (mul (maxDisparity p) D) minDepth)
                     (mul (mul (maxDisparity q) D) minDepth) = true).
    { apply mul_le_mono; try assumption; try (now apply mul_valid).
      apply mul_le_mono; try assumption.
      - now apply ltb_leb.
      - now apply mul_not_NaN in Hnp.
      - now apply mul_not_NaN in Hnq. }
    split; [exact Hx|]. split; [exact Hx|]. now rewrite Hz.
  - intros Hx Hvp Hvq Hlt Hnp Hnq.
    split; [|now rewrite Hx].
    apply mul_le_mono; try assumption. now apply ltb_leb.
Qed.

Lemma C4_offset_monotone_witness :
  let p := {| maxDisparity := dec 8 100; maxZoom := dec 3 10 |} in
  let q := {| maxDisparity := dec 16 100; maxZoom := dec 3 10 |} in
  (ltb (maxDisparity p) (maxDisparity q) = true /\
   notNegative (ofZ 1) = true) /\
  leb (x (computeMaxOffset (ofZ 1) sampleResolution (ofZ 500) p))
      (x (computeMaxOffset (ofZ 1) sampleResolution (ofZ 500) q)) = true /\
  leb (y (computeMaxOffset (ofZ 1) sampleResolution (ofZ 500) p))
      (y (computeMaxOffset (ofZ 1) sampleResolution (ofZ 500) q)) = true /\
  z (computeMaxOffset (ofZ 1) sampleResolution (ofZ 500) p)
  = z (computeMaxOffset (ofZ 1) sampleResolution (ofZ 500) q).
Proof.
  cbv zeta. split.
  - split; vm_compute; reflexivity.
  - apply (proj1 (C4_offset_monotone (ofZ 1) (ofZ 640) (ofZ 480) (ofZ 500)
                    {| maxDisparity := dec 8 100; maxZoom := dec 3 10 |}
                    {| maxDisparity := dec 16 100; maxZoom := dec 3 10 |}
                    ltac:(vm_compute; reflexivity)
                    ltac:(vm_compute; reflexivity)));
      vm_compute; reflexivity.
Defined.

End OffsetMonotone.


(* ================================================================== *)
(** * The header parser *)
(* ================================================================== *)

Section HeaderInvariant.
Import JsNumber JsString PlyMetadata HeaderText Samples.

(** ** Arrays updated in place *)

Lemma updateAt_length {A} (l : list A) (i : nat) (f : A -> A) :
  List.length (updateAt l i f) = List.length l.
Proof.
  revert i. induction l as [|x r IH]; intros [|j]; cbn; auto.
Qed.

Lemma updateAt_nth_same {A} (l : list A) (i : nat) (f : A -> A) :
  nth_error (updateAt l i f) i = option_map f (nth_error l i).
Proof.
  revert i. induction l as [|x r IH]; intros [|j]; cbn; auto.
Qed.

Lemma updateAt_nth_other {A} (l : list A) (i j : nat) (f : A -> A) :
  i <> j -> nth_error (updateAt l i f) j = nth_error l j.
Proof.
  revert i j. induction l as [|x r IH]; intros [|i] [|j] Hne; cbn; auto;
    congruence.
Qed.

(** ** The sizes of the property types *)

Lemma getPropertyByteSize_values (type : jsstring) :
  In (getPropertyByteSize type) [1; 2; 4; 8].
Proof.
  unfold getPropertyByteSize.
  repeat match goal with
         | |- context [if ?c then _ else _] => destruct c
         end; cbn; auto.
Qed.

(** ** The invariant of the header loop *)

Lemma headerDone_inv st : headerDone st -> headerInv st.
Proof.
  intros (Ha & Hb & Hc). split; [assumption|]. split; [assumption|].
  intros r el Hr. destruct (Hc r el Hr) as (H1 & H2 & H3). auto.
Qed.

Lemma saveElement_done st : headerInv st -> headerDone (saveElement st).
Proof.
  intros (Ha & Hb & Hc). unfold saveElement.
  destruct (currentElement st) as [c|] eqn:Hcur.
  - specialize (Hb c eq_refl).
    split; [|split]; cbn [objects elements currentElement].
    + intros r Hr. rewrite updateAt_length.
      apply in_app_or in Hr as [Hr|[<-|[]]]; auto.
    + intros r Hr. injection Hr as <-. now rewrite updateAt_length.
    + intros r el Hr.
      destruct (Nat.eq_dec c r) as [<-|Hne].
      * rewrite updateAt_nth_same in Hr.
        destruct (nth_error (objects st) c) as [el0|] eqn:H0;
          [|discriminate].
        injection Hr as <-. destruct (Hc c el0 H0) as (H1 & H2 & _).
        repeat split; assumption.
      * rewrite updateAt_nth_other in Hr by assumption.
        destruct (Hc r el Hr) as (H1 & H2 & H3).
        repeat split; try assumption. apply H3. congruence.
  - split; [assumption|]. split; [intros r Hr; congruence|].
    intros r el Hr. destruct (Hc r el Hr) as (H1 & H2 & H3).
    repeat split; try assumption. apply H3. congruence.
Qed.

Lemma formatLine_inv parts st : headerInv st -> headerInv (formatLine parts st).
Proof. intros H. exact H. Qed.

Lemma truthy_name parts :
  truthy (nth_error parts 1) = true -> nullish (nth_error parts 1) [] <> [].
Proof.
  destruct (nth_error parts 1) as [[|c s]|]; cbn; congruence.
Qed.

Lemma elementLine_inv parts st :
  headerInv st -> headerInv (elementLine parts st).
Proof.
  intros H. apply saveElement_done in H. unfold elementLine.
  destruct (lengthGe3 parts && truthy (nth_error parts 1)) eqn:Hok;
    [|now apply headerDone_inv].
  apply andb_true_iff in Hok as [_ Hname].
  destruct H as (Ha & Hb & Hc).
  split; [|split]; cbn [objects elements currentElement].
  - intros r Hr. rewrite length_app. specialize (Ha r Hr). lia.
  - intros r Hr. injection Hr as <-. rewrite length_app. cbn. lia.
  - intros r el Hr.
    destruct (Nat.lt_ge_cases r (List.length (objects (saveElement st))))
      as [Hlt|Hge].
    + rewrite nth_error_app1 in Hr by assumption.
      destruct (Hc r el Hr) as (H1 & H2 & H3). auto.
    + rewrite nth_error_app2 in Hr by assumption.
      destruct (r - List.length (objects (saveElement st)))%nat as [|k] eqn:Hk;
        cbn in Hr; [|destruct k; discriminate].
      injection Hr as <-.
      split; [constructor|]. split; [now apply truthy_name|].
      reflexivity.
Qed.

Lemma propertyLine_inv parts c st :
  currentElement st = Some c -> headerInv st ->
  headerInv (propertyLine parts c st).
Proof.
  intros Hcur (Ha & Hb & Hc). unfold propertyLine.
  destruct (lengthGe3 parts && truthy (nth_error parts 1)
            && truthy (nth_error parts 2));
    [|split; [assumption|split; assumption]].
  split; [|split]; cbn [objects elements currentElement].
  - intros r Hr. rewrite updateAt_length. auto.
  - intros r Hr. rewrite updateAt_length. auto.
  - intros r el Hr.
    destruct (Nat.eq_dec c r) as [<-|Hne].
    + rewrite updateAt_nth_same in Hr.
      destruct (nth_error (objects st) c) as [el0|] eqn:H0; [|discriminate].
      injection Hr as <-. destruct (Hc c el0 H0) as (H1 & H2 & _).
      cbn [typedProperties summed properties name bytesPerElement].
      split; [|split; [assumption|congruence]].
      unfold typedProperties. cbn [properties].
      apply Forall_app. split; [assumption|].
      constructor; [reflexivity|constructor].
    + rewrite updateAt_nth_other in Hr by assumption.
      apply (Hc r el Hr).
Qed.

Lemma headerLine_inv trimmed st : headerInv st -> headerInv (headerLine trimmed st).
Proof.
  intros H. unfold headerLine.
  destruct (startsWith trimmed (lit "format ")); [now apply formatLine_inv|].
  destruct (startsWith trimmed (lit "element ")); [now apply elementLine_inv|].
  destruct (currentElement st) as [c|] eqn:Hcur; [|assumption].
  destruct (startsWith trimmed (lit "property ")); [|assumption].
  now apply propertyLine_inv.
Qed.

Lemma withOffset_inv st off : headerInv st -> headerInv (withOffset st off).
Proof. intros H. exact H. Qed.

Lemma withEnd_inv st : headerInv st -> headerInv (withEnd st).
Proof. intros H. exact H. Qed.

Lemma headerLoop_inv lines :
  forall st, headerInv st -> headerInv (headerLoop lines st).
Proof.
  induction lines as [|line rest IH]; intros st H; cbn [headerLoop];
    [assumption|].
  destruct (JsString.eqb (trim line) (lit "end_header")).
  - now apply withEnd_inv, withOffset_inv.
  - apply IH, headerLine_inv, withOffset_inv, H.
Qed.

Lemma headerStart_inv : headerInv headerStart.
Proof.
  split; [intros r []|]. split; [intros r Hr; discriminate|].
  intros [|r] el Hr; discriminate.
Qed.

(** X10. [parsePlyHeader]: whatever the text, every element returned has a
    name that is not empty, properties that carry the size of their type
    (1, 2, 4 or 8 bytes), and a record size that is the sum of these
    sizes, also when a malformed [element] line made the parser return the
    same element twice. *)
Theorem header_elements_sized :
  forall (text : jsstring) (el : ElementInfo),
    In el (hd_elements (parsePlyHeader text)) ->
    name el <> [] /\
    bytesPerElement el = sumByteSizes (properties el) /\
    (forall p, In p (properties el) ->
       byteSize p = getPropertyByteSize (propType p) /\
       In (byteSize p) [1; 2; 4; 8]).
Proof.
  intros text el Hel. unfold parsePlyHeader in Hel. cbn [hd_elements] in Hel.
  pose proof (saveElement_done _
                (headerLoop_inv (split text 10%N) _ headerStart_inv))
    as (Ha & _ & Hc).
  apply in_map_iff in Hel as (r & Hnth & Hr).
  specialize (Ha r Hr).
  destruct (nth_error (objects (saveElement
              (headerLoop (split text 10%N) headerStart))) r) as [el0|] eqn:H0.
  - rewrite (nth_error_nth _ _ _ H0) in Hnth. subst el0.
    destruct (Hc r el H0) as (H1 & H2 & H3).
    split; [assumption|]. split; [assumption|].
    intros p Hp. unfold typedProperties in H1. rewrite Forall_forall in H1.
    specialize (H1 p Hp). split; [assumption|].
    rewrite H1. apply getPropertyByteSize_values.
  - apply nth_error_None in H0. lia.
Qed.

Lemma header_elements_sized_witness :
  let el := {| name := lit "image_size"; count := ofZ 1;
               properties :=
                 [{| propName := lit "width"; propType := lit "uint";
                     byteSize := 4 |};
                  {| propName := lit "height"; propType := lit "uint";
                     byteSize := 4 |}];
               bytesPerElement := 8 |} in
  name el <> [] /\
  bytesPerElement el = sumByteSizes (properties el) /\
  (forall p, In p (properties el) ->
     byteSize p = getPropertyByteSize (propType p) /\
     In (byteSize p) [1; 2; 4; 8]).
Proof.
  apply (header_elements_sized (asciiText headerOnlyPly)).
  vm_compute. left. reflexivity.
Defined.

End HeaderInvariant.

Section HeaderLines.
Import JsNumber JsString PlyMetadata HeaderText Samples.

(** ** Strings *)

Lemma jsstring_eqb_eq (a b : jsstring) : JsString.eqb a b = true <-> a = b.
Proof.
  revert b. induction a as [|x a IH]; intros [|y b]; cbn;
    try (split; [discriminate|discriminate]); [tauto|].
  rewrite andb_true_iff, N.eqb_eq, IH. split.
  - intros [-> ->]. reflexivity.
  - intros H. injection H as -> ->. auto.
Qed.

(** ** Lines *)

Lemma oneLine_spec (l : jsstring) : oneLine l = true -> ~ In 10%N l.
Proof.
  unfold oneLine. intros H Hin.
  apply negb_true_iff in H.
  assert (existsb (N.eqb 10) l = true); [|congruence].
  apply existsb_exists. exists 10%N. split; [assumption|reflexivity].
Qed.

Lemma splitOn_line (l : jsstring) :
  ~ In 10%N l ->
  forall s cur,
    splitOn 10%N (l ++ 10%N :: s) cur = (rev cur ++ l) :: splitOn 10%N s [].
Proof.
  induction l as [|c l IH]; intros Hl s cur; cbn [splitOn app].
  - rewrite N.eqb_refl, app_nil_r. reflexivity.
  - destruct (N.eqb_spec c 10) as [->|Hc]; [exfalso; apply Hl; now left|].
    rewrite IH by (intros Hin; apply Hl; now right).
    cbn [rev]. now rewrite <- app_assoc.
Qed.

Lemma splitOn_last (l : jsstring) :
  ~ In 10%N l -> forall cur, splitOn 10%N l cur = [rev cur ++ l].
Proof.
  induction l as [|c l IH]; intros Hl cur; cbn [splitOn].
  - now rewrite app_nil_r.
  - destruct (N.eqb_spec c 10) as [->|Hc]; [exfalso; apply Hl; now left|].
    rewrite IH by (intros Hin; apply Hl; now right).
    cbn [rev]. now rewrite <- app_assoc.
Qed.

(** Splitting a text of whole lines gives the lines back, then what
    follows. *)
Lemma split_joinLines (pre : list jsstring) (s : jsstring) :
  forallb oneLine pre = true ->
  split (joinLines pre ++ s) 10%N = pre ++ split s 10%N.
Proof.
  unfold split. induction pre as [|l pre IH]; intros Hpre; [reflexivity|].
  cbn [forallb] in Hpre. apply andb_true_iff in Hpre as [Hl Hpre].
  change (joinLines (l :: pre)) with ((l ++ [10%N]) ++ joinLines pre).
  rewrite <- !app_assoc. cbn [app].
  rewrite splitOn_line by now apply oneLine_spec.
  cbn [rev app]. f_equal. now apply IH.
Qed.

(** ** The loop over the lines *)

Lemma saveElement_offsets st :
  byteOffset (saveElement st) = byteOffset st /\
  headerEndIndex (saveElement st) = headerEndIndex st /\
  format (saveElement st) = format st.
Proof. unfold saveElement. destruct (currentElement st); repeat split. Qed.

Lemma headerLine_offsets trimmed st :
  byteOffset (headerLine trimmed st) = byteOffset st /\
  headerEndIndex (headerLine trimmed st) = headerEndIndex st.
Proof.
  unfold headerLine, formatLine, elementLine, propertyLine.
  pose proof (saveElement_offsets st) as (H1 & H2 & _).
  repeat match goal with
         | |- context [if ?c then _ else _] => destruct c
         | |- context [match ?c with Some _ => _ | None => _ end] =>
             destruct c
         end; cbn [byteOffset headerEndIndex]; auto.
Qed.

(** Lines before the terminator are all read, and move the offset by
    their lengths and their line feeds. *)
Lemma headerLoop_app (pre more : list jsstring) :
  forallb (fun l => negb (isTerminator l)) pre = true ->
  forall st,
    headerLoop (pre ++ more) st = headerLoop more (headerLoop pre st) /\
    byteOffset (headerLoop pre st)
      = byteOffset st + Z.of_nat (List.length (joinLines pre)) /\
    headerEndIndex (headerLoop pre st) = headerEndIndex st.
Proof.
  induction pre as [|l pre IH]; intros Hpre st.
  - cbn. repeat split. lia.
  - cbn [forallb] in Hpre. apply andb_true_iff in Hpre as [Hl Hpre].
    apply negb_true_iff in Hl. unfold isTerminator in Hl.
    cbn [app headerLoop]. rewrite Hl.
    destruct (IH Hpre (headerLine (trim l)
                (withOffset st (byteOffset st
                                + (Z.of_nat (List.length l) + 1)))))
      as (H1 & H2 & H3).
    destruct (headerLine_offsets (trim l)
                (withOffset st (byteOffset st
                                + (Z.of_nat (List.length l) + 1))))
      as (H4 & H5).
    split; [exact H1|]. split.
    + rewrite H2, H4. cbn [withOffset byteOffset].
      change (joinLines (l :: pre)) with ((l ++ [10%N]) ++ joinLines pre).
      rewrite !length_app. cbn [List.length]. lia.
    + rewrite H3, H5. reflexivity.
Qed.

(** The terminator line ends the loop: what follows it is not read. *)
Lemma headerLoop_terminator (endl : jsstring) (more : list jsstring) st :
  isTerminator endl = true ->
  headerLoop (endl :: more) st
  = withEnd (withOffset st (byteOffset st
                            + (Z.of_nat (List.length endl) + 1))).
Proof. unfold isTerminator. intros H. cbn [headerLoop]. now rewrite H. Qed.

(** A text whose lines [pre] are followed by a terminator line: the
    header is the same whatever follows that line, and the index returned
    is the length of the text up to and including its line feed. *)
Lemma parsePlyHeader_terminated (pre : list jsstring) (endl rest : jsstring) :
  forallb oneLine pre = true ->
  forallb (fun l => negb (isTerminator l)) pre = true ->
  oneLine endl = true -> isTerminator endl = true ->
  parsePlyHeader (joinLines pre ++ endl ++ 10%N :: rest)
    = parsePlyHeader (joinLines pre ++ endl) /\
  hd_headerEndIndex (parsePlyHeader (joinLines pre ++ endl ++ 10%N :: rest))
    = Z.of_nat (List.length (joinLines pre ++ endl)) + 1.
Proof.
  intros Hpre Hnot Hendl Hterm.
  assert (Hloop : forall tail more,
            split (endl ++ tail) 10%N = endl :: more ->
            headerLoop (split (joinLines pre ++ endl ++ tail) 10%N) headerStart
            = withEnd (withOffset (headerLoop pre headerStart)
                (byteOffset (headerLoop pre headerStart)
                 + (Z.of_nat (List.length endl) + 1)))).
  { intros tail more Hs.
    rewrite split_joinLines, Hs by assumption.
    destruct (headerLoop_app pre (endl :: more) Hnot headerStart)
      as (-> & _ & _).
    now apply headerLoop_terminator. }
  assert (H1 : split (endl ++ 10%N :: rest) 10%N = endl :: split rest 10%N).
  { unfold split. rewrite splitOn_line by now apply oneLine_spec.
    reflexivity. }
  assert (H2 : split (endl ++ []) 10%N = [endl]).
  { unfold split. rewrite app_nil_r.
    rewrite splitOn_last by now apply oneLine_spec. reflexivity. }
  pose proof (Hloop _ _ H1) as L1. pose proof (Hloop _ _ H2) as L2.
  rewrite app_nil_r in L2.
  unfold parsePlyHeader. rewrite L1, L2. split; [reflexivity|].
  cbn [hd_headerEndIndex].
  destruct (saveElement_offsets
              (withEnd (withOffset (headerLoop pre headerStart)
                 (byteOffset (headerLoop pre headerStart)
                  + (Z.of_nat (List.length endl) + 1))))) as (_ & -> & _).
  cbn [withEnd withOffset headerEndIndex byteOffset].
  destruct (headerLoop_app pre [] Hnot headerStart) as (_ & -> & _).
  cbn [headerStart byteOffset]. rewrite length_app. lia.
Qed.

(** X11. [parsePlyHeader]: when no line of the text is [end_header] after
    trimming, the index returned is 0, so that the offsets of the elements
    are counted from the start of the file. *)
Theorem header_without_terminator :
  forall text : jsstring,
    forallb (fun l => negb (isTerminator l)) (split text 10%N) = true ->
    hd_headerEndIndex (parsePlyHeader text) = 0.
Proof.
  intros text Hnot. unfold parsePlyHeader. cbn [hd_headerEndIndex].
  destruct (saveElement_offsets (headerLoop (split text 10%N) headerStart))
    as (_ & -> & _).
  pose proof (headerLoop_app (split text 10%N) [] Hnot headerStart)
    as (_ & _ & H).
  exact H.
Qed.

Lemma header_without_terminator_witness :
  hd_headerEndIndex (parsePlyHeader (asciiText noTerminatorPly)) = 0.
Proof.
  apply (header_without_terminator (asciiText noTerminatorPly)).
  vm_compute. reflexivity.
Defined.

(** ** Decoding ASCII bytes *)

Lemma utf8Run_ascii (header : Buffer) (body : Buffer) :
  isAscii header = true ->
  utf8Run utf8Init (header ++ body)
  = asciiText header ++ utf8Run utf8Init body.
Proof.
  induction header as [|b header IH]; intros Ha; [reflexivity|].
  cbn [isAscii forallb] in Ha. apply andb_true_iff in Ha as [Hb Ha].
  cbn [app utf8Run asciiText List.map].
  unfold utf8Step. cbn [utf8Init bytesNeeded]. unfold utf8Lead.
  apply N.ltb_lt in Hb.
  destruct (N.leb_spec (Byte.to_N b) 127) as [_|Hbad]; [|lia].
  cbn [app]. f_equal. now apply IH.
Qed.

Lemma flat_map_utf16_ascii (header : Buffer) (cps : list N) :
  isAscii header = true ->
  flat_map utf16 (asciiText header ++ cps)
  = asciiText header ++ flat_map utf16 cps.
Proof.
  induction header as [|b header IH]; intros Ha; [reflexivity|].
  cbn [isAscii forallb] in Ha. apply andb_true_iff in Ha as [Hb Ha].
  cbn [asciiText List.map app flat_map]. unfold utf16 at 1.
  apply N.ltb_lt in Hb.
  destruct (N.leb_spec (Byte.to_N b) 65535) as [_|Hbad]; [|lia].
  cbn [app]. f_equal. now apply IH.
Qed.

Lemma utf8Decode_ascii (header body : Buffer) :
  isAscii header = true -> header <> [] ->
  utf8Decode (header ++ body)
  = asciiText header ++ flat_map utf16 (utf8Run utf8Init body).
Proof.
  intros Ha Hne. unfold utf8Decode. rewrite utf8Run_ascii by assumption.
  destruct header as [|b header]; [contradiction|].
  cbn [asciiText List.map app].
  assert (Hb : (Byte.to_N b <? 128)%N = true).
  { cbn [isAscii forallb] in Ha. now apply andb_true_iff in Ha as [Hb _]. }
  apply N.ltb_lt in Hb.
  destruct (N.eqb_spec (Byte.to_N b) 65279) as [Heq|_]; [lia|].
  change (Byte.to_N b :: List.map Byte.to_N header
          ++ utf8Run utf8Init body)
    with (asciiText (b :: header) ++ utf8Run utf8Init body).
  now rewrite flat_map_utf16_ascii.
Qed.

(** The header read from a buffer that starts with a terminated header of
    ASCII bytes. *)
Lemma headerOf_ascii_header :
  forall (header body : Buffer) (pre : list jsstring) (endl : jsstring),
    Z.of_nat (List.length header) <= 10000 ->
    isAscii header = true ->
    asciiText header = joinLines pre ++ endl ++ [10%N] ->
    forallb oneLine pre = true ->
    forallb (fun l => negb (isTerminator l)) pre = true ->
    oneLine endl = true -> isTerminator endl = true ->
    headerOf (header ++ body) = parsePlyHeader (asciiText header) /\
    hd_headerEndIndex (headerOf (header ++ body))
      = Z.of_nat (List.length header).
Proof.
  intros header body pre endl Hlen Ha Htext Hpre Hnot Hendl Hterm.
  assert (Hne : header <> []).
  { intros ->. cbn in Htext.
    destruct (joinLines pre); destruct endl; discriminate. }
  unfold headerOf.
  rewrite firstn_app.
  rewrite (firstn_all2 (n := Z.to_nat 10000) header) by lia.
  rewrite utf8Decode_ascii by assumption.
  set (tail := flat_map utf16
                 (utf8Run utf8Init
                    (firstn (Z.to_nat 10000 - List.length header) body))).
  assert (Htxt : asciiText header ++ tail
                 = joinLines pre ++ endl ++ 10%N :: tail)
    by (rewrite Htext, <- !app_assoc; reflexivity).
  rewrite Htxt.
  destruct (parsePlyHeader_terminated pre endl tail Hpre Hnot Hendl Hterm)
    as (E1 & E2).
  destruct (parsePlyHeader_terminated pre endl [] Hpre Hnot Hendl Hterm)
    as (E3 & _).
  split.
  - rewrite E1, Htext. symmetry. exact E3.
  - rewrite E2.
    assert (Hl : List.length (asciiText header)
                 = List.length (joinLines pre ++ endl ++ [10%N]))
      by now rewrite Htext.
    unfold asciiText in Hl. rewrite length_map in Hl.
    rewrite Hl, !length_app. cbn [List.length]. lia.
Qed.

(** X12. [parsePlyMetadata] reading its header: for a header of at most
    10000 ASCII bytes that ends with the line feed of its terminator line,
    followed by any body, the body has no part in the header that is read,
    and the index returned is the length of the header, the offset of the
    first byte of the body. *)
Theorem header_independent_of_body :
  forall (header body : Buffer) (pre : list jsstring) (endl : jsstring),
    Z.of_nat (List.length header) <= 10000 ->
    isAscii header = true ->
    asciiText header = joinLines pre ++ endl ++ [10%N] ->
    forallb oneLine pre = true ->
    forallb (fun l => negb (isTerminator l)) pre = true ->
    oneLine endl = true -> isTerminator endl = true ->
    headerOf (header ++ body) = parsePlyHeader (asciiText header) /\
    hd_headerEndIndex (headerOf (header ++ body))
      = Z.of_nat (List.length header).
Proof.
  intros header body pre endl Hlen Ha Htext Hpre Hnot Hendl Hterm.
  exact (headerOf_ascii_header header body pre endl
           Hlen Ha Htext Hpre Hnot Hendl Hterm).
Qed.

Lemma header_independent_of_body_witness :
  headerOf (headerOnlyPly ++ word32 640 ++ word32 480)
    = parsePlyHeader (asciiText headerOnlyPly) /\
  hd_headerEndIndex (headerOf (headerOnlyPly ++ word32 640 ++ word32 480))
    = Z.of_nat (List.length headerOnlyPly).
Proof.
  apply (header_independent_of_body headerOnlyPly (word32 640 ++ word32 480)
           (List.map lit ["ply"; "format binary_little_endian 1.0";
                          "element image_size 1";
                          "property uint width"; "property uint height"]%string)
           (lit "end_header")).
  - vm_compute. discriminate.
  - vm_compute. reflexivity.
  - vm_compute. reflexivity.
  - vm_compute. reflexivity.
  - vm_compute. reflexivity.
  - vm_compute. reflexivity.
  - vm_compute. reflexivity.
Defined.

End HeaderLines.

Section FormatLines.
Import JsNumber JsString PlyMetadata HeaderText MoreSamples.

Lemma headerLine_format trimmed st :
  format st <> ascii -> format (headerLine trimmed st) <> ascii.
Proof.
  intros H. unfold headerLine, formatLine, elementLine, propertyLine.
  pose proof (saveElement_offsets st) as (_ & _ & Hs).
  repeat match goal with
         | |- context [if ?c then _ else _] => destruct c
         | |- context [match ?c with Some _ => _ | None => _ end] =>
             destruct c
         end; cbn [format]; rewrite ?Hs; try assumption; discriminate.
Qed.

Lemma headerLoop_format lines :
  forall st, format st <> ascii -> format (headerLoop lines st) <> ascii.
Proof.
  induction lines as [|l lines IH]; intros st H; cbn [headerLoop];
    [assumption|].
  destruct (JsString.eqb (trim l) (lit "end_header")); [exact H|].
  apply IH, headerLine_format. exact H.
Qed.

Lemma headerLine_binary l st :
  namesBinaryFormat l = true -> format (headerLine (trim l) st) <> ascii.
Proof.
  unfold namesBinaryFormat, headerLine, formatLine.
  intros H. apply andb_true_iff in H as [-> H]. cbn [format].
  destruct (nth_error (splitSpaces (trim l)) 1) as [s|]; [|discriminate].
  destruct (JsString.eqb s (lit "binary_little_endian")); [discriminate|].
  destruct (JsString.eqb s (lit "binary_big_endian")); discriminate.
Qed.

(** X13. [parsePlyHeader]: once a line before the terminator names a
    binary format, the format returned is not the text format, whatever
    follows: a later [format ascii] line changes nothing, because only the
    two binary names are acted on. *)
Theorem binary_format_is_kept :
  forall (pre : list jsstring) (l rest : jsstring),
    forallb oneLine pre = true -> oneLine l = true ->
    forallb (fun l => negb (isTerminator l)) pre = true ->
    namesBinaryFormat l = true ->
    hd_format (parsePlyHeader (joinLines pre ++ l ++ 10%N :: rest)) <> ascii.
Proof.
  intros pre l rest Hpre Hl Hnot Hbin.
  unfold parsePlyHeader. cbn [hd_format].
  destruct (saveElement_offsets
              (headerLoop (split (joinLines pre ++ l ++ 10%N :: rest) 10%N)
                 headerStart)) as (_ & _ & ->).
  rewrite split_joinLines by assumption.
  assert (Hs : split (l ++ 10%N :: rest) 10%N = l :: split rest 10%N).
  { unfold split. rewrite splitOn_line by now apply oneLine_spec.
    reflexivity. }
  rewrite Hs.
  destruct (headerLoop_app pre (l :: split rest 10%N) Hnot headerStart)
    as (-> & _ & _).
  cbn [headerLoop].
  assert (Hterm : JsString.eqb (trim l) (lit "end_header") = false).
  { unfold namesBinaryFormat in Hbin. apply andb_true_iff in Hbin as [Hf _].
    destruct (JsString.eqb (trim l) (lit "end_header")) eqn:E;
      [|reflexivity].
    apply jsstring_eqb_eq in E. rewrite E in Hf. discriminate. }
  rewrite Hterm. apply headerLoop_format, headerLine_binary, Hbin.
Qed.

Lemma binary_format_is_kept_witness :
  hd_format (parsePlyHeader binaryThenAscii) <> ascii /\
  hd_format (parsePlyHeader binaryThenAscii) = binary_little_endian.
Proof.
  split; [|vm_compute; reflexivity].
  apply (binary_format_is_kept [] (lit "format binary_little_endian 1.0")
           (lit "format ascii 1.0" ++ [10%N] ++ lit "end_header" ++ [10%N])).
  - reflexivity.
  - vm_compute. reflexivity.
  - reflexivity.
  - vm_compute. reflexivity.
Defined.

End FormatLines.

(* ================================================================== *)
(** * What the codec keeps *)
(* ================================================================== *)

Section CodecEffects.
Import JsNumber JsString PlyMetadata Effects.

Variable R : World -> World -> Prop.
Hypothesis R_heap : forall w w', heap w' = heap w -> R w w'.
Hypothesis R_trans : forall a b c, R a b -> R b c -> R a c.

Lemma holds_ret {A} (Q : A -> Prop) (a : A) : Q a -> holds R Q (ret a).
Proof. intros Ha w. split; [now apply R_heap|exact Ha]. Qed.

Lemma holds_throw {A} (Q : A -> Prop) (e : Error) : holds R Q (throw e).
Proof. intros w. split; [now apply R_heap|exact I]. Qed.

Lemma holds_bind {A B} (P : A -> Prop) (Q : B -> Prop)
      (c : M A) (k : A -> M B) :
  holds R P c -> (forall a, P a -> holds R Q (k a)) ->
  holds R Q (bind c k).
Proof.
  intros Hc Hk w. unfold bind. specialize (Hc w).
  destruct (c w) as [[a|e] w1]; cbn [fst snd] in *.
  - destruct Hc as [Hr Ha]. specialize (Hk a Ha w1).
    destruct (k a w1) as [r w2]; cbn [fst snd] in *.
    destruct Hk as [Hr2 Hq]. split; [eapply R_trans; eassumption|exact Hq].
  - destruct Hc as [Hr _]. split; [exact Hr|exact I].
Qed.

Lemma holds_getViewValue buffer ix size :
  holds R (fun _ => True) (getViewValue buffer ix size).
Proof.
  intros w. unfold getViewValue.
  destruct (toIndex ix) as [i|]; [|split; [now apply R_heap|exact I]].
  destruct (Z.of_nat (List.length buffer) <? i + Z.of_nat size);
    split; try exact I; now apply R_heap.
Qed.

Lemma holds_get (conv : list Z -> number) buffer ix size :
  holds R (fun _ => True)
        (bs <- getViewValue buffer ix size ;; ret (conv bs)).
Proof.
  eapply holds_bind; [apply holds_getViewValue|].
  intros bs _. now apply holds_ret.
Qed.

Lemma holds_readLoop (get : number -> M number) :
  (forall o, holds R (fun _ => True) (get o)) ->
  forall n offset i,
    holds R (fun vs => List.length vs = n) (readLoop get offset i n).
Proof.
  intros Hget. induction n as [|n IH]; intros offset i; cbn [readLoop].
  - now apply holds_ret.
  - eapply holds_bind; [apply Hget|]. intros v _.
    eapply holds_bind; [apply IH|]. intros vs Hvs.
    apply holds_ret. cbn [List.length]. now rewrite Hvs.
Qed.

Lemma holds_readFloats view offset n :
  holds R (fun vs => List.length vs = n) (readFloats view offset n).
Proof. apply holds_readLoop. intros o. apply holds_get. Qed.

Lemma holds_readUints view offset n :
  holds R (fun vs => List.length vs = n) (readUints view offset n).
Proof. apply holds_readLoop. intros o. apply holds_get. Qed.

Lemma holds_setMatrix l mat :
  (forall w, R w (store l mat w)) -> holds R (fun _ => True) (setMatrix l mat).
Proof. intros Hs w. split; [apply Hs|exact I]. Qed.

(** ** The four blocks of [parsePlyMetadata] *)

Variable Q : PlyMetadata -> Prop.

Lemma readImageSize_holds view em eo m :
  (forall s, Q (withImageSize m s)) -> Q m ->
  holds R Q (readImageSize view em eo m).
Proof.
  intros Hs Hm. unfold readImageSize.
  destruct (Map_get em (lit "image_size")) as [el|]; [|now apply holds_ret].
  destruct (leb (ofZ 1) (count el)); [|now apply holds_ret].
  destruct (Map_get eo (lit "image_size")) as [off|]; [|now apply holds_ret].
  eapply holds_bind; [apply holds_readUints|]. intros vs _.
  destruct (v_ vs 0); [|now apply holds_ret].
  destruct (v_ vs 1); now apply holds_ret.
Qed.

Lemma readIntrinsic_holds view em eo m :
  (forall f, Q (withFocalLength m f)) ->
  (forall f s, Q (withImageSize (withFocalLength m f) s)) ->
  (forall mat w, R w (store (intrinsics m) mat w)) -> Q m ->
  holds R Q (readIntrinsic view em eo m).
Proof.
  intros Hf Hfs Hst Hm. unfold readIntrinsic.
  destruct (Map_get em (lit "intrinsic")) as [el|]; [|now apply holds_ret].
  destruct (leb (ofZ 1) (count el)); [|now apply holds_ret].
  destruct (Map_get eo (lit "intrinsic")) as [off|]; [|now apply holds_ret].
  destruct (Nat.eqb (List.length (properties el)) 9).
  { eapply holds_bind; [apply holds_readFloats|]. intros vs _.
    eapply holds_bind; [apply holds_setMatrix; intros w; apply Hst|].
    intros _ _. apply holds_ret, Hf. }
  destruct (Nat.eqb (List.length (properties el)) 4); [|now apply holds_ret].
  eapply holds_bind; [apply holds_readFloats|]. intros vs _.
  destruct (Map_get em (lit "image_size")); [apply holds_ret, Hf|].
  destruct (v_ vs 2); [|apply holds_ret, Hf].
  destruct (v_ vs 3); apply holds_ret; [apply Hfs|apply Hf].
Qed.

Lemma readExtrinsic_holds view em eo m :
  (forall mat w, R w (store (extrinsics m) mat w)) -> Q m ->
  holds R Q (readExtrinsic view em eo m).
Proof.
  intros Hst Hm. unfold readExtrinsic.
  destruct (Map_get em (lit "extrinsic")) as [el|]; [|now apply holds_ret].
  destruct (leb (ofZ 1) (count el)); [|now apply holds_ret].
  destruct (Map_get eo (lit "extrinsic")) as [off|]; [|now apply holds_ret].
  destruct (Nat.eqb (List.length (properties el)) 16).
  { eapply holds_bind; [apply holds_readFloats|]. intros vs _.
    eapply holds_bind; [apply holds_setMatrix; intros w; apply Hst|].
    intros _ _. now apply holds_ret. }
  destruct (Nat.eqb (List.length (properties el)) 12); [|now apply holds_ret].
  eapply holds_bind; [apply holds_readFloats|]. intros vs _.
  eapply holds_bind; [apply holds_setMatrix; intros w; apply Hst|].
  intros _ _. now apply holds_ret.
Qed.

Lemma readColorSpace_holds view em eo m :
  (forall c, Q (withColorSpace m c)) -> Q m ->
  holds R Q (readColorSpace view em eo m).
Proof.
  intros Hc Hm. unfold readColorSpace.
  destruct (Map_get em (lit "color_space")) as [el|]; [|now apply holds_ret].
  destruct (leb (ofZ 1) (count el)); [|now apply holds_ret].
  destruct (Map_get eo (lit "color_space")) as [off|]; [|now apply holds_ret].
  eapply holds_bind; [apply holds_get|]. intros v _. apply holds_ret, Hc.
Qed.

(** The guarded block, from what its four blocks keep. *)
Lemma try_holds buffer :
  Q DEFAULT_METADATA ->
  (let hd := headerOf buffer in
   let em := elementMapOf (hd_elements hd) in
   let eo := elementOffsetsOf (hd_elements hd) (ofZ (hd_headerEndIndex hd)) in
   Q (withHasMetadata DEFAULT_METADATA true) /\
   (forall m, Q m -> holds R Q (readImageSize buffer em eo m)) /\
   (forall m, Q m -> holds R Q (readIntrinsic buffer em eo m)) /\
   (forall m, Q m -> holds R Q (readExtrinsic buffer em eo m)) /\
   (forall m, Q m -> holds R Q (readColorSpace buffer em eo m))) ->
  holds R Q (parsePlyMetadata_try buffer).
Proof.
  intros Hd (H0 & H1 & H2 & H3 & H4). unfold parsePlyMetadata_try.
  destruct (negb (isLittleEndian (hd_format (headerOf buffer))));
    [now apply holds_ret|].
  match goal with |- context [if ?c then _ else _] => destruct c end;
    [now apply holds_ret|].
  eapply holds_bind; [apply H1, H0|]. intros m1 Q1.
  eapply holds_bind; [apply H2, Q1|]. intros m2 Q2.
  eapply holds_bind; [apply H3, Q2|]. intros m3 Q3.
  eapply holds_bind; [apply H4, Q3|]. intros m4 Q4.
  now apply holds_ret.
Qed.

(** What the caller gets: the record of the block, or the default record
    when it threw. *)
Lemma parsePlyMetadata_holds buffer w :
  Q DEFAULT_METADATA -> holds R Q (parsePlyMetadata_try buffer) ->
  R w (snd (parsePlyMetadata buffer w)) /\ Q (fst (parsePlyMetadata buffer w)).
Proof.
  intros Hd Ht. unfold parsePlyMetadata. specialize (Ht w).
  destruct (parsePlyMetadata_try buffer w) as [[m|e] w']; cbn [fst snd] in *.
  - exact Ht.
  - destruct Ht as [Hr _]. split; assumption.
Qed.

End CodecEffects.

Section MetadataDefaults.
Import JsNumber JsString PlyMetadata Effects Samples MoreSamples.

(** ** Keys *)

Lemma eqb_trans_false (a b c : jsstring) :
  JsString.eqb a b = true -> JsString.eqb a c = JsString.eqb b c.
Proof. intros H. apply jsstring_eqb_eq in H. now subst. Qed.

(** Looking up after [set]: the new value under the key set, the old one
    under every other key. *)
Lemma Map_get_set {V} (m : JsMap V) (k k' : jsstring) (v : V) :
  Map_get (Map_set m k v) k'
  = if JsString.eqb k k' then Some v else Map_get m k'.
Proof.
  induction m as [|[k0 v0] r IH]; cbn [Map_set Map_get]; [reflexivity|].
  destruct (JsString.eqb k0 k) eqn:E0; cbn [Map_get].
  - rewrite (eqb_trans_false _ _ k' E0).
    destruct (JsString.eqb k k'); reflexivity.
  - rewrite IH.
    destruct (JsString.eqb k0 k') eqn:E1, (JsString.eqb k k') eqn:E2;
      try reflexivity.
    apply jsstring_eqb_eq in E1, E2. subst.
    assert (JsString.eqb k' k' = true) by now apply jsstring_eqb_eq. congruence.
Qed.

(** The map of the elements has a key exactly when some element has it as
    its name. *)
Lemma Map_has_elementMapOf (els : list ElementInfo) (k : jsstring) :
  Map_has (elementMapOf els) k
  = existsb (fun el => JsString.eqb (name el) k) els.
Proof.
  unfold elementMapOf.
  assert (H : forall m : JsMap ElementInfo,
            Map_has (fold_left (fun m el => Map_set m (name el) el) els m) k
            = Map_has m k
              || existsb (fun el => JsString.eqb (name el) k) els).
  { induction els as [|el els IH]; intros m; cbn [fold_left existsb].
    - now rewrite orb_false_r.
    - rewrite IH. unfold Map_has at 1. rewrite Map_get_set.
      fold (Map_has m k).
      destruct (JsString.eqb (name el) k); cbn [orb].
      + now rewrite orb_true_r.
      + reflexivity. }
  rewrite H. reflexivity.
Qed.

Lemma undeclared_get (buffer : Buffer) (k : string) :
  declares (headerOf buffer) k = false ->
  Map_get (elementMapOf (hd_elements (headerOf buffer))) (lit k) = None.
Proof.
  unfold declares. rewrite <- Map_has_elementMapOf. unfold Map_has.
  destruct (Map_get _ _); [discriminate|reflexivity].
Qed.

(** ** Relations on the store *)

Lemma sameSize_heap w w' : heap w' = heap w -> sameSize w w'.
Proof. unfold sameSize. now intros ->. Qed.

Lemma sameSize_trans a b c : sameSize a b -> sameSize b c -> sameSize a c.
Proof. unfold sameSize. congruence. Qed.

Lemma sameSize_store l mat w : sameSize w (store l mat w).
Proof. unfold sameSize, store. cbn [heap]. apply updateAt_length. Qed.

Lemma keeps_heap l w w' : heap w' = heap w -> keeps l w w'.
Proof. unfold keeps, deref. now intros ->. Qed.

Lemma keeps_trans l a b c : keeps l a b -> keeps l b c -> keeps l a c.
Proof. unfold keeps. congruence. Qed.

Lemma keeps_store l l' mat w : l' <> l -> keeps l w (store l' mat w).
Proof.
  intros Hne. unfold keeps, deref, store. cbn [heap].
  now apply updateAt_nth_other.
Qed.

(** X14. [parsePlyMetadata]: every call, on every buffer, returns a
    record that names the two matrix objects made when the module was
    loaded, and allocates none: the store has the same number of objects
    after the call. *)
Theorem returned_record_shares_matrices :
  forall (buffer : Buffer) (w : World),
    let r := parsePlyMetadata buffer w in
    extrinsics (fst r) = extrinsics DEFAULT_METADATA /\
    intrinsics (fst r) = intrinsics DEFAULT_METADATA /\
    List.length (heap (snd r)) = List.length (heap w).
Proof.
  intros buffer w.
  destruct (parsePlyMetadata_holds sameSize sharesMatrices buffer w)
    as (Hr & He & Hi).
  - split; reflexivity.
  - apply try_holds;
      [exact sameSize_heap|exact sameSize_trans|split; reflexivity|].
    cbv zeta. split; [split; reflexivity|].
    split; [|split; [|split]]; intros m Hm.
    + apply (readImageSize_holds _ sameSize_heap sameSize_trans);
        intros; exact Hm.
    + apply (readIntrinsic_holds _ sameSize_heap sameSize_trans);
        intros; try exact Hm; apply sameSize_store.
    + apply (readExtrinsic_holds _ sameSize_heap sameSize_trans);
        intros; try exact Hm; apply sameSize_store.
    + apply (readColorSpace_holds _ sameSize_heap sameSize_trans);
        intros; exact Hm.
  - cbv zeta. split; [exact He|]. split; [exact Hi|exact Hr].
Qed.

(** X15. [parsePlyMetadata] on a buffer whose header declares no
    intrinsic element: the focal length returned is 0, the value that asks
    the caller to estimate it, and the shared intrinsics matrix is left as
    it was. *)
Theorem undeclared_intrinsic_keeps_defaults :
  forall (buffer : Buffer) (w : World),
    declares (headerOf buffer) "intrinsic" = false ->
    let r := parsePlyMetadata buffer w in
    focalLength (fst r) = pzero /\
    deref (snd r) (intrinsics DEFAULT_METADATA)
      = deref w (intrinsics DEFAULT_METADATA).
Proof.
  intros buffer w Hno.
  apply undeclared_get in Hno.
  pose (Q := fun m => focalLength m = pzero
                      /\ extrinsics m = extrinsics DEFAULT_METADATA).
  destruct (parsePlyMetadata_holds
              (keeps (intrinsics DEFAULT_METADATA)) Q buffer w)
    as (Hr & Hf & _).
  - split; reflexivity.
  - apply try_holds;
      [apply keeps_heap|apply keeps_trans|split; reflexivity|].
    cbv zeta. split; [split; reflexivity|].
    split; [|split; [|split]]; intros m Hm.
    + apply (readImageSize_holds _ (keeps_heap _) (keeps_trans _));
        intros; exact Hm.
    + unfold readIntrinsic. rewrite Hno.
      apply holds_ret; [apply keeps_heap|exact Hm].
    + apply (readExtrinsic_holds _ (keeps_heap _) (keeps_trans _));
        [|exact Hm].
      intros mat w0. apply keeps_store.
      destruct Hm as [_ ->]. discriminate.
    + apply (readColorSpace_holds _ (keeps_heap _) (keeps_trans _));
        intros; exact Hm.
  - cbv zeta. split; [exact Hf|exact Hr].
Qed.

(** X16. [parsePlyMetadata] on a buffer whose header declares no
    extrinsic element: the shared extrinsics matrix is left as it was. *)
Theorem undeclared_extrinsic_keeps_matrix :
  forall (buffer : Buffer) (w : World),
    declares (headerOf buffer) "extrinsic" = false ->
    deref (snd (parsePlyMetadata buffer w)) (extrinsics DEFAULT_METADATA)
      = deref w (extrinsics DEFAULT_METADATA).
Proof.
  intros buffer w Hno.
  apply undeclared_get in Hno.
  pose (Q := fun m => intrinsics m = intrinsics DEFAULT_METADATA).
  destruct (parsePlyMetadata_holds
              (keeps (extrinsics DEFAULT_METADATA)) Q buffer w)
    as (Hr & _).
  - reflexivity.
  - apply try_holds;
      [apply keeps_heap|apply keeps_trans|reflexivity|].
    cbv zeta. split; [reflexivity|].
    split; [|split; [|split]]; intros m Hm.
    + apply (readImageSize_holds _ (keeps_heap _) (keeps_trans _));
        intros; exact Hm.
    + apply (readIntrinsic_holds _ (keeps_heap _) (keeps_trans _));
        try (intros; exact Hm).
      intros mat w0. apply keeps_store. unfold Q in Hm. rewrite Hm.
      discriminate.
    + unfold readExtrinsic. rewrite Hno.
      apply holds_ret; [apply keeps_heap|exact Hm].
    + apply (readColorSpace_holds _ (keeps_heap _) (keeps_trans _));
        intros; exact Hm.
  - exact Hr.
Qed.

(** X17. [parsePlyMetadata] on a buffer whose header declares no
    color_space element: the colour space returned is sRGB. *)
Theorem undeclared_color_space_is_sRGB :
  forall (buffer : Buffer) (w : World),
    declares (headerOf buffer) "color_space" = false ->
    colorSpace (fst (parsePlyMetadata buffer w)) = sRGB.
Proof.
  intros buffer w Hno.
  apply undeclared_get in Hno.
  pose (Q := fun m => colorSpace m = sRGB).
  destruct (parsePlyMetadata_holds (fun _ _ => True) Q buffer w)
    as (_ & Hc).
  - reflexivity.
  - apply try_holds; [trivial|trivial|reflexivity|].
    cbv zeta. split; [reflexivity|].
    split; [|split; [|split]]; intros m Hm.
    + apply readImageSize_holds; trivial; intros; exact Hm.
    + apply readIntrinsic_holds; trivial; intros; exact Hm.
    + apply readExtrinsic_holds; trivial.
    + unfold readColorSpace. rewrite Hno. apply holds_ret; trivial.
  - exact Hc.
Qed.

(** X18. [parsePlyMetadata] on a buffer whose header declares neither an
    image_size nor an intrinsic element: the image size returned is
    640 x 480. *)
Theorem undeclared_sizes_keep_image_size :
  forall (buffer : Buffer) (w : World),
    declares (headerOf buffer) "image_size" = false ->
    declares (headerOf buffer) "intrinsic" = false ->
    imageSize (fst (parsePlyMetadata buffer w)) = (ofZ 640, ofZ 480).
Proof.
  intros buffer w Hno1 Hno2.
  apply undeclared_get in Hno1, Hno2.
  pose (Q := fun m => imageSize m = (ofZ 640, ofZ 480)).
  destruct (parsePlyMetadata_holds (fun _ _ => True) Q buffer w)
    as (_ & Hc).
  - reflexivity.
  - apply try_holds; [trivial|trivial|reflexivity|].
    cbv zeta. split; [reflexivity|].
    split; [|split; [|split]]; intros m Hm.
    + unfold readImageSize. rewrite Hno1. apply holds_ret; trivial.
    + unfold readIntrinsic. rewrite Hno2. apply holds_ret; trivial.
    + apply readExtrinsic_holds; trivial.
    + apply readColorSpace_holds; trivial; intros; exact Hm.
  - exact Hc.
Qed.

Lemma undeclared_intrinsic_keeps_defaults_witness :
  focalLength (fst (parsePlyMetadata lateHeader initialWorld)) = pzero /\
  deref (snd (parsePlyMetadata lateHeader initialWorld))
        (intrinsics DEFAULT_METADATA)
    = deref initialWorld (intrinsics DEFAULT_METADATA).
Proof.
  apply (undeclared_intrinsic_keeps_defaults lateHeader initialWorld).
  vm_compute. reflexivity.
Defined.

Lemma undeclared_extrinsic_keeps_matrix_witness :
  deref (snd (parsePlyMetadata legacyPly initialWorld))
        (extrinsics DEFAULT_METADATA)
    = deref initialWorld (extrinsics DEFAULT_METADATA).
Proof.
  apply (undeclared_extrinsic_keeps_matrix legacyPly initialWorld).
  vm_compute. reflexivity.
Defined.

Lemma undeclared_color_space_is_sRGB_witness :
  colorSpace (fst (parsePlyMetadata lateHeader initialWorld)) = sRGB.
Proof.
  apply (undeclared_color_space_is_sRGB lateHeader initialWorld).
  vm_compute. reflexivity.
Defined.

Lemma undeclared_sizes_keep_image_size_witness :
  imageSize (fst (parsePlyMetadata supplementPly initialWorld))
    = (ofZ 640, ofZ 480).
Proof.
  apply (undeclared_sizes_keep_image_size supplementPly initialWorld).
  - vm_compute. reflexivity.
  - vm_compute. reflexivity.
Defined.

(** The sample with a supplement element only is decoded. *)
Lemma supplementPly_decodes :
  fst (parsePlyMetadata supplementPly initialWorld)
  = {| extrinsics := extrinsics DEFAULT_METADATA;
       intrinsics := intrinsics DEFAULT_METADATA;
       imageSize := (ofZ 640, ofZ 480);
       focalLength := pzero;
       colorSpace := linearRGB;
       hasMetadata := true |}.
Proof. vm_compute. reflexivity. Qed.

End MetadataDefaults.

(* ================================================================== *)
(** * What an exception leaves behind *)
(* ================================================================== *)

Section ExceptionPath.
Import JsNumber JsString PlyMetadata Effects Samples MoreSamples.







End ExceptionPath.


Section BlockLayouts.
Import JsNumber JsString PlyMetadata Effects Samples.

Lemma readFloats_length view offset n w vs w1 :
  readFloats view offset n w = (Normal vs, w1) -> List.length vs = n.
Proof.
  intros Hr.
  pose proof (holds_readFloats (fun _ _ => True) (fun _ _ _ => I)
                (fun _ _ _ _ _ => I) view offset n w) as [_ H].
  now rewrite Hr in H.
Qed.

(** X19. The extrinsic block of [parsePlyMetadata]: the elements array of
    the matrix becomes the stored floats in file order, followed for the
    twelve-float layout by 0, 0, 0, 1.  The array is column-major, so the
    entry at row [r], column [c] is the stored value [4 c + r]: the stored
    rows become the columns of the matrix. *)
Theorem extrinsic_block_copies_stored_order :
  forall (view : Buffer) (em : JsMap ElementInfo) (eo : JsMap number)
         (m : PlyMetadata) (w w1 : World) (el : ElementInfo)
         (off : number) (n : nat) (vs : list number),
    Map_get em (lit "extrinsic") = Some el ->
    leb (ofZ 1) (count el) = true ->
    Map_get eo (lit "extrinsic") = Some off ->
    List.length (properties el) = n -> n = 16%nat \/ n = 12%nat ->
    readFloats view off n w = (Normal vs, w1) ->
    let te := if Nat.eqb n 16 then vs
              else vs ++ [ofZ 0; ofZ 0; ofZ 0; ofZ 1] in
    readExtrinsic view em eo m w = (Normal m, store (extrinsics m) te w1) /\
    (forall r c, (r < 4)%nat -> (4 * c + r < n)%nat ->
       Three.entry4 te r c = nth_error vs (4 * c + r)).
Proof.
  intros view em eo m w w1 el off n vs Hel Hcount Hoff Hn Hcase Hread te.
  pose proof (readFloats_length _ _ _ _ _ _ Hread) as Hlen.
  unfold readExtrinsic. rewrite Hel, Hcount, Hoff, Hn.
  destruct Hcase as [-> | ->]; cbn [Nat.eqb]; unfold bind; rewrite Hread;
    cbn [Nat.eqb] in te; subst te.
  - do 17 (destruct vs as [|? vs]; try discriminate Hlen).
    split; [reflexivity|].
    intros r c Hr Hc.
    destruct r as [|[|[|[|r]]]]; try lia;
      destruct c as [|[|[|[|c]]]]; try lia; reflexivity.
  - do 13 (destruct vs as [|? vs]; try discriminate Hlen).
    split; [reflexivity|].
    intros r c Hr Hc.
    destruct r as [|[|[|[|r]]]]; try lia;
      destruct c as [|[|[|[|c]]]]; try lia; reflexivity.
Qed.

Lemma extrinsic_block_copies_stored_order_witness :
  let hd := headerOf extrinsicPly in
  let em := elementMapOf (hd_elements hd) in
  let eo := elementOffsetsOf (hd_elements hd) (ofZ (hd_headerEndIndex hd)) in
  let m := withHasMetadata DEFAULT_METADATA true in
  let vs := List.map stored
              [1; 2; 3; 4; 5; 6; 7; 8; 9; 10; 11; 12; 13; 14; 15; 16] in
  fst (readExtrinsic extrinsicPly em eo m initialWorld) = Normal m /\
  heap (snd (readExtrinsic extrinsicPly em eo m initialWorld))
    = [vs; Three.Matrix3_new].
Proof.
  cbv zeta.
  destruct (extrinsic_block_copies_stored_order extrinsicPly
              (elementMapOf (hd_elements (headerOf extrinsicPly)))
              (elementOffsetsOf (hd_elements (headerOf extrinsicPly))
                 (ofZ (hd_headerEndIndex (headerOf extrinsicPly))))
              (withHasMetadata DEFAULT_METADATA true)
              initialWorld
              (snd (readFloats extrinsicPly (ofZ 409) 16 initialWorld))
              {| name := lit "extrinsic"; count := ofZ 1;
                 properties :=
                   repeat {| propName := lit "m"; propType := lit "float";
                             byteSize := 4 |} 16;
                 bytesPerElement := 64 |}
              (ofZ 409) 16
              (List.map stored
                 [1; 2; 3; 4; 5; 6; 7; 8; 9; 10; 11; 12; 13; 14; 15; 16]))
    as [Hr _].
  - vm_compute. reflexivity.
  - vm_compute. reflexivity.
  - vm_compute. reflexivity.
  - vm_compute. reflexivity.
  - left. reflexivity.
  - vm_compute. reflexivity.
  - rewrite Hr. split; [reflexivity|]. vm_compute. reflexivity.
Defined.

(** X20. The nine-float intrinsic block of [parsePlyMetadata]: the focal
    length is the mean of the stored values 0 and 4, and the 3x3 matrix
    gets the stored value [3 r + c] at row [r], column [c]. *)
Theorem intrinsic_block_decodes :
  forall (view : Buffer) (em : JsMap ElementInfo) (eo : JsMap number)
         (m : PlyMetadata) (w w1 : World) (el : ElementInfo)
         (off : number) (vs : list number),
    Map_get em (lit "intrinsic") = Some el ->
    leb (ofZ 1) (count el) = true ->
    Map_get eo (lit "intrinsic") = Some off ->
    List.length (properties el) = 9%nat ->
    readFloats view off 9 w = (Normal vs, w1) ->
    exists te,
      readIntrinsic view em eo m w
      = (Normal (withFocalLength m
                   (div (add (nth 0 vs NaN) (nth 4 vs NaN)) (ofZ 2))),
         store (intrinsics m) te w1) /\
      List.length te = 9%nat /\
      forall r c, (r < 3)%nat -> (c < 3)%nat ->
        nth_error te (3 * c + r) = nth_error vs (3 * r + c).
Proof.
  intros view em eo m w w1 el off vs Hel Hcount Hoff Hn Hread.
  pose proof (readFloats_length _ _ _ _ _ _ Hread) as Hlen.
  do 10 (destruct vs as [|? vs]; try discriminate Hlen).
  eexists. unfold readIntrinsic. rewrite Hel, Hcount, Hoff, Hn.
  cbn [Nat.eqb]. unfold bind. rewrite Hread.
  split; [reflexivity|]. split; [reflexivity|].
  intros r c Hr Hc.
  destruct r as [|[|[|r]]]; try lia;
    destruct c as [|[|[|c]]]; try lia; reflexivity.
Qed.

Lemma intrinsic_block_decodes_witness :
  let hd := headerOf intrinsicPly in
  let em := elementMapOf (hd_elements hd) in
  let eo := elementOffsetsOf (hd_elements hd) (ofZ (hd_headerEndIndex hd)) in
  let m := withHasMetadata DEFAULT_METADATA true in
  exists te,
    readIntrinsic intrinsicPly em eo m initialWorld
    = (Normal (withFocalLength m (ofZ 3)),
       store (intrinsics m) te
             (snd (readFloats intrinsicPly (ofZ 220) 9 initialWorld))) /\
    List.length te = 9%nat /\
    forall r c, (r < 3)%nat -> (c < 3)%nat ->
      nth_error te (3 * c + r)
      = nth_error (List.map stored [1; 2; 3; 4; 5; 6; 7; 8; 9]) (3 * r + c).
Proof.
  cbv zeta.
  apply (intrinsic_block_decodes intrinsicPly
           (elementMapOf (hd_elements (headerOf intrinsicPly)))
           (elementOffsetsOf (hd_elements (headerOf intrinsicPly))
              (ofZ (hd_headerEndIndex (headerOf intrinsicPly))))
           (withHasMetadata DEFAULT_METADATA true)
           initialWorld
           (snd (readFloats intrinsicPly (ofZ 220) 9 initialWorld))
           {| name := lit "intrinsic"; count := ofZ 1;
              properties :=
                repeat {| propName := lit "k"; propType := lit "float";
                          byteSize := 4 |} 9;
              bytesPerElement := 36 |}
           (ofZ 220)
           (List.map stored [1; 2; 3; 4; 5; 6; 7; 8; 9])).
  - vm_compute. reflexivity.
  - vm_compute. reflexivity.
  - vm_compute. reflexivity.
  - vm_compute. reflexivity.
  - vm_compute. reflexivity.
Defined.

(** X21. The legacy four-float intrinsic block of [parsePlyMetadata]: the
    focal length is the mean of the stored values 0 and 1; the rounded
    values 2 and 3 become the image size only when the header declares no
    image_size element at all, so an image_size element declared with no
    record keeps them out. *)
Theorem legacy_intrinsic_block_decodes :
  forall (view : Buffer) (em : JsMap ElementInfo) (eo : JsMap number)
         (m : PlyMetadata) (w w1 : World) (el : ElementInfo)
         (off : number) (vs : list number),
    Map_get em (lit "intrinsic") = Some el ->
    leb (ofZ 1) (count el) = true ->
    Map_get eo (lit "intrinsic") = Some off ->
    List.length (properties el) = 4%nat ->
    readFloats view off 4 w = (Normal vs, w1) ->
    let m1 := withFocalLength m
                (div (add (nth 0 vs NaN) (nth 1 vs NaN)) (ofZ 2)) in
    readIntrinsic view em eo m w
    = (Normal (if Map_has em (lit "image_size") then m1
               else withImageSize m1 (round (nth 2 vs NaN),
                                      round (nth 3 vs NaN))),
       w1).
Proof.
  intros view em eo m w w1 el off vs Hel Hcount Hoff Hn Hread m1.
  pose proof (readFloats_length _ _ _ _ _ _ Hread) as Hlen.
  do 5 (destruct vs as [|? vs]; try discriminate Hlen).
  subst m1. unfold readIntrinsic, Map_has.
  rewrite Hel, Hcount, Hoff, Hn.
  cbn [Nat.eqb]. unfold bind. rewrite Hread.
  destruct (Map_get em (lit "image_size")); reflexivity.
Qed.

Lemma legacy_intrinsic_block_decodes_witness :
  let hd := headerOf legacyPly in
  let em := elementMapOf (hd_elements hd) in
  let eo := elementOffsetsOf (hd_elements hd) (ofZ (hd_headerEndIndex hd)) in
  let m := withHasMetadata DEFAULT_METADATA true in
  fst (readIntrinsic legacyPly em eo m initialWorld)
  = Normal (withImageSize (withFocalLength m (ofZ 500))
                          (ofZ 640, ofZ 480)).
Proof.
  cbv zeta.
  rewrite (legacy_intrinsic_block_decodes legacyPly
           (elementMapOf (hd_elements (headerOf legacyPly)))
           (elementOffsetsOf (hd_elements (headerOf legacyPly))
              (ofZ (hd_headerEndIndex (headerOf legacyPly))))
           (withHasMetadata DEFAULT_METADATA true)
           initialWorld
           (snd (readFloats legacyPly (ofZ 189) 4 initialWorld))
           {| name := lit "intrinsic"; count := ofZ 1;
              properties :=
                List.map (fun n => {| propName := lit n;
                                      propType := lit "float";
                                      byteSize := 4 |})
                         ["fx"; "fy"; "width"; "height"]%string;
              bytesPerElement := 16 |}
           (ofZ 189)
           [ofZ 500; ofZ 500; ofZ 640; ofZ 480]).
  - vm_compute. reflexivity.
  - vm_compute. reflexivity.
  - vm_compute. reflexivity.
  - vm_compute. reflexivity.
  - vm_compute. reflexivity.
  - vm_compute. reflexivity.
Defined.

End BlockLayouts.

(* ================================================================== *)
(** * Reading the body *)
(* ================================================================== *)

Section Reads.
Import JsNumber PlyMetadata BufferWords MoreSamples.

Lemma getViewValue_in_range buffer (k : Z) (size : nat) w :
  0 <= k -> k + Z.of_nat size <= Z.of_nat (List.length buffer) ->
  Z.of_nat (List.length buffer) < 2 ^ 53 ->
  getViewValue buffer (ofZ k) size w
  = (Normal (bytesAt buffer k size),
     {| heap := heap w; reads := (k, Z.of_nat size) :: reads w |}).
Proof.
  intros Hk Hfit Hlen. unfold getViewValue.
  rewrite toIndex_ofZ by lia.
  destruct (Z.ltb_spec (Z.of_nat (List.length buffer)) (k + Z.of_nat size));
    [lia|reflexivity].
Qed.

(** The loop of [readFloats] and [readUints] over words that fit. *)
Lemma readLoop_words buffer (conv : Z -> number) (o : Z) :
  0 <= o -> Z.of_nat (List.length buffer) < 2 ^ 53 ->
  forall (n : nat) (i : Z) (w : World),
    0 <= i ->
    o + 4 * (i + Z.of_nat n) <= Z.of_nat (List.length buffer) ->
    readLoop (fun off => bs <- getViewValue buffer off 4 ;;
                         ret (conv (littleEndian bs)))
             (ofZ o) i n w
    = (Normal (List.map
                 (fun j => conv (littleEndian
                                   (bytesAt buffer
                                      (o + 4 * (i + Z.of_nat j)) 4)))
                 (seq 0 n)),
       {| heap := heap w;
          reads := rev (List.map (fun j => (o + 4 * (i + Z.of_nat j), 4))
                                 (seq 0 n)) ++ reads w |}).
Proof.
  intros Ho Hlen. induction n as [|n IH]; intros i w Hi Hfit.
  - destruct w; reflexivity.
  - cbn [readLoop].
    assert (Hget :
      (bs <- getViewValue buffer (add (ofZ o) (mul (ofZ i) (ofZ 4))) 4 ;;
       ret (conv (littleEndian bs))) w
      = (Normal (conv (littleEndian (bytesAt buffer (o + 4 * i) 4))),
         {| heap := heap w; reads := (o + 4 * i, 4) :: reads w |})).
    { rewrite word_offset by lia. unfold bind.
      rewrite (getViewValue_in_range buffer (o + 4 * i) 4) by lia.
      reflexivity. }
    rewrite (bind_normal _ _ _ _ _ Hget).
    rewrite (bind_normal _ _ _ _ _
               (IH (i + 1) _ ltac:(lia) ltac:(lia))).
    unfold ret. cbn [heap reads].
    cbn [seq]. rewrite <- seq_shift. cbn [List.map rev].
    rewrite !map_map, Z.add_0_r, <- app_assoc. cbn [app].
    f_equal.
    + f_equal. f_equal. apply map_ext. intros j.
      do 3 f_equal. lia.
    + f_equal. f_equal. f_equal. apply map_ext. intros j. f_equal. lia.
Qed.

Lemma readLoop_out_of_range buffer (conv : Z -> number) (o : Z) :
  0 <= o -> Z.of_nat (List.length buffer) < 2 ^ 53 ->
  forall (n : nat) (i : Z) (w : World),
    0 <= i -> o + 4 * (i + Z.of_nat n) < 2 ^ 53 ->
    Z.of_nat (List.length buffer) < o + 4 * (i + Z.of_nat n) ->
    (0 < n)%nat ->
    fst (readLoop (fun off => bs <- getViewValue buffer off 4 ;;
                              ret (conv (littleEndian bs)))
                  (ofZ o) i n w)
    = Throw RangeError.
Proof.
  intros Ho Hlen. induction n as [|n IH]; intros i w Hi Hmax Hout Hn;
    [lia|].
  cbn [readLoop].
  destruct (Z_le_gt_dec (o + 4 * i + 4) (Z.of_nat (List.length buffer)))
    as [Hfit|Hno].
  - assert (Hget :
      (bs <- getViewValue buffer (add (ofZ o) (mul (ofZ i) (ofZ 4))) 4 ;;
       ret (conv (littleEndian bs))) w
      = (Normal (conv (littleEndian (bytesAt buffer (o + 4 * i) 4))),
         {| heap := heap w; reads := (o + 4 * i, 4) :: reads w |})).
    { rewrite word_offset by lia. unfold bind.
      rewrite (getViewValue_in_range buffer (o + 4 * i) 4) by lia.
      reflexivity. }
    rewrite (bind_normal _ _ _ _ _ Hget).
    assert (Hn' : (0 < n)%nat) by lia.
    specialize (IH (i + 1)
                  {| heap := heap w;
                     reads := (o + 4 * i, 4) :: reads w |}
                  ltac:(lia) ltac:(lia) ltac:(lia) Hn').
    unfold bind.
    destruct (readLoop _ (ofZ o) (i + 1) n _) as [[vs|e] w'];
      cbn [fst] in IH; [discriminate|].
    cbn [fst]. congruence.
  - assert (Hget :
      (bs <- getViewValue buffer (add (ofZ o) (mul (ofZ i) (ofZ 4))) 4 ;;
       ret (conv (littleEndian bs))) w
      = (Throw RangeError, w)).
    { rewrite word_offset by lia. apply bind_throw.
      apply getViewValue_out_of_range.
      intros k Hk. rewrite toIndex_ofZ in Hk by lia.
      assert (Hk' : o + 4 * i = k) by congruence.
      change (Z.of_nat 4) with 4. lia. }
    rewrite (bind_throw _ _ _ _ _ Hget). reflexivity.
Qed.

(** X22. [readFloats] and [readUints] as [parsePlyMetadata] calls them
    (with [littleEndian = true]) at an integer offset [o], when the
    [count] words from [o] lie within a buffer of fewer than [2^53] bytes:
    the result is the [count] little-endian words stored at [o], [o + 4],
    ..., decoded as binary32 values or as unsigned integers, and the
    buffer is read at exactly these offsets, in this order. *)
Theorem reads_return_stored_words :
  forall (view : Buffer) (o : Z) (count : nat) (w : World),
    0 <= o ->
    o + 4 * Z.of_nat count <= Z.of_nat (List.length view) ->
    Z.of_nat (List.length view) < 2 ^ 53 ->
    readFloats view (ofZ o) count w
    = (Normal (List.map ofFloat32Bits (wordsAt view o count)),
       {| heap := heap w; reads := wordReads o count ++ reads w |}) /\
    readUints view (ofZ o) count w
    = (Normal (List.map ofZ (wordsAt view o count)),
       {| heap := heap w; reads := wordReads o count ++ reads w |}).
Proof.
  intros view o count w Ho Hfit Hlen.
  unfold readFloats, readUints, getFloat32, getUint32, wordsAt, wordReads.
  split.
  - rewrite (readLoop_words view ofFloat32Bits o Ho Hlen count 0 w)
      by lia.
    rewrite map_map. reflexivity.
  - rewrite (readLoop_words view ofZ o Ho Hlen count 0 w) by lia.
    rewrite map_map. reflexivity.
Qed.

Lemma reads_return_stored_words_witness :
  readFloats threeWords (ofZ 4) 2 initialWorld
  = (Normal (List.map ofFloat32Bits (wordsAt threeWords 4 2)),
     {| heap := heap initialWorld;
        reads := wordReads 4 2 ++ reads initialWorld |}) /\
  readUints threeWords (ofZ 4) 2 initialWorld
  = (Normal (List.map ofZ (wordsAt threeWords 4 2)),
     {| heap := heap initialWorld;
        reads := wordReads 4 2 ++ reads initialWorld |}).
Proof.
  apply (reads_return_stored_words threeWords 4 2 initialWorld).
  - lia.
  - vm_compute. discriminate.
  - vm_compute. reflexivity.
Defined.

(** X23. [readFloats] and [readUints] at an integer offset, when at least
    one word is asked for and the words do not all lie within the buffer:
    RangeError is thrown.  (With a count of 0 nothing is read and nothing
    is thrown, whatever the offset.) *)
Theorem reads_past_the_end_throw :
  forall (view : Buffer) (o : Z) (count : nat) (w : World),
    0 <= o -> (0 < count)%nat ->
    Z.of_nat (List.length view) < o + 4 * Z.of_nat count ->
    o + 4 * Z.of_nat count < 2 ^ 53 ->
    fst (readFloats view (ofZ o) count w) = Throw RangeError /\
    fst (readUints view (ofZ o) count w) = Throw RangeError /\
    forall off, readFloats view off 0 w = (Normal [], w).
Proof.
  intros view o count w Ho Hn Hout Hmax.
  assert (Hlen : Z.of_nat (List.length view) < 2 ^ 53) by lia.
  unfold readFloats, readUints, getFloat32, getUint32.
  split; [|split].
  - apply (readLoop_out_of_range view ofFloat32Bits o Ho Hlen count 0 w);
      lia.
  - apply (readLoop_out_of_range view ofZ o Ho Hlen count 0 w); lia.
  - reflexivity.
Qed.

Lemma reads_past_the_end_throw_witness :
  fst (readFloats threeWords (ofZ 4) 3 initialWorld) = Throw RangeError /\
  fst (readUints threeWords (ofZ 4) 3 initialWorld) = Throw RangeError /\
  forall off, readFloats threeWords off 0 initialWorld
              = (Normal [], initialWorld).
Proof.
  apply (reads_past_the_end_throw threeWords 4 3 initialWorld).
  - lia.
  - lia.
  - vm_compute. reflexivity.
  - vm_compute. reflexivity.
Defined.

End Reads.

Section Offsets.
Import JsNumber JsString PlyMetadata HeaderText Effects BufferWords ElementLayout Samples.

Lemma bodyBytes_nonneg (els : list ElementInfo) :
  Forall sized els -> 0 <= bodyBytes els.
Proof.
  induction 1 as [|el els (_ & Hc & Hb) _ IH]; cbn [bodyBytes fold_right];
    [lia|].
  fold (bodyBytes els). nia.
Qed.

(** The running offset over elements with integer counts. *)
Lemma offsets_fold (els : list ElementInfo) :
  Forall sized els ->
  forall (m : JsMap number) (h : Z),
    0 <= h -> h + bodyBytes els < 2 ^ 53 ->
    snd (fold_left
           (fun '(m, offset) el =>
              (Map_set m (name el) offset,
               add offset (mul (count el) (ofZ (bytesPerElement el)))))
           els (m, ofZ h))
    = ofZ (h + bodyBytes els).
Proof.
  induction 1 as [|el els Hel Hels IH]; intros m h Hh Hsum.
  - cbn. f_equal. lia.
  - cbn [fold_left bodyBytes fold_right] in *. fold (bodyBytes els) in *.
    pose proof (bodyBytes_nonneg els Hels) as Hn.
    destruct Hel as (Hcount & Hc & Hb).
    assert (Hcb : 0 <= countOf el * bytesPerElement el) by nia.
    rewrite Hcount, mul_integers, add_integers by lia.
    rewrite IH by lia. f_equal. lia.
Qed.

(** Elements of other names leave the entry of a name as it is. *)
Lemma offsets_fold_other (k : jsstring) (els : list ElementInfo) :
  unnamed k els = true ->
  forall (m : JsMap number) (off : number),
    Map_get (fst (fold_left
                    (fun '(m, offset) el =>
                       (Map_set m (name el) offset,
                        add offset
                            (mul (count el) (ofZ (bytesPerElement el)))))
                    els (m, off))) k
    = Map_get m k.
Proof.
  induction els as [|el els IH]; intros Hno m off; [reflexivity|].
  cbn [unnamed forallb] in Hno. apply andb_true_iff in Hno as [Hel Hno].
  apply negb_true_iff in Hel.
  cbn [fold_left]. rewrite (IH Hno), Map_get_set, Hel. reflexivity.
Qed.

(** The entry of an element in the map of the offsets. *)
Lemma elementOffsets_get
    (before after : list ElementInfo) (el : ElementInfo) (h : Z) :
  Forall sized before -> 0 <= h -> h + bodyBytes before < 2 ^ 53 ->
  unnamed (name el) after = true ->
  Map_get (elementOffsetsOf (before ++ el :: after) (ofZ h)) (name el)
  = Some (ofZ (h + bodyBytes before)).
Proof.
  intros Hsized Hh Hsum Hno.
  unfold elementOffsetsOf. rewrite fold_left_app. cbn [fold_left].
  pose proof (offsets_fold before Hsized [] h Hh Hsum) as Hoff.
  match goal with
  | |- context [fold_left ?f before ?a] =>
      change (snd (fold_left f before a) = ofZ (h + bodyBytes before))
        in Hoff;
      destruct (fold_left f before a) as [m1 off1]
  end.
  cbn [snd] in Hoff. subst off1.
  rewrite (offsets_fold_other _ after Hno), Map_get_set.
  assert (He : JsString.eqb (name el) (name el) = true)
    by now apply jsstring_eqb_eq.
  now rewrite He.
Qed.

(** X24. The offset of an element: the index of the end of the header plus
    the bytes of the records of the elements before it, exactly, when
    these elements have integer counts and the sum is below [2^53]; the
    elements after it have no part in it, whatever their counts, unless
    one has the same name. *)
Theorem element_offset_exact :
  forall (before after : list ElementInfo) (el : ElementInfo) (h : Z),
    Forall sized before -> 0 <= h -> h + bodyBytes before < 2 ^ 53 ->
    unnamed (name el) after = true ->
    Map_get (elementOffsetsOf (before ++ el :: after) (ofZ h)) (name el)
    = Some (ofZ (h + bodyBytes before)).
Proof.
  intros before after el h Hsized Hh Hsum Hno.
  now apply elementOffsets_get.
Qed.

Lemma element_offset_exact_witness :
  Map_get (elementOffsetsOf (hd_elements (headerOf legacyPly)) (ofZ 189))
          (lit "color_space")
  = Some (ofZ 205).
Proof.
  apply (element_offset_exact
           [{| name := lit "intrinsic"; count := ofZ 1;
               properties :=
                 List.map (fun n => {| propName := lit n;
                                       propType := lit "float";
                                       byteSize := 4 |})
                          ["fx"; "fy"; "width"; "height"]%string;
               bytesPerElement := 16 |}]
           []
           {| name := lit "color_space"; count := ofZ 1;
              properties := [{| propName := lit "value";
                                propType := lit "uchar";
                                byteSize := 1 |}];
              bytesPerElement := 1 |}
           189).
  - repeat constructor; vm_compute; congruence.
  - lia.
  - vm_compute. reflexivity.
  - reflexivity.
Defined.

(** ** The map of the elements *)

Lemma elementMap_fold_other (k : jsstring) (els : list ElementInfo) :
  unnamed k els = true ->
  forall m : JsMap ElementInfo,
    Map_get (fold_left (fun m el => Map_set m (name el) el) els m) k
    = Map_get m k.
Proof.
  induction els as [|el els IH]; intros Hno m; [reflexivity|].
  cbn [unnamed forallb] in Hno. apply andb_true_iff in Hno as [Hel Hno].
  apply negb_true_iff in Hel.
  cbn [fold_left]. rewrite (IH Hno), Map_get_set, Hel. reflexivity.
Qed.

Lemma elementMap_get (before after : list ElementInfo) (el : ElementInfo) :
  unnamed (name el) after = true ->
  Map_get (elementMapOf (before ++ el :: after)) (name el) = Some el.
Proof.
  intros Hno. unfold elementMapOf. rewrite fold_left_app. cbn [fold_left].
  rewrite (elementMap_fold_other _ after Hno), Map_get_set.
  assert (He : JsString.eqb (name el) (name el) = true)
    by now apply jsstring_eqb_eq.
  now rewrite He.
Qed.

Lemma elementMap_absent (k : jsstring) (els : list ElementInfo) :
  unnamed k els = true -> Map_get (elementMapOf els) k = None.
Proof.
  intros Hno. unfold elementMapOf.
  now rewrite (elementMap_fold_other k els Hno).
Qed.

End Offsets.

Section ImageSize.
Import JsNumber JsString PlyMetadata HeaderText Effects BufferWords ElementLayout Samples.

Lemma bytesAt_app (header body : Buffer) (k : Z) (size : nat) :
  0 <= k ->
  bytesAt (header ++ body) (Z.of_nat (List.length header) + k) size
  = bytesAt body k size.
Proof.
  intros Hk. unfold bytesAt.
  replace (Z.to_nat (Z.of_nat (List.length header) + k))
    with (List.length header + Z.to_nat k)%nat by lia.
  rewrite skipn_app, skipn_all2 by lia.
  replace (List.length header + Z.to_nat k - List.length header)%nat
    with (Z.to_nat k) by lia.
  reflexivity.
Qed.

(** X25. A file whose header (at most 10000 ASCII bytes, terminated) is
    little-endian and declares an image_size element first, with at least
    one record, and no other image_size, intrinsic, extrinsic or
    color_space element, and whose body has at least eight bytes: the
    image size decoded is the pair of the two little-endian 32-bit
    unsigned integers at the start of the body; the other fields keep
    their defaults, [hasMetadata] is true, and the only accesses to the
    buffer are the two reads at the first two words of the body. *)
Theorem image_size_decodes :
  forall (header body : Buffer) (pre : list jsstring) (endl : jsstring)
         (el : ElementInfo) (rest : list ElementInfo) (w : World),
    terminatedHeader header pre endl ->
    hd_format (parsePlyHeader (asciiText header)) = binary_little_endian ->
    hd_elements (parsePlyHeader (asciiText header)) = el :: rest ->
    name el = lit "image_size" -> leb (ofZ 1) (count el) = true ->
    unnamed (lit "image_size") rest = true ->
    unnamed (lit "intrinsic") rest = true ->
    unnamed (lit "extrinsic") rest = true ->
    unnamed (lit "color_space") rest = true ->
    (8 <= List.length body)%nat ->
    Z.of_nat (List.length (header ++ body)) < 2 ^ 53 ->
    let start := Z.of_nat (List.length header) in
    parsePlyMetadata (header ++ body) w
    = ({| extrinsics := extrinsics DEFAULT_METADATA;
          intrinsics := intrinsics DEFAULT_METADATA;
          imageSize := (ofZ (littleEndian (bytesAt body 0 4)),
                        ofZ (littleEndian (bytesAt body 4 4)));
          focalLength := pzero;
          colorSpace := sRGB;
          hasMetadata := true |},
       {| heap := heap w;
          reads := (start + 4, 4) :: (start, 4) :: reads w |}).
Proof.
  intros header body pre endl el rest w
         (Hlen & Ha & Htext & Hpre & Hnot & Hendl & Hterm)
         Hfmt Hels Hname Hcount Hno1 Hno2 Hno3 Hno4 Hbody Hsize start.
  destruct (headerOf_ascii_header header body pre endl
              Hlen Ha Htext Hpre Hnot Hendl Hterm) as (Hhd & Hidx).
  rewrite Hhd in Hidx.
  unfold parsePlyMetadata, parsePlyMetadata_try.
  rewrite Hhd, Hfmt, Hels, Hidx. cbn [isLittleEndian negb]. fold start.
  (* the two maps *)
  assert (Hget : Map_get (elementMapOf (el :: rest)) (lit "image_size")
                 = Some el).
  { rewrite <- Hname. apply (elementMap_get [] rest el).
    now rewrite Hname. }
  assert (Habs : forall k,
            JsString.eqb (name el) k = false -> unnamed k rest = true ->
            Map_get (elementMapOf (el :: rest)) k = None).
  { intros k Hk Hno. apply elementMap_absent.
    cbn [unnamed forallb]. rewrite Hk. exact Hno. }
  assert (Hint : Map_get (elementMapOf (el :: rest)) (lit "intrinsic")
                 = None) by (apply Habs; [now rewrite Hname|assumption]).
  assert (Hext : Map_get (elementMapOf (el :: rest)) (lit "extrinsic")
                 = None) by (apply Habs; [now rewrite Hname|assumption]).
  assert (Hcol : Map_get (elementMapOf (el :: rest)) (lit "color_space")
                 = None) by (apply Habs; [now rewrite Hname|assumption]).
  assert (Hoff : Map_get (elementOffsetsOf (el :: rest) (ofZ start))
                         (lit "image_size")
                 = Some (ofZ start)).
  { rewrite <- Hname.
    assert (Hstart : 0 <= start) by (unfold start; lia).
    assert (Hsum : start + bodyBytes [] < 2 ^ 53).
    { cbn [bodyBytes fold_right]. rewrite length_app in Hsize.
      unfold start. lia. }
    assert (Hun : unnamed (name el) rest = true) by now rewrite Hname.
    pose proof (elementOffsets_get [] rest el start (Forall_nil _)
                  Hstart Hsum Hun) as H.
    cbn [app bodyBytes fold_right] in H. rewrite Z.add_0_r in H.
    exact H. }
  unfold Map_has. rewrite Hget. rewrite andb_false_r.
  (* the two words *)
  assert (Hread : readUints (header ++ body) (ofZ start) 2 w
                  = (Normal [ofZ (littleEndian (bytesAt body 0 4));
                             ofZ (littleEndian (bytesAt body 4 4))],
                     {| heap := heap w;
                        reads := (start + 4, 4) :: (start, 4)
                                 :: reads w |})).
  { unfold readUints, getUint32.
    rewrite (readLoop_words (header ++ body) ofZ start
               ltac:(unfold start; lia) Hsize 2 0 w ltac:(lia))
      by (rewrite length_app; unfold start; lia).
    cbn [seq List.map rev app].
    change (Z.of_nat 0) with 0. change (Z.of_nat 1) with 1.
    replace (start + 4 * (0 + 0)) with (start + 0) by lia.
    replace (start + 4 * (0 + 1)) with (start + 4) by lia.
    unfold start. rewrite !bytesAt_app by lia.
    rewrite Z.add_0_r. reflexivity. }
  unfold readImageSize. rewrite Hget, Hcount, Hoff.
  rewrite (bind_normal _ _ _ _ _
             (bind_normal _ _ _ _ _ Hread)).
  cbn [v_ nth_error].
  unfold readIntrinsic, readExtrinsic, readColorSpace.
  rewrite Hint, Hext, Hcol. reflexivity.
Qed.

Lemma image_size_decodes_witness :
  parsePlyMetadata (headerOnlyPly ++ word32 640 ++ word32 480) initialWorld
  = ({| extrinsics := extrinsics DEFAULT_METADATA;
        intrinsics := intrinsics DEFAULT_METADATA;
        imageSize :=
          (ofZ (littleEndian (bytesAt (word32 640 ++ word32 480) 0 4)),
           ofZ (littleEndian (bytesAt (word32 640 ++ word32 480) 4 4)));
        focalLength := pzero;
        colorSpace := sRGB;
        hasMetadata := true |},
     {| heap := heap initialWorld;
        reads := (Z.of_nat (List.length headerOnlyPly) + 4, 4)
                 :: (Z.of_nat (List.length headerOnlyPly), 4)
                 :: reads initialWorld |}).
Proof.
  apply (image_size_decodes headerOnlyPly (word32 640 ++ word32 480)
           (List.map lit ["ply"; "format binary_little_endian 1.0";
                          "element image_size 1";
                          "property uint width"; "property uint height"]%string)
           (lit "end_header")
           {| name := lit "image_size"; count := ofZ 1;
              properties :=
                [{| propName := lit "width"; propType := lit "uint";
                    byteSize := 4 |};
                 {| propName := lit "height"; propType := lit "uint";
                    byteSize := 4 |}];
              bytesPerElement := 8 |}
           [] initialWorld).
  - repeat split; vm_compute; (discriminate || reflexivity).
  - vm_compute. reflexivity.
  - vm_compute. reflexivity.
  - reflexivity.
  - vm_compute. reflexivity.
  - reflexivity.
  - reflexivity.
  - reflexivity.
  - reflexivity.
  - vm_compute. lia.
  - vm_compute. reflexivity.
Defined.

End ImageSize.

(* ================================================================== *)
(** * Camera conventions and the frames of a sequence *)
(* ================================================================== *)

Section Conventions.
Import JsNumber CameraConventions.

Lemma SFopp_involutive (v : number) : SFopp (SFopp v) = v.
Proof. destruct v as [[|]|[|]| |[|] m e]; reflexivity. Qed.

(** X26. [opencvToThreejs]: converting twice gives the position back,
    whatever the components (zeros of either sign, infinities and NaN
    included); the conversion keeps x, and the result is the same vector of
    numbers as the argument only when y and z are NaN (a zero changes its
    sign). *)
Theorem opencvToThreejs_involutive :
  forall p : Vector3.t,
    opencvToThreejs (opencvToThreejs p) = p /\
    Vector3.x (opencvToThreejs p) = Vector3.x p /\
    (opencvToThreejs p = p <->
     Vector3.y p = NaN /\ Vector3.z p = NaN).
Proof.
  intros [px py pz]. unfold opencvToThreejs. cbn [Vector3.x Vector3.y Vector3.z].
  split; [now rewrite !SFopp_involutive|]. split; [reflexivity|].
  split.
  - intros H. injection H as Hy Hz.
    split; [destruct py as [[|]|[|]| |[|] m e]|destruct pz as [[|]|[|]| |[|] m e]];
      try discriminate; reflexivity.
  - intros [-> ->]. reflexivity.
Qed.

End Conventions.

Section Frames.
Import JsNumber PlyMetadata SequenceViewer.

Lemma setVisible_length i b vis :
  List.length (setVisible i b vis) = List.length vis.
Proof.
  unfold setVisible. destruct (_ && _); [apply updateAt_length|reflexivity].
Qed.

Lemma setVisible_nth i b vis k :
  0 <= i < Z.of_nat (List.length vis) ->
  nth_error (setVisible i b vis) k
  = if Z.of_nat k =? i then Some b else nth_error vis k.
Proof.
  intros Hi. unfold setVisible.
  destruct (Z.leb_spec 0 i); [|lia].
  destruct (Z.ltb_spec i (Z.of_nat (List.length vis))); [|lia].
  cbn [andb].
  destruct (Z.eqb_spec (Z.of_nat k) i) as [<-|Hne].
  - rewrite Nat2Z.id, updateAt_nth_same.
    destruct (nth_error vis k) eqn:Hk; [reflexivity|].
    apply nth_error_None in Hk. lia.
  - apply updateAt_nth_other. lia.
Qed.

Lemma showsOnly_nth (i : Z) (vis : list bool) :
  showsOnly i vis <->
  forall k b, nth_error vis k = Some b -> b = (Z.of_nat k =? i).
Proof.
  unfold showsOnly. split.
  - intros H k b Hk. rewrite H, nth_error_map, nth_error_seq in Hk.
    destruct (Nat.ltb k (List.length vis)); [|discriminate].
    cbn in Hk. now injection Hk as <-.
  - intros H. apply nth_error_ext. intros k.
    rewrite nth_error_map, nth_error_seq.
    destruct (Nat.ltb_spec k (List.length vis)) as [Hlt|Hge].
    + destruct (nth_error vis k) as [b|] eqn:Hk.
      * now rewrite (H k b Hk).
      * apply nth_error_None in Hk. lia.
    + now apply nth_error_None.
Qed.

(** X27. One pass of the render loop over a sequence in which exactly the
    current mesh is visible: afterwards again exactly the current mesh is
    visible, and the current index is the old one or, when there are at
    least two meshes and more than 1000/12 ms have passed since the last
    step, the next one, wrapping to 0 after the last. *)
Theorem animate_shows_one_frame :
  forall (now : number) (st : AnimationState),
    let n := Z.of_nat (List.length (visible st)) in
    0 <= currentFrame st < n ->
    showsOnly (currentFrame st) (visible st) ->
    let st' := animate now st in
    List.length (visible st') = List.length (visible st) /\
    0 <= currentFrame st' < n /\
    showsOnly (currentFrame st') (visible st') /\
    (if (1 <? n) && ltb (div (ofZ 1000) frameRate)
                        (sub now (lastFrameTime st))
     then currentFrame st' = (currentFrame st + 1) mod n /\
          lastFrameTime st' = now
     else currentFrame st' = currentFrame st /\
          visible st' = visible st /\
          lastFrameTime st' = lastFrameTime st).
Proof.
  intros now st n Hc Hshow. cbv zeta. unfold animate.
  set (st1 := if leb (ofZ 1000) (sub now (lastFpsTime st)) then _ else st).
  assert (Hv : visible st1 = visible st)
    by (unfold st1; destruct (leb _ _); reflexivity).
  assert (Hf : currentFrame st1 = currentFrame st)
    by (unfold st1; destruct (leb _ _); reflexivity).
  assert (Ht : lastFrameTime st1 = lastFrameTime st)
    by (unfold st1; destruct (leb _ _); reflexivity).
  rewrite Hv, Hf, Ht. fold n.
  destruct (Z.ltb_spec 1 n) as [Hn|Hn]; cbn [andb];
    [|rewrite Hv, Hf, Ht; repeat split; assumption || lia].
  destruct (ltb (div (ofZ 1000) frameRate) (sub now (lastFrameTime st)));
    [|rewrite Hv, Hf, Ht; repeat split; assumption || lia].
  cbn [visible currentFrame lastFrameTime].
  rewrite Z.rem_mod_nonneg by lia.
  pose proof (Z.mod_pos_bound (currentFrame st + 1) n ltac:(lia)) as Hm.
  set (next := (currentFrame st + 1) mod n) in *.
  split; [now rewrite !setVisible_length|].
  split; [exact Hm|]. split; [|split; reflexivity].
  apply showsOnly_nth. rewrite showsOnly_nth in Hshow.
  intros k b Hk.
  rewrite setVisible_nth in Hk by (rewrite setVisible_length; fold n; lia).
  destruct (Z.eqb_spec (Z.of_nat k) next) as [Hkn|Hkn];
    [now injection Hk as <-|].
  rewrite setVisible_nth in Hk by (fold n; lia).
  destruct (Z.eqb_spec (Z.of_nat k) (currentFrame st)) as [Hkc|Hkc];
    [now injection Hk as <-|].
  specialize (Hshow k b Hk). rewrite Hshow.
  now apply Z.eqb_neq.
Qed.

Lemma animate_shows_one_frame_witness :
  let st' := animate (ofZ 100) (sampleState 3) in
  currentFrame st' = 0 /\ visible st' = [true; false; false; false].
Proof.
  cbv zeta.
  destruct (animate_shows_one_frame (ofZ 100) (sampleState 3))
    as (_ & _ & _ & Hstep).
  - vm_compute. split; [discriminate|reflexivity].
  - vm_compute. reflexivity.
  - split; [|vm_compute; reflexivity].
    change ((1 <? Z.of_nat (List.length (visible (sampleState 3))))
            && ltb (div (ofZ 1000) frameRate)
                   (sub (ofZ 100) (lastFrameTime (sampleState 3))))
      with true in Hstep.
    destruct Hstep as [-> _]. reflexivity.
Defined.

(** X28. The end of [loadPlySequence] resets the index to 0 but not the
    flags.  When the render loop has stepped to a mesh [k >= 2] while the
    meshes were loading, the first step after the reset shows mesh 1 and
    leaves mesh [k] visible: two frames of the sequence are on screen at
    once. *)
Theorem reset_leaves_two_frames_visible :
  forall (now t : number) (st : AnimationState) (k : Z),
    let n := Z.of_nat (List.length (visible st)) in
    currentFrame st = k -> 2 <= k < n ->
    showsOnly k (visible st) ->
    ltb (div (ofZ 1000) frameRate) (sub now t) = true ->
    let st' := animate now (finishLoad t st) in
    currentFrame st' = 1 /\
    nth_error (visible st') 1 = Some true /\
    nth_error (visible st') (Z.to_nat k) = Some true /\
    ~ showsOnly (currentFrame st') (visible st').
Proof.
  intros now t st k n Hcur Hk Hshow Hfire. cbv zeta.
  rewrite showsOnly_nth in Hshow.
  assert (Hst : visible (animate now (finishLoad t st))
                = setVisible 1 true (setVisible 0 false (visible st)) /\
                currentFrame (animate now (finishLoad t st)) = 1).
  { unfold animate, finishLoad.
    cbn [visible currentFrame lastFrameTime lastFpsTime frameCount].
    destruct (leb (ofZ 1000) (sub now (lastFpsTime st)));
      cbn [visible currentFrame lastFrameTime lastFpsTime frameCount];
      fold n; (destruct (Z.ltb_spec 1 n); [|lia]); rewrite Hfire;
      cbn [visible currentFrame]; rewrite Z.rem_small by lia;
      split; reflexivity. }
  destruct Hst as [Hvis Hfr]. rewrite Hvis, Hfr.
  assert (H1 : nth_error (setVisible 1 true (setVisible 0 false (visible st)))
                 1 = Some true).
  { rewrite setVisible_nth by (rewrite setVisible_length; fold n; lia).
    reflexivity. }
  assert (Hkk : nth_error (setVisible 1 true
                             (setVisible 0 false (visible st)))
                  (Z.to_nat k) = Some true).
  { rewrite setVisible_nth by (rewrite setVisible_length; fold n; lia).
    rewrite Z2Nat.id by lia.
    destruct (Z.eqb_spec k 1); [lia|].
    rewrite setVisible_nth by (fold n; lia).
    rewrite Z2Nat.id by lia.
    destruct (Z.eqb_spec k 0); [lia|].
    destruct (nth_error (visible st) (Z.to_nat k)) as [b|] eqn:Hb.
    - rewrite (Hshow _ _ Hb), Z2Nat.id, Z.eqb_refl by lia. reflexivity.
    - apply nth_error_None in Hb. lia. }
  split; [reflexivity|]. split; [exact H1|]. split; [exact Hkk|].
  intros Hbad. rewrite showsOnly_nth in Hbad. specialize (Hbad _ _ Hkk).
  rewrite Z2Nat.id in Hbad by lia.
  destruct (Z.eqb_spec k 1); [lia|discriminate].
Qed.

Lemma reset_leaves_two_frames_visible_witness :
  let st' := animate (ofZ 100) (finishLoad (ofZ 0) (sampleState 3)) in
  currentFrame st' = 1 /\
  nth_error (visible st') 1 = Some true /\
  nth_error (visible st') (Z.to_nat 3) = Some true /\
  ~ showsOnly (currentFrame st') (visible st').
Proof.
  apply (reset_leaves_two_frames_visible (ofZ 100) (ofZ 0) (sampleState 3) 3).
  - reflexivity.
  - vm_compute. split; [discriminate|reflexivity].
  - vm_compute. reflexivity.
  - vm_compute. reflexivity.
Defined.

End Frames.
